(** * Moler: scheduler, device state gate, thread-pool runner and Ssh transport

    A shallow embedding of
      - [moler/scheduler.py], module [Scheduler]: [Scheduler.get_job],
        [DecoratedCallable] and [Job], over APScheduler seen as a job store
        whose intervals expire; module [SchedulerClass]: the singleton, its
        scheduler objects and [change_kind];
      - [moler/device/textualdevice.py], module [TextualDevice]:
        [_get_observer_in_state], [get_observer], [get_cmd], [get_event], the
        state changes on connection events, the registry of states and
        triggers, [goto_state] and the collecting of the catalogues;
      - [moler/runner.py], module [Runner]: [time_out_observer],
        [CancellableFuture], the guarded receiver of [_start_feeding], [feed],
        [_feed_loop], [submit], [wait_for] and [his_remaining_time]; module
        [RunnerFloat]: [his_remaining_time] with the rounding of its floats;
      - [moler/io/raw/ssh.py], module [Ssh]: the methods of class Ssh and the
        attribute lookup on its instances,
    followed by the properties stated about them, in modules of facts per
    source file.

    Conventions.  Python objects that are shared and mutated live in an
    explicit store that every operation threads through.  Readings of the
    clock ([time.time()]) and float seconds are idealised as rationals with
    exact arithmetic; where the value of a float computation is itself the
    subject, its rounding is explicit ([RunnerFloat]).  What other threads do
    between two steps of the code is an explicit input.  A Python exception
    is a value of [exn]; a call that may raise returns [exn + A]. *)

From stdpp Require Import base option list strings gmap.
From Stdlib Require Import QArith Qminmax Qround Lqa.

Close Scope Q_scope.

Set Default Proof Using "Type".

(** ** Exceptions *)

(** The [kind] argument of the two timeout exceptions. *)
Inductive TimeoutKind := background_run | await_done.

(** The exception classes the embedded code raises or handles.
    [UserException] stands for whatever a callback or a parser raises. *)
Inductive exn :=
| KeyError (msg : string)
| TypeError
| AttributeError (attr : string)
| WrongUsage
| CommandWrongState (creation_state current_state : string)
| EventWrongState (creation_state current_state : string)
| CommandTimeout (timeout : option Q) (kind : TimeoutKind) (passed_time : Q)
| ConnectionObserverTimeout (timeout : option Q) (kind : TimeoutKind) (passed_time : Q)
| MolerException (stop_timeout : Q)
| RemoteEndpointNotConnected
| AssertionError
| UserException (code : nat)
| RuntimeError (msg : string).

(** Outcome of a call that may raise. *)
Definition result (A : Type) : Type := exn + A.
Definition Raise {A} (e : exn) : result A := inl e.
Definition Return {A} (a : A) : result A := inr a.

(** ** moler/scheduler.py *)

Module Scheduler.

(** A user callback.  Its only observable behaviour here is whether a given
    invocation raises; [cb_raises n] tells it for the invocation that comes
    after [n] earlier ones. *)
Record Callback := { cb_id : nat; cb_raises : nat → bool }.

(** What can be handed to [add_job] as the function to run. *)
Inductive callable :=
| Function (cb : Callback)   (* [decorated.callback]: the user's callable itself *)
| BoundCall (d : nat).       (* [decorated.call]: bound method of the
                                DecoratedCallable stored at address [d] *)

Definition Kwargs : Type := option (list (string * string)).

(** A job of the APScheduler job store.  [paused] is APScheduler's
    "next run time is None". *)
Record ApsJob := {
  func : callable;
  seconds : Q;
  kwargs : Kwargs;
  paused : bool }.

(** class Job: a wrapper around the APScheduler job (its index in the store). *)
Record Job := { _job : nat }.

(** class DecoratedCallable (the logger is left out). *)
Record DecoratedCallable := {
  callback : Callback;
  cancel_on_exception : bool;
  job : option Job }.

(** The singleton scheduler instance with the objects reachable from it, and
    the log of callback invocations: an entry [(j, c)] says that job [j]
    invoked the callback with identity [c]. *)
Record State := {
  jobs : list ApsJob;
  decorated : list DecoratedCallable;
  invoked : list (nat * nat) }.

Definition empty : State := {| jobs := []; decorated := []; invoked := [] |}.

Definition set_paused (b : bool) (jb : ApsJob) : ApsJob :=
  {| func := func jb; seconds := seconds jb; kwargs := kwargs jb; paused := b |}.

(** APScheduler: [scheduler.add_job(f, 'interval', seconds=.., kwargs=..)] on a
    started scheduler stores a job that is scheduled to run. *)
Definition add_job (f : callable) (secs : Q) (kw : Kwargs) (s : State) : State * nat :=
  ({| jobs := jobs s ++ [ {| func := f; seconds := secs; kwargs := kw; paused := false |} ];
      decorated := decorated s; invoked := invoked s |},
   length (jobs s)).

(** APScheduler: [job.pause()] and [job.resume()]. *)
Definition pause (j : nat) (s : State) : State :=
  {| jobs := alter (set_paused true) j (jobs s);
     decorated := decorated s; invoked := invoked s |}.

Definition resume (j : nat) (s : State) : State :=
  {| jobs := alter (set_paused false) j (jobs s);
     decorated := decorated s; invoked := invoked s |}.

(** [DecoratedCallable(callback, cancel_on_exception)]: a new object whose
    [job] attribute is [None]. *)
Definition DecoratedCallable_init (cb : Callback) (coe : bool) (s : State) : State * nat :=
  ({| jobs := jobs s;
      decorated := decorated s ++
        [ {| callback := cb; cancel_on_exception := coe; job := None |} ];
      invoked := invoked s |},
   length (decorated s)).

(** [decorated.job = job] *)
Definition set_job (d : nat) (jb : Job) (s : State) : State :=
  {| jobs := jobs s;
     decorated := alter (λ dc, {| callback := callback dc;
                                  cancel_on_exception := cancel_on_exception dc;
                                  job := Some jb |}) d (decorated s);
     invoked := invoked s |}.

(** [Job.start] and [Job.cancel]. *)
Definition Job_start (jb : Job) (s : State) : State := resume (_job jb) s.
Definition Job_cancel (jb : Job) (s : State) : State := pause (_job jb) s.

(** [Scheduler.get_job]:
<<
    decorated = DecoratedCallable(callback, cancel_on_exception)
    job_internal = instance._scheduler.add_job(decorated.callback, 'interval', ...)
    job_internal.pause()
    job = Job(job_internal)
    decorated.job = job
    return job
>>
    The function registered with the scheduler is [decorated.callback].  The
    first run of an interval job is one interval after [add_job], so no expiry
    falls between [add_job] and [pause]. *)
Definition get_job (cb : Callback) (interval : Q) (callback_params : Kwargs)
    (coe : bool) (s : State) : State * Job :=
  let '(s1, d) := DecoratedCallable_init cb coe s in
  match decorated s1 !! d with
  | None => (s1, {| _job := 0 |})   (* not reached: [d] was just allocated *)
  | Some dc =>
      let '(s2, job_internal) := add_job (Function (callback dc)) interval callback_params s1 in
      let s3 := pause job_internal s2 in
      let jb := {| _job := job_internal |} in
      (set_job d jb s3, jb)
  end.

(** Number of earlier invocations of the callback with identity [c]. *)
Definition times_called (c : nat) (s : State) : nat :=
  length (filter (λ e, e.2 = c) (invoked s)).

(** Job [j] runs the user callback once; the boolean says whether it raised. *)
Definition run_callback (j : nat) (cb : Callback) (s : State) : State * bool :=
  ({| jobs := jobs s; decorated := decorated s;
      invoked := invoked s ++ [(j, cb_id cb)] |},
   cb_raises cb (times_called (cb_id cb) s)).

(** [DecoratedCallable.call], run by job [j] on the object at address [d]:
<<
    try:
        self.callback( **kwargs )
    except Exception as ex:
        if self.cancel_on_exception:
            if self.job:
                self.job.cancel()
>>  *)
Definition DecoratedCallable_call (d j : nat) (s : State) : State :=
  match decorated s !! d with
  | None => s
  | Some dc =>
      let '(s1, raised) := run_callback j (callback dc) s in
      if raised then
        if cancel_on_exception dc then
          match job dc with
          | Some jb => Job_cancel jb s1
          | None => s1
          end
        else s1
      else s1
  end.

(** APScheduler: the interval of job [j] has elapsed.  A paused or unknown job
    does not run.  An exception that escapes the job's function is caught and
    logged by the executor, and the job stays scheduled. *)
Definition fire (j : nat) (s : State) : State :=
  match jobs s !! j with
  | None => s
  | Some jb =>
      if paused jb then s
      else match func jb with
           | Function cb => (run_callback j cb s).1
           | BoundCall d => DecoratedCallable_call d j s
           end
  end.

(** What can happen to the scheduler: a timer expiry, or a call of its API. *)
Inductive Event :=
| EvFire (j : nat)
| EvStart (jb : Job)
| EvCancel (jb : Job)
| EvGetJob (cb : Callback) (interval : Q) (params : Kwargs) (coe : bool).

Definition step (ev : Event) (s : State) : State :=
  match ev with
  | EvFire j => fire j s
  | EvStart jb => Job_start jb s
  | EvCancel jb => Job_cancel jb s
  | EvGetJob cb i p coe => (get_job cb i p coe s).1
  end.

Definition run (evs : list Event) (s : State) : State :=
  fold_left (λ s ev, step ev s) evs s.

(** The invocations made through job [j]. *)
Definition calls_through (j : nat) (s : State) : list (nat * nat) :=
  filter (λ e, e.1 = j) (invoked s).

Definition is_paused (j : nat) (s : State) : bool :=
  match jobs s !! j with
  | Some jb => paused jb
  | None => false
  end.

(** [evs] contains no [Job.start()] of job [j]. *)
Definition no_start (j : nat) (evs : list Event) : bool :=
  forallb (λ ev, match ev with
                 | EvStart jb => negb (Nat.eqb (_job jb) j)
                 | _ => true
                 end) evs.

(** *** Notions used to state the properties *)

(** Job [j] cannot run in [s]: it is paused, or there is no such job. *)
Definition quiet (j : nat) (s : State) : Prop :=
  match jobs s !! j with
  | Some jb => paused jb = true
  | None => True
  end.

(** A started job that was registered with the plain callback. *)
Definition runs_plain (j : nat) (cb : Callback) (s : State) : Prop :=
  ∃ jb, jobs s !! j = Some jb ∧ func jb = Function cb ∧ paused jb = false.

(** A callback that raises at every invocation. *)
Definition always_raises (c : nat) : Callback :=
  {| cb_id := c; cb_raises := λ _, true |}.

End Scheduler.

(** ** moler/scheduler.py: the singleton *)

Module SchedulerClass.

(** The two APScheduler classes the module instantiates. *)
Inductive ApKind := BackgroundScheduler | AsyncIOScheduler.

(** An APScheduler scheduler object: whether it is running, and its job
    store with what hangs on it (module [Scheduler]). *)
Record ApScheduler := {
  ap_kind : ApKind;
  ap_running : bool;
  ap_store : Scheduler.State }.

(** An instance of class Scheduler; [_scheduler] is the address of its
    APScheduler object. *)
Record Instance := {
  _scheduler_type : option string;
  _scheduler : option nat }.

(** The class attribute [Scheduler._object] and the scheduler objects made so
    far, by address. *)
Record ClassState := {
  _object : option Instance;
  schedulers : list ApScheduler }.

Definition initial : ClassState := {| _object := None; schedulers := [] |}.

(** The store with one more scheduler of kind [k], started, at the next
    address. *)
Definition with_started (k : ApKind) (cs : ClassState) : ClassState :=
  {| _object := _object cs;
     schedulers := schedulers cs ++
       [ {| ap_kind := k; ap_running := true; ap_store := Scheduler.empty |} ] |}.

(** APScheduler: [scheduler.remove_all_jobs()] and [scheduler.shutdown()]. *)
Definition remove_all_jobs (k : nat) (cs : ClassState) : ClassState :=
  {| _object := _object cs;
     schedulers :=
       alter (λ a, {| ap_kind := ap_kind a; ap_running := ap_running a;
                      ap_store := {| Scheduler.jobs := [];
                                     Scheduler.decorated := Scheduler.decorated (ap_store a);
                                     Scheduler.invoked := Scheduler.invoked (ap_store a) |} |})
             k (schedulers cs) |}.

Definition shutdown (k : nat) (cs : ClassState) : ClassState :=
  {| _object := _object cs;
     schedulers :=
       alter (λ a, {| ap_kind := ap_kind a; ap_running := false;
                      ap_store := ap_store a |}) k (schedulers cs) |}.

Section WithEventLoop.

(** APScheduler's [start()].  A BackgroundScheduler starts a thread of its
    own.  An AsyncIOScheduler starts on the event loop of asyncio and raises
    when there is none to run on ([RuntimeError]); [asyncio_start] is what
    that call raises, [None] when the scheduler starts. *)
Variable asyncio_start : option exn.

Definition start_raises (k : ApKind) : option exn :=
  match k with
  | BackgroundScheduler => None
  | AsyncIOScheduler => asyncio_start
  end.

(** [scheduler = BackgroundScheduler()] or [scheduler = AsyncIOScheduler()]
    followed by [scheduler.start()].  When [start()] raises, the object just
    made is referenced by nothing and the store is as it was. *)
Definition new_started (k : ApKind) (cs : ClassState) : ClassState * result nat :=
  match start_raises k with
  | Some e => (cs, Raise e)
  | None => (with_started k cs, Return (length (schedulers cs)))
  end.

(** [_create_scheduler]:
<<
    if self._scheduler_type == scheduler_type:
        return self._scheduler
    if scheduler_type == 'thread':
        scheduler = BackgroundScheduler()
    elif scheduler_type == 'asyncio':
        scheduler = AsyncIOScheduler()
    else:
        raise WrongUsage(...)
    scheduler.start()
    return scheduler
>>  *)
Definition _create_scheduler (self : Instance) (scheduler_type : string)
    (cs : ClassState) : ClassState * result (option nat) :=
  if decide (_scheduler_type self = Some scheduler_type)
  then (cs, Return (_scheduler self))
  else
    let started (r : ClassState * result nat) : ClassState * result (option nat) :=
      match r with
      | (cs', inl e) => (cs', Raise e)
      | (cs', inr k) => (cs', Return (Some k))
      end in
    if decide (scheduler_type = "thread")
    then started (new_started BackgroundScheduler cs)
    else if decide (scheduler_type = "asyncio")
    then started (new_started AsyncIOScheduler cs)
    else (cs, Raise WrongUsage).

(** [_swap_scheduler]; the result is [self] after the call.
<<
    if new_scheduler_type is None:
        new_scheduler_type = 'thread'
    scheduler = self._create_scheduler(new_scheduler_type)
    if self._scheduler and (self._scheduler != scheduler):
        self._scheduler.remove_all_jobs()
        self._scheduler.shutdown()
    self._scheduler = scheduler
    self._scheduler_type = new_scheduler_type
>>  *)
Definition _swap_scheduler (new_scheduler_type : option string) (self : Instance)
    (cs : ClassState) : ClassState * result Instance :=
  let new_scheduler_type := default "thread" new_scheduler_type in
  match _create_scheduler self new_scheduler_type cs with
  | (cs1, inl e) => (cs1, Raise e)
  | (cs1, inr scheduler) =>
      let cs2 :=
        match _scheduler self with
        | Some old =>
            if decide (Some old = scheduler) then cs1
            else shutdown old (remove_all_jobs old cs1)
        | None => cs1
        end in
      (cs2, Return {| _scheduler_type := Some new_scheduler_type;
                      _scheduler := scheduler |})
  end.

(** [Scheduler.__init__]: a second instance is refused. *)
Definition __init__ (scheduler_type : option string) (cs : ClassState)
    : ClassState * result unit :=
  match _object cs with
  | Some _ => (cs, Raise WrongUsage)
  | None =>
      match _swap_scheduler scheduler_type
              {| _scheduler_type := None; _scheduler := None |} cs with
      | (cs1, inl e) => (cs1, Raise e)
      | (cs1, inr self) =>
          ({| _object := Some self; schedulers := schedulers cs1 |}, Return tt)
      end
  end.

(** [Scheduler._get_instance]: creates the instance when there is none, and
    returns [Scheduler._object]. *)
Definition _get_instance (cs : ClassState) : ClassState * result (option Instance) :=
  match _object cs with
  | None =>
      match __init__ None cs with
      | (cs1, inl e) => (cs1, Raise e)
      | (cs1, inr _) => (cs1, Return (_object cs1))
      end
  | Some _ => (cs, Return (_object cs))
  end.

(** [Scheduler.change_kind]; the instance is changed in place. *)
Definition change_kind (scheduler_type : option string) (cs : ClassState)
    : ClassState * result unit :=
  match _get_instance cs with
  | (cs1, inl e) => (cs1, Raise e)
  | (cs1, inr None) => (cs1, Raise (AttributeError "_swap_scheduler"))
  | (cs1, inr (Some instance)) =>
      match _swap_scheduler scheduler_type instance cs1 with
      | (cs2, inl e) => (cs2, Raise e)
      | (cs2, inr instance') =>
          ({| _object := Some instance'; schedulers := schedulers cs2 |}, Return tt)
      end
  end.

(** The static method [Scheduler.get_job], from the class: the job is made in
    the store of the instance's scheduler.  The result is the address of that
    scheduler and the Job. *)
Definition get_job (cb : Scheduler.Callback) (interval : Q)
    (callback_params : Scheduler.Kwargs) (coe : bool) (cs : ClassState)
    : ClassState * result (nat * Scheduler.Job) :=
  match _get_instance cs with
  | (cs1, inl e) => (cs1, Raise e)
  | (cs1, inr None) => (cs1, Raise (AttributeError "_scheduler"))
  | (cs1, inr (Some instance)) =>
      match _scheduler instance with
      | None => (cs1, Raise (AttributeError "add_job"))
      | Some k =>
          match schedulers cs1 !! k with
          | None => (cs1, Raise (AttributeError "add_job"))
          | Some a =>
              let '(store', jb) :=
                Scheduler.get_job cb interval callback_params coe (ap_store a) in
              ({| _object := _object cs1;
                  schedulers :=
                    <[k := {| ap_kind := ap_kind a; ap_running := ap_running a;
                              ap_store := store' |}]> (schedulers cs1) |},
               Return (k, jb))
          end
      end
  end.

End WithEventLoop.

(** The interval of job [j] of the scheduler at address [k] has elapsed; a
    scheduler that was shut down runs nothing. *)
Definition fire (k j : nat) (cs : ClassState) : ClassState :=
  {| _object := _object cs;
     schedulers :=
       alter (λ a, if ap_running a
                   then {| ap_kind := ap_kind a; ap_running := true;
                           ap_store := Scheduler.fire j (ap_store a) |}
                   else a) k (schedulers cs) |}.

(** The scheduler the instance uses, if there is an instance. *)
Definition current_scheduler (cs : ClassState) : option ApScheduler :=
  inst ← _object cs; k ← _scheduler inst; schedulers cs !! k.

(** The invariant of the class state: the instance, if any, has a type and a
    scheduler that exists, runs and is of that type. *)
Definition kind_of (scheduler_type : string) : option ApKind :=
  if decide (scheduler_type = "thread") then Some BackgroundScheduler
  else if decide (scheduler_type = "asyncio") then Some AsyncIOScheduler
  else None.

Definition well_formed (cs : ClassState) : Prop :=
  match _object cs with
  | None => True
  | Some inst =>
      ∃ ty k a, _scheduler_type inst = Some ty ∧ _scheduler inst = Some k
                ∧ schedulers cs !! k = Some a
                ∧ ap_running a = true ∧ kind_of ty = Some (ap_kind a)
  end.

(** No event loop of asyncio is running: what [AsyncIOScheduler.start()]
    raises then. *)
Definition no_event_loop : option exn := Some (RuntimeError "no running event loop").

(** What [remove_all_jobs] followed by [shutdown] leaves of a scheduler. *)
Definition retired (a : ApScheduler) : ApScheduler :=
  {| ap_kind := ap_kind a; ap_running := false;
     ap_store := {| Scheduler.jobs := [];
                    Scheduler.decorated := Scheduler.decorated (ap_store a);
                    Scheduler.invoked := Scheduler.invoked (ap_store a) |} |}.

End SchedulerClass.

(** ** moler/device/textualdevice.py *)

Module TextualDevice.

Definition cmds : string := "cmd".
Definition events : string := "event".
Definition connected : string := "CONNECTED".
Definition not_connected : string := "NOT_CONNECTED".

(** Keyword arguments handed to an observer's constructor. *)
Definition Kwargs : Type := list (string * string).

(** The two exception classes [get_cmd] and [get_event] pass down as
    [observer_exception]. *)
Inductive ObserverException := CommandWrongState_cls | EventWrongState_cls.

(** The value of an observer's [_validate_start] attribute: the method its
    class defines, or the closure [get_observer] installs over the previous
    value.  The closure keeps [observer_exception], [creation_state] and
    [original_fun]; [self] is the device it is later run against. *)
Inductive ValidateStart :=
| class_validate_start
| validate_device_state_before_observer_start
    (observer_exception : ObserverException) (creation_state : string)
    (original_fun : ValidateStart).

(** An observer as the device sees it. *)
Record Observer := {
  class_fullname : string;
  observer_kwargs : Kwargs;
  _validate_start : ValidateStart }.

(** The device: the state of its state machine and the two catalogues
    state -> (observer name -> class full name). *)
Record Device := {
  state : string;
  class_name : string;
  _cmdnames_available_in_state : gmap string (gmap string string);
  _eventnames_available_in_state : gmap string (gmap string string) }.

Definition current_state (self : Device) : string := state self.

(** [_set_state] (the logger is left out). *)
Definition _set_state (st : string) (self : Device) : Device :=
  if decide (current_state self = st) then self
  else {| state := st; class_name := class_name self;
          _cmdnames_available_in_state := _cmdnames_available_in_state self;
          _eventnames_available_in_state := _eventnames_available_in_state self |}.

Definition on_connection_made (self : Device) : Device := _set_state connected self.
Definition on_connection_lost (self : Device) : Device := _set_state not_connected self.

Definition raise_observer_exception (cls : ObserverException)
    (creation_state cur : string) : exn :=
  match cls with
  | CommandWrongState_cls => CommandWrongState creation_state cur
  | EventWrongState_cls => EventWrongState creation_state cur
  end.

(** The message of the [KeyError] of [_get_observer_in_state]. *)
Definition unknown_observer_msg (observer_type observer_name st cls : string) : string :=
  "Failed to create " +:+ observer_type +:+ "-object for '" +:+ observer_name +:+ "' "
  +:+ observer_type +:+ ". '" +:+ observer_name +:+ "' " +:+ observer_type
  +:+ " is unknown for state '" +:+ st +:+ "' of device '" +:+ cls +:+ "'.".

Section WithObserverClasses.

(** The catalogue of observer classes is outside this file.  [observer_class]
    stands for importing the module of a class and calling the class with the
    device's connection and the keyword arguments: [None] when that returns
    the new observer, [Some e] when it raises [e]. *)
Variable observer_class : string → Kwargs → option exn.

(** What the [_validate_start] method of the observer classes does. *)
Variable class_validate_start_body : Observer → result unit.

(** [_get_observer_in_state].  A subscript of a dict with a missing key raises
    [KeyError(key)]. *)
Definition _get_observer_in_state (self : Device) (observer_name observer_type : string)
    (kwargs : Kwargs) : result Observer :=
  let lookup_catalogue (cat : gmap string (gmap string string)) :=
    match cat !! current_state self with
    | Some names => Return names
    | None => Raise (KeyError (current_state self))
    end in
  let available :=
    if decide (observer_type = cmds)
    then lookup_catalogue (_cmdnames_available_in_state self)
    else if decide (observer_type = events)
    then lookup_catalogue (_eventnames_available_in_state self)
    else Return ∅ in
  match available with
  | inl e => Raise e
  | inr available_observer_names =>
      match available_observer_names !! observer_name with
      | Some fullname =>
          match observer_class fullname kwargs with
          | Some e => Raise e
          | None => Return {| class_fullname := fullname;
                              observer_kwargs := kwargs;
                              _validate_start := class_validate_start |}
          end
      | None =>
          Raise (KeyError (unknown_observer_msg observer_type observer_name
                             (current_state self) (class_name self)))
      end
  end.

Definition _create_cmd_instance (self : Device) (cmd_name : string) (kwargs : Kwargs) :=
  _get_observer_in_state self cmd_name cmds kwargs.

Definition _create_event_instance (self : Device) (event_name : string) (kwargs : Kwargs) :=
  _get_observer_in_state self event_name events kwargs.

(** [get_observer].  With an [observer_type] that is neither [cmds] nor
    [events] the local [observer] stays [None], and reading its
    [_validate_start] raises [AttributeError]. *)
Definition get_observer (self : Device) (observer_name observer_type : string)
    (observer_exception : ObserverException) (check_state : bool) (kwargs : Kwargs)
    : result (option Observer) :=
  let some_of (r : result Observer) : result (option Observer) :=
    match r with
    | inl e => Raise e
    | inr o => Return (Some o)
    end in
  let created : result (option Observer) :=
    if decide (observer_type = cmds)
    then some_of (_create_cmd_instance self observer_name kwargs)
    else if decide (observer_type = events)
    then some_of (_create_event_instance self observer_name kwargs)
    else Return None in
  match created with
  | inl e => Raise e
  | inr None =>
      if check_state then Raise (AttributeError "_validate_start") else Return None
  | inr (Some observer) =>
      if check_state then
        let original_fun := _validate_start observer in
        let creation_state := current_state self in
        Return (Some {| class_fullname := class_fullname observer;
                        observer_kwargs := observer_kwargs observer;
                        _validate_start :=
                          validate_device_state_before_observer_start
                            observer_exception creation_state original_fun |})
      else Return (Some observer)
  end.

Definition get_cmd (self : Device) (cmd_name : string) (check_state : bool)
    (kwargs : Kwargs) : result (option Observer) :=
  get_observer self cmd_name cmds CommandWrongState_cls check_state kwargs.

Definition get_event (self : Device) (event_name : string) (check_state : bool)
    (kwargs : Kwargs) : result (option Observer) :=
  get_observer self event_name events EventWrongState_cls check_state kwargs.

(** Running the value of [_validate_start] of [observer] while the device is
    [self]:
<<
    current_state = self.current_state
    if current_state == creation_state:
        return original_fun(...)
    else:
        raise observer_exception(observer, creation_state, current_state)
>>  *)
Fixpoint call_validate_start (v : ValidateStart) (self : Device) (observer : Observer)
    : result unit :=
  match v with
  | class_validate_start => class_validate_start_body observer
  | validate_device_state_before_observer_start observer_exception creation_state original_fun =>
      let current_state := current_state self in
      if decide (current_state = creation_state)
      then call_validate_start original_fun self observer
      else Raise (raise_observer_exception observer_exception creation_state current_state)
  end.

(** Modelled from the spec: [ConnectionObserver.start] lives in
    moler/connection_observer.py, which is not among the sources.  Starting an
    observer runs its pre-start validator first and fails with what the
    validator raises; the rest of [start] is not modelled, so [Return tt]
    means that the validator let the start go on. *)
Definition start (self : Device) (observer : Observer) : result unit :=
  call_validate_start (_validate_start observer) self observer.

End WithObserverClasses.

(** *** Notions used to state the properties *)

(** The catalogue [get_observer] consults for an observer type. *)
Definition catalogue (observer_type : string) (self : Device)
    : gmap string (gmap string string) :=
  if decide (observer_type = cmds) then _cmdnames_available_in_state self
  else _eventnames_available_in_state self.

(** The names allowed in the current state; none when the state has no entry. *)
Definition allowed (observer_type : string) (self : Device) : gmap string string :=
  default ∅ (catalogue observer_type self !! current_state self).

Definition succeeds {A} (r : result A) : Prop := ∃ a, r = Return a.

(** A device with the two states of the class, [ls] and [ping] as commands of
    CONNECTED, and one event. *)
Definition unix_like : Device :=
  {| state := connected;
     class_name := "TextualDevice";
     _cmdnames_available_in_state :=
       {[ connected := {[ "ls" := "moler.cmd.unix.ls.Ls";
                          "ping" := "moler.cmd.unix.ping.Ping" ]};
          not_connected := ∅ ]};
     _eventnames_available_in_state :=
       {[ connected := {[ "wait4prompt" := "moler.events.unix.wait4prompt.Wait4prompt" ]};
          not_connected := ∅ ]} |}.

(** *** The state machine's registry *)

(** Calls made on [self.SM], the StateMachine of moler/device/state_machine.py
    (not among the sources); only the calls are kept, in order. *)
Inductive SMCall :=
| SM_add_state (st : string)
| SM_add_transitions (trigger source dest : string) (before : list string).

(** The two class attributes [TextualDevice.states] and
    [TextualDevice.goto_states_triggers], shared by all devices, and the calls
    made on the state machine. *)
Record Registry := {
  states : list string;
  goto_states_triggers : list string;
  SM_calls : list SMCall }.

Definition trigger_name (st : string) : string := "GOTO_" +:+ st.

(** [build_trigger_to_state] *)
Definition build_trigger_to_state (st : string) (r : Registry) : Registry * string :=
  let trigger := trigger_name st in
  (if bool_decide (trigger ∈ goto_states_triggers r) then r
   else {| states := states r;
           goto_states_triggers := goto_states_triggers r ++ [trigger];
           SM_calls := SM_calls r |},
   trigger).

(** [_update_SM_states] *)
Definition _update_SM_states (st : string) (r : Registry) : Registry :=
  if bool_decide (st ∈ states r) then r
  else {| states := states r ++ [st];
          goto_states_triggers := goto_states_triggers r;
          SM_calls := SM_calls r |}.

Definition SM_call (c : SMCall) (r : Registry) : Registry :=
  {| states := states r; goto_states_triggers := goto_states_triggers r;
     SM_calls := SM_calls r ++ [c] |}.

(** The table handed to [_add_transitions]: source state, then destination
    state, then the list under ["action"]; the order is that of the iteration
    over the dicts. *)
Definition Transitions : Type := list (string * list (string * list string)).

(** The body of the inner loop of [_add_transitions] for one source and one
    destination. *)
Definition add_transition (source_state : string) (dest : string * list string)
    (r : Registry) : Registry :=
  let '(r1, trigger) := build_trigger_to_state dest.1 r in
  let r2 := SM_call (SM_add_state dest.1) r1 in
  let r3 := SM_call (SM_add_transitions trigger source_state dest.1 dest.2) r2 in
  _update_SM_states dest.1 r3.

(** [_add_transitions] *)
Definition _add_transitions (transitions : Transitions) (r : Registry) : Registry :=
  fold_left (λ r src, fold_left (λ r dest, add_transition src.1 dest r) src.2 r)
            transitions r.

(** The table of [_prepare_transitions]. *)
Definition textual_device_transitions : Transitions :=
  [ (connected, [ (not_connected, ["_open_connection"]) ]);
    (not_connected, [ (connected, ["_close_connection"]) ]) ].

(** *** goto_state *)

(** What [goto_state] raises: its own [DeviceFailure], or whatever the
    trigger of the state machine raised. *)
Inductive GotoError :=
| DeviceFailure (st : string) (available : list string)
| Trigger_raised (e : exn).

(** A call of a trigger: its name and the two arguments. *)
Definition TriggerCall : Type := string * string * string.

Section WithStateMachine.

(** The trigger methods [GOTO_<state>] are put on the device by the state
    machine.  [change_state m source dest self] stands for the call
    [getattr(self, m)(source, dest)]: the device after it, or the exception it
    raised. *)
Variable change_state : string → string → string → Device → result Device.

Variable registry : Registry.

(** [self._state_hops] *)
Variable _state_hops : gmap string (gmap string string).

(** The state to enter next on the way to [dest_state]: the hop, if there is
    one that is not empty, or else [dest_state]. *)
Definition next_state (current dest_state : string) : string :=
  match _state_hops !! current with
  | Some hops =>
      match hops !! dest_state with
      | Some hop => if decide (hop = "") then dest_state else hop
      | None => dest_state
      end
  | None => dest_state
  end.

(** The [for goto_method in TextualDevice.goto_states_triggers] loop:
    [change_state_method] is assigned at each match and keeps its previous
    value otherwise. *)
Definition find_trigger (st : string) (change_state_method : option string)
    : option string :=
  fold_left (λ found goto_method,
               if decide (trigger_name st = goto_method) then Some goto_method
               else found)
            (goto_states_triggers registry) change_state_method.

(** The [while not is_dest_state] loop; [change_state_method] is set to
    [None] before the loop only.  The result carries the trigger calls made,
    in order; [None] when [fuel] rounds did not end the loop. *)
Fixpoint goto_loop (fuel : nat) (dest_state : string)
    (change_state_method : option string) (self : Device)
    : option (list TriggerCall * (GotoError + Device)) :=
  match fuel with
  | 0 => None
  | S fuel' =>
      let st := next_state (current_state self) dest_state in
      match find_trigger st change_state_method with
      | Some m =>
          let call := (m, current_state self, st) in
          match change_state m (current_state self) st self with
          | inl e => Some ([call], inl (Trigger_raised e))
          | inr self' =>
              if decide (current_state self' = dest_state)
              then Some ([call], inr self')
              else
                match goto_loop fuel' dest_state (Some m) self' with
                | Some (calls, r) => Some (call :: calls, r)
                | None => None
                end
          end
      | None => Some ([], inl (DeviceFailure st (states registry)))
      end
  end.

(** [goto_state] *)
Definition goto_state (fuel : nat) (dest_state : string) (self : Device)
    : option (list TriggerCall * (GotoError + Device)) :=
  if decide (current_state self = dest_state) then Some ([], inr self)
  else goto_loop fuel dest_state None self.

End WithStateMachine.

(** A state machine whose trigger [GOTO_<dest>] simply enters [dest]. *)
Definition plain_change_state (m source dest : string) (self : Device) : result Device :=
  Return (_set_state dest self).

(** *** Collecting the catalogues *)

Section WithPackages.

(** [_get_packages_for_state(state, observer)], which the concrete devices
    define. *)
Variable _get_packages_for_state : string → string → list string.

(** What the introspection of [_load_cmds_from_package] finds in a package:
    the pairs of [observer_name] and full class name, in the order met. *)
Variable package_members : string → list (string * string).

(** [_load_cmds_from_package]: each pair found goes into the dict with
    [available_cmds.update({cmd_name: cmd_class_fullname})]. *)
Definition _load_cmds_from_package (package_name : string) : gmap string string :=
  fold_left (λ available_cmds m, <[m.1 := m.2]> available_cmds)
            (package_members package_name) ∅.

(** [_collect_observer_for_state]: [observer.update(...)] per package. *)
Definition _collect_observer_for_state (observer_type st : string) : gmap string string :=
  fold_left (λ observer package_name, _load_cmds_from_package package_name ∪ observer)
            (_get_packages_for_state st observer_type) ∅.

Definition _collect_cmds_for_state (st : string) : gmap string string :=
  _collect_observer_for_state cmds st.

Definition _collect_events_for_state (st : string) : gmap string string :=
  _collect_observer_for_state events st.

(** The loop of [_collect_cmds_for_state_machine] and of
    [_collect_events_for_state_machine] over the available states:
    [d[state] = dict(); d[state].update(collected)]. *)
Definition collect_for_state_machine (collect : string → gmap string string)
    (available_states : list string) (d : gmap string (gmap string string))
    : gmap string (gmap string string) :=
  fold_left (λ d st, <[st := collect st ∪ ∅]> d) available_states d.

(** The two catalogues as [__init__] leaves them: both start as [dict()] and
    are filled for the available states. *)
Definition collected (available_states : list string) (self : Device) : Device :=
  {| state := state self; class_name := class_name self;
     _cmdnames_available_in_state :=
       collect_for_state_machine _collect_cmds_for_state available_states ∅;
     _eventnames_available_in_state :=
       collect_for_state_machine _collect_events_for_state available_states ∅ |}.

End WithPackages.

(** *** run and start of the device *)

Section WithObserverClasses'.

Variable observer_class : string → Kwargs → option exn.
Variable class_validate_start_body : Observer → result unit.

(** [TextualDevice.start(cmd_name, **kwargs)]:
    [cmd = self.get_cmd(cmd_name=cmd_name, **kwargs); return cmd.start()]. *)
Definition TextualDevice_start (self : Device) (cmd_name : string) (kwargs : Kwargs)
    : result unit :=
  match get_cmd observer_class self cmd_name true kwargs with
  | inl e => Raise e
  | inr None => Raise (AttributeError "start")
  | inr (Some cmd) => start class_validate_start_body self cmd
  end.

End WithObserverClasses'.

(** *** Notions and sample devices used to state the properties *)

(** Classes for the catalogue of [unix_like]: [Ping] cannot be made without
    its [destination], which raises [TypeError]; the others take any
    arguments. *)
Definition unix_observer_class (fullname : string) (kwargs : Kwargs) : option exn :=
  if decide (fullname = "moler.cmd.unix.ping.Ping")
  then if bool_decide ("destination" ∈ kwargs.*1) then None else Some TypeError
  else None.

(** Append unless present. *)
Definition add_new (x : string) (l : list string) : list string :=
  if bool_decide (x ∈ l) then l else l ++ [x].

(** The destination states of a table, in the order of the iteration. *)
Definition dest_names (transitions : Transitions) : list string :=
  concat (map (λ src : string * list (string * list string), map fst src.2) transitions).

(** The device of the state gate with the two states of the class and a third
    state behind a hop. *)
Definition hop_registry : Registry :=
  _add_transitions
    [ ("A", [ ("B", ["a2b"]) ]); ("B", [ ("C", ["b2c"]) ]) ]
    {| states := []; goto_states_triggers := []; SM_calls := [] |}.

Definition hops_A_C_via_B : gmap string (gmap string string) :=
  {[ "A" := {[ "C" := "B" ]} ]}.

Definition device_in (st : string) : Device :=
  {| state := st; class_name := "TextualDevice";
     _cmdnames_available_in_state := ∅; _eventnames_available_in_state := ∅ |}.

(** A trigger that refuses to leave state "B". *)
Definition stuck_in_B (m source dest : string) (self : Device) : result Device :=
  if decide (source = "B") then Raise (UserException 7)
  else Return (_set_state dest self).

(** Two packages that both have an [ls]. *)
Definition unix_packages (st observer_type : string) : list string :=
  if decide (st = "UNIX_LOCAL" ∧ observer_type = cmds)
  then ["moler.cmd.unix"; "site.cmd"] else [].

Definition unix_members (package_name : string) : list (string * string) :=
  if decide (package_name = "moler.cmd.unix")
  then [("ls", "moler.cmd.unix.ls.Ls"); ("ping", "moler.cmd.unix.ping.Ping")]
  else if decide (package_name = "site.cmd")
  then [("ls", "site.cmd.ls.Ls")]
  else [].

End TextualDevice.

(** ** moler/runner.py *)

Module Runner.

Definition Data : Type := string.
Definition Value : Type := string.

Definition Qlt_bool (a b : Q) : bool := negb (Qle_bool b a).

(** *** The observer *)

(** Modelled from the spec: the class ConnectionObserver
    (moler/connection_observer.py) is not among the sources.  These are the
    six values of its [status]. *)
Inductive Status := pending | running | done_ok | done_err | cancelled | timed_out.

(** Modelled from the spec: the fields of ConnectionObserver are those of the
    data model, [start_time], the mutable [timeout], [status], [result],
    [exception], and [command_string], which only commands have.
    [on_timeout_calls] counts the runs of the [on_timeout] hook. *)
Record ConnectionObserver := {
  start_time : Q;
  timeout : option Q;
  status : Status;
  _result : option Value;
  _exception : option exn;
  command_string : option string;
  on_timeout_calls : nat }.

(** Modelled from the spec: ConnectionObserver.done() is
    [status ∈ {done_ok, done_err, cancelled, timed_out}]. *)
Definition done (o : ConnectionObserver) : bool :=
  match status o with
  | pending | running => false
  | done_ok | done_err | cancelled | timed_out => true
  end.

(** [hasattr(connection_observer, "command_string")] *)
Definition has_command_string (o : ConnectionObserver) : bool :=
  match command_string o with Some _ => true | None => false end.

(** Modelled from the spec: ConnectionObserver.is_command(); the commands are
    the observers that have a [command_string]. *)
Definition is_command (o : ConnectionObserver) : bool := has_command_string o.

Definition is_timeout_exception (e : exn) : bool :=
  match e with
  | CommandTimeout _ _ _ | ConnectionObserverTimeout _ _ _ => true
  | _ => false
  end.

(** Modelled from the spec: ConnectionObserver.set_result moves a not yet
    terminal observer to [done_ok]; a repeated terminal attempt is a no-op. *)
Definition set_result (r : Value) (o : ConnectionObserver) : ConnectionObserver :=
  if done o then o
  else {| start_time := start_time o; timeout := timeout o; status := done_ok;
          _result := Some r; _exception := _exception o;
          command_string := command_string o;
          on_timeout_calls := on_timeout_calls o |}.

(** Modelled from the spec: ConnectionObserver.set_exception moves a not yet
    terminal observer to a terminal status, [timed_out] for a timeout
    exception and [done_err] for any other; a repeated terminal attempt is a
    no-op. *)
Definition set_exception (e : exn) (o : ConnectionObserver) : ConnectionObserver :=
  if done o then o
  else {| start_time := start_time o; timeout := timeout o;
          status := if is_timeout_exception e then timed_out else done_err;
          _result := _result o; _exception := Some e;
          command_string := command_string o;
          on_timeout_calls := on_timeout_calls o |}.

(** Modelled from the spec: ConnectionObserver.cancel moves a not yet terminal
    observer to [cancelled]; it is idempotent. *)
Definition cancel_observer (o : ConnectionObserver) : ConnectionObserver :=
  if done o then o
  else {| start_time := start_time o; timeout := timeout o; status := cancelled;
          _result := _result o; _exception := _exception o;
          command_string := command_string o;
          on_timeout_calls := on_timeout_calls o |}.

(** Modelled from the spec: ConnectionObserver.on_timeout is an extension
    hook; all that is kept of it is that it ran. *)
Definition on_timeout (o : ConnectionObserver) : ConnectionObserver :=
  {| start_time := start_time o; timeout := timeout o; status := status o;
     _result := _result o; _exception := _exception o;
     command_string := command_string o;
     on_timeout_calls := S (on_timeout_calls o) |}.

(** The assignment [observer.timeout = t]. *)
Definition set_timeout (t : option Q) (o : ConnectionObserver) : ConnectionObserver :=
  {| start_time := start_time o; timeout := t; status := status o;
     _result := _result o; _exception := _exception o;
     command_string := command_string o;
     on_timeout_calls := on_timeout_calls o |}.

(** *** The submission handle *)

(** States of a [concurrent.futures.Future]. *)
Inductive FutureState := PENDING | RUNNING | CANCELLED | CANCELLED_AND_NOTIFIED | FINISHED.

(** class CancellableFuture.  [_state] is the state of the wrapped
    [_future]; [_stop_running] and [_is_done] are the two Events
    ([stop_feeding] and [feed_done] of [submit]).  The observer lock is the
    one lock of the trace below. *)
Record CancellableFuture := {
  _state : FutureState;
  _stop_running : bool;
  _stop_timeout : Q;
  _is_done : bool }.

Definition default_stop_timeout : Q := 1 # 2.

Definition CancellableFuture_init (future : FutureState) (stop_running is_done : bool)
    (stop_timeout : Q) : CancellableFuture :=
  {| _state := future; _stop_running := stop_running;
     _stop_timeout := stop_timeout; _is_done := is_done |}.

(** [Future.running()] and [Future.done()], reached through [__getattr__]. *)
Definition future_running (f : CancellableFuture) : bool :=
  match _state f with RUNNING => true | _ => false end.

Definition future_done (f : CancellableFuture) : bool :=
  match _state f with
  | CANCELLED | CANCELLED_AND_NOTIFIED | FINISHED => true
  | PENDING | RUNNING => false
  end.

(** *** Effects and the store *)

(** What the runner does to the objects around it, in program order.  Logger
    calls change nothing that is looked at here and are left out. *)
Inductive Effect :=
| Acquire                          (* observer_lock.__enter__ *)
| Release                          (* observer_lock.__exit__ *)
| Call_set_exception (e : exn)
| Call_on_timeout
| Call_data_received (d : Data)
| Call_cancel                      (* connection_observer.cancel() *)
| Set_stop_running                 (* self._stop_running.set() *)
| Wait_is_done (secs : Q)          (* self._is_done.wait(timeout=secs) *)
| Wait_future (secs : Q)           (* wait([future], timeout=secs) *)
| Sleep (secs : Q)
| Subscribe | Unsubscribe          (* moler_conn.subscribe / unsubscribe *)
| Sendline (line : string)
| Executor_submit.

(** One observer, the objects of its submission, the runner's shutdown flag
    and the trace of effects so far. *)
Record World := {
  obs : ConnectionObserver;
  fut : CancellableFuture;
  _in_shutdown : bool;
  trace : list Effect }.

(** Computations over the store that may raise. *)
Definition M (A : Type) : Type := World → World * result A.

#[global] Instance M_ret : MRet M := λ A a w, (w, inr a).
#[global] Instance M_bind : MBind M := λ A B f m w,
  match m w with
  | (w', inl e) => (w', inl e)
  | (w', inr a) => f a w'
  end.

Definition raise {A} (e : exn) : M A := λ w, (w, inl e).

Definition lift {A} (r : result A) : M A := λ w, (w, r).

Definition pass : M unit := mret tt.

(** [try: m  except Exception as exc: h exc] *)
Definition try_except {A} (m : M A) (h : exn → M A) : M A := λ w,
  match m w with
  | (w', inl e) => h e w'
  | (w', inr a) => (w', inr a)
  end.

Definition emit (ef : Effect) : M unit := λ w,
  ({| obs := obs w; fut := fut w; _in_shutdown := _in_shutdown w;
      trace := trace w ++ [ef] |}, inr tt).

Definition get_obs : M ConnectionObserver := λ w, (w, inr (obs w)).
Definition get_fut : M CancellableFuture := λ w, (w, inr (fut w)).
Definition get_in_shutdown : M bool := λ w, (w, inr (_in_shutdown w)).

Definition modify_obs (f : ConnectionObserver → ConnectionObserver) : M unit := λ w,
  ({| obs := f (obs w); fut := fut w; _in_shutdown := _in_shutdown w;
      trace := trace w |}, inr tt).

Definition modify_fut (f : CancellableFuture → CancellableFuture) : M unit := λ w,
  ({| obs := obs w; fut := f (fut w); _in_shutdown := _in_shutdown w;
      trace := trace w |}, inr tt).

Definition set_in_shutdown (b : bool) : M unit := λ w,
  ({| obs := obs w; fut := fut w; _in_shutdown := b; trace := trace w |}, inr tt).

(** [with observer_lock: m]: the lock is released on the way out, also when
    [m] raises. *)
Definition with_lock {A} (m : M A) : M A := λ w,
  match emit Acquire w with
  | (w1, _) =>
      match m w1 with
      | (w2, r) => ((emit Release w2).1, r)
      end
  end.

Definition call_set_exception (e : exn) : M unit :=
  emit (Call_set_exception e);; modify_obs (set_exception e).

Definition call_on_timeout : M unit :=
  emit Call_on_timeout;; modify_obs on_timeout.

Definition call_cancel : M unit :=
  emit Call_cancel;; modify_obs cancel_observer.

(** *** What other threads do *)

(** Writes of other threads to the shared objects: the parser or the user
    completing the observer or changing its timeout, another thread
    cancelling the handle, [shutdown()], the executor moving the future, the
    feeding thread setting [feed_done]. *)
Inductive EnvAct :=
| Env_set_timeout (t : option Q)
| Env_set_result (r : Value)
| Env_set_exception (e : exn)
| Env_cancel
| Env_stop_feeding
| Env_shutdown
| Env_future (st : FutureState)
| Env_feed_done.

Definition set_state (st : FutureState) (f : CancellableFuture) : CancellableFuture :=
  {| _state := st; _stop_running := _stop_running f;
     _stop_timeout := _stop_timeout f; _is_done := _is_done f |}.

Definition set_stop_running (f : CancellableFuture) : CancellableFuture :=
  {| _state := _state f; _stop_running := true;
     _stop_timeout := _stop_timeout f; _is_done := _is_done f |}.

Definition set_is_done (f : CancellableFuture) : CancellableFuture :=
  {| _state := _state f; _stop_running := _stop_running f;
     _stop_timeout := _stop_timeout f; _is_done := true |}.

Definition env_act (a : EnvAct) : M unit :=
  match a with
  | Env_set_timeout t => modify_obs (set_timeout t)
  | Env_set_result r => modify_obs (set_result r)
  | Env_set_exception e => modify_obs (set_exception e)
  | Env_cancel => modify_obs cancel_observer
  | Env_stop_feeding => modify_fut set_stop_running
  | Env_shutdown => set_in_shutdown true
  | Env_future st => modify_fut (set_state st)
  | Env_feed_done => modify_fut set_is_done
  end.

Fixpoint interfere (acts : list EnvAct) : M unit :=
  match acts with
  | [] => pass
  | a :: acts' => env_act a;; interfere acts'
  end.

(** *** time_out_observer *)

(** [time_out_observer(connection_observer, timeout, passed_time, runner_logger, kind)].
    A command is told from an event by [hasattr(connection_observer,
    "command_string")]. *)
Definition time_out_observer (timeout_arg : option Q) (passed_time : Q)
    (kind : TimeoutKind) : M unit :=
  connection_observer ← get_obs;
  if negb (done connection_observer) then
    let exception :=
      if has_command_string connection_observer
      then CommandTimeout timeout_arg kind passed_time
      else ConnectionObserverTimeout timeout_arg kind passed_time in
    call_set_exception exception;;
    call_on_timeout
  else pass.

(** *** CancellableFuture *)

(** [concurrent.futures.Future.cancel()]: a running or finished future cannot
    be cancelled; a pending one becomes cancelled. *)
Definition Future_cancel : M bool :=
  f ← get_fut;
  match _state f with
  | RUNNING | FINISHED => mret false
  | CANCELLED | CANCELLED_AND_NOTIFIED => mret true
  | PENDING => modify_fut (set_state CANCELLED);; mret true
  end.

(** [self._is_done.wait(timeout=secs)].  [stops_after] says when the thread
    that runs the feed loop sets the Event, counted from the call: [None] for
    never.  The answer is whether the Event was set within [secs]. *)
Definition wait_is_done (secs : Q) (stops_after : option Q) : M bool :=
  emit (Wait_is_done secs);;
  f ← get_fut;
  if _is_done f then mret true
  else match stops_after with
       | Some d => if Qle_bool d secs
                   then modify_fut set_is_done;; mret true
                   else mret false
       | None => mret false
       end.

(** [CancellableFuture._stop] *)
Definition _stop (no_wait : bool) (stops_after : option Q) : M unit :=
  emit Set_stop_running;;
  modify_fut set_stop_running;;
  if no_wait then pass
  else
    f ← get_fut;
    stopped ← wait_is_done (_stop_timeout f) stops_after;
    if negb stopped then raise (MolerException (_stop_timeout f))
    else pass.

(** [CancellableFuture.cancel] *)
Definition cancel (no_wait : bool) (stops_after : option Q) : M bool :=
  f ← get_fut;
  if future_running f then
    _stop no_wait stops_after;;
    if no_wait then mret true
    else modify_fut (set_state PENDING);; Future_cancel
  else Future_cancel.

(** *** Utilities *)

(** [his_remaining_time(prefix, he, timeout)], the message left out; [now] is
    the reading of [time.time()].  Subtracting from [None] raises
    [TypeError].  The two subtractions are exact here, as all arithmetic of
    this module; [RunnerFloat.his_remaining_time] below has them rounded. *)
Definition his_remaining_time (now : Q) (he : ConnectionObserver)
    (timeout_arg : option Q) : result Q :=
  match timeout_arg with
  | None => Raise TypeError
  | Some t =>
      let already_passed := (now - start_time he)%Q in
      let remain_time := (t - already_passed)%Q in
      Return (if Qlt_bool remain_time 0 then 0%Q else remain_time)
  end.

(** Truth value of an optional float: [None] and [0.0] are false. *)
Definition truthy (t : option Q) : bool :=
  match t with
  | Some q => negb (Qeq_bool q 0)
  | None => false
  end.

(** *** _start_feeding *)

Section WithParser.

(** The parser hook [connection_observer.data_received(data)] belongs to the
    concrete command or event.  It is given the observer and the chunk and
    leaves the observer as it is when the call ends, together with the
    exception the call raised, if any. *)
Variable data_received : ConnectionObserver → Data → ConnectionObserver * option exn.

Definition call_data_received (data : Data) : M unit :=
  emit (Call_data_received data);;
  o ← get_obs;
  let '(o', raised) := data_received o data in
  modify_obs (λ _, o');;
  match raised with
  | Some exc => raise exc
  | None => pass
  end.

(** The closure [secure_data_received(data)] of [_start_feeding]:
<<
    try:
        if connection_observer.done() or self._in_shutdown:
            return
        with observer_lock:
            connection_observer.data_received(data)
    except Exception as exc:
        with observer_lock:
            connection_observer.set_exception(exc)
    finally:
        ... (logging only)
>>  *)
Definition secure_data_received (data : Data) : M unit :=
  try_except
    (connection_observer ← get_obs;
     in_shutdown ← get_in_shutdown;
     if done connection_observer || in_shutdown then pass
     else with_lock (call_data_received data))
    (λ exc, with_lock (call_set_exception exc)).

End WithParser.

(** [_start_feeding]: subscribe the closure and, for a command, send its
    command string. *)
Definition _start_feeding : M unit :=
  connection_observer ← get_obs;
  emit Subscribe;;
  if is_command connection_observer then
    match command_string connection_observer with
    | Some line => emit (Sendline line)
    | None => raise (AttributeError "command_string")
    end
  else pass.

(** *** _feed_loop *)

(** One round of the loop as the rest of the program shapes it: [tick_before]
    is what other threads wrote since the previous round, [tick_now] the
    reading of [time.time()], and [tick_race] what other threads write after
    the round has looked at [done()] and before it holds the lock. *)
Record Tick := {
  tick_before : list EnvAct;
  tick_now : Q;
  tick_race : list EnvAct }.

Definition feed_tick : Q := 5 # 1000.

(** The [while True] loop of [_feed_loop], run against a script of rounds.
    [Some tt]: the loop was left by [break]; [None]: the script ended with the
    loop still going round. *)
Fixpoint _feed_loop_from (start_time_var : Q) (ticks : list Tick) : M (option unit) :=
  match ticks with
  | [] => mret None
  | tk :: ticks' =>
      interfere (tick_before tk);;
      stop_feeding ← get_fut;
      if _stop_running stop_feeding then mret (Some tt)
      else
        connection_observer ← get_obs;
        if done connection_observer then mret (Some tt)
        else
          let run_duration := (tick_now tk - start_time_var)%Q in
          let expired :=
            match timeout connection_observer with
            | Some t => Qle_bool t run_duration
            | None => false
            end in
          if expired then
            interfere (tick_race tk);;
            with_lock (o ← get_obs;
                       time_out_observer (timeout o) run_duration background_run);;
            mret (Some tt)
          else
            in_shutdown ← get_in_shutdown;
            (if in_shutdown : bool then call_cancel else pass);;
            emit (Sleep feed_tick);;
            _feed_loop_from start_time_var ticks'
  end.

Definition _feed_loop (ticks : list Tick) : M (option unit) :=
  connection_observer ← get_obs;
  _feed_loop_from (start_time connection_observer) ticks.

(** [feed]; [subscribed] says whether a subscribed receiver was passed in,
    [now0] and [now1] are the two readings of the clock for the log lines. *)
Definition feed (subscribed : bool) (now0 : Q) (ticks : list Tick) (now1 : Q)
    : M (option unit) :=
  connection_observer ← get_obs;
  _ ← lift (his_remaining_time now0 connection_observer (timeout connection_observer));
  (if subscribed then pass else _start_feeding);;
  emit (Sleep feed_tick);;
  left_loop ← _feed_loop ticks;
  match left_loop with
  | None => mret None
  | Some _ =>
      emit Unsubscribe;;
      modify_fut set_is_done;;
      o ← get_obs;
      _ ← lift (his_remaining_time now1 o (timeout o));
      mret (Some tt)
  end.

(** *** submit *)

(** [submit].  [early] is the state of the future when [executor.submit]
    returns, and [early_exception] what the future holds if it is done by
    then. *)
Definition submit (now : Q) (early : FutureState) (early_exception : option exn)
    : M CancellableFuture :=
  connection_observer ← get_obs;
  if Qlt_bool 0 (start_time connection_observer) then
    _ ← lift (his_remaining_time now connection_observer (timeout connection_observer));
    _start_feeding;;
    emit Executor_submit;;
    modify_fut (λ _, CancellableFuture_init early false false default_stop_timeout);;
    connection_observer_future ← get_fut;
    (if future_done connection_observer_future then
       match early_exception with
       | Some err => raise err
       | None => pass
       end
     else pass);;
    mret connection_observer_future
  else raise AssertionError.

(** *** wait_for *)

(** One return of [wait([future], timeout=..)]: what other threads wrote while
    the caller was blocked, and the next reading of the clock. *)
Record Poll := {
  poll_env : list EnvAct;
  poll_now : Q }.

(** Whether [wait] finds the handle done at the call: the test of
    [concurrent.futures.wait] is
    [f._state in [CANCELLED_AND_NOTIFIED, FINISHED]], and the handle passes
    the read of [_state] on to the future it wraps. *)
Definition in_wait_done_set (f : CancellableFuture) : bool :=
  match _state f with
  | FINISHED | CANCELLED_AND_NOTIFIED => true
  | PENDING | RUNNING | CANCELLED => false
  end.

(** The two lines
<<
    done, not_done = wait([connection_observer_future], timeout=secs)
    if connection_observer_future in done:
>>
    The handle is a CancellableFuture: it defines neither [__eq__] nor
    [__hash__], so it is in [done] only as itself.  [wait] puts the handle
    into [done] when it finds it done at the call, and then returns at once.
    Otherwise it blocks until the wrapped future completes or [secs] have
    passed, and on completion it is the wrapped future that notifies the
    waiter and is added to [done], not the handle.  So the test answers
    whether the future was done when the wait began. *)
Definition wait_future (secs : Q) (p : Poll) : M bool :=
  emit (Wait_future secs);;
  connection_observer_future ← get_fut;
  interfere (poll_env p);;
  mret (in_wait_done_set connection_observer_future).

(** How the waiting part of [wait_for] ends: the handle was found in [done],
    the code went on to the part for a timed out observer (with the value of
    the local [timeout] at that point), or the script of polls ended first. *)
Inductive WaitExit :=
| Future_done
| Expired (timeout_var : option Q)
| Script_ended.

Definition wait_tick : Q := 1 # 10.

(** The polling loop of the branch without an explicit timeout:
<<
    while remain_time > 0.0:
        done, not_done = wait([connection_observer_future], timeout=wait_tick)
        if connection_observer_future in done:
            return None
        timeout = connection_observer.timeout
        already_passed = time.time() - start_time
        remain_time = timeout - already_passed
>>  *)
Fixpoint poll_loop (start_time_var : Q) (timeout_var : option Q) (remain_time : Q)
    (polls : list Poll) : M WaitExit :=
  match polls with
  | [] => mret (if Qlt_bool 0 remain_time then Script_ended else Expired timeout_var)
  | p :: polls' =>
      if Qlt_bool 0 remain_time then
        in_done ← wait_future wait_tick p;
        if in_done : bool then mret Future_done
        else
          connection_observer ← get_obs;
          match timeout connection_observer with
          | None => raise TypeError
          | Some t =>
              let already_passed := (poll_now p - start_time_var)%Q in
              poll_loop start_time_var (Some t) (t - already_passed)%Q polls'
          end
      else mret (Expired timeout_var)
  end.

(** [wait_for(connection_observer, connection_observer_future, timeout)].
    [now0] is the clock inside [his_remaining_time], [polls] the returns of
    [wait], [now_end] the clock when [passed] is computed.  [None]: the script
    of polls ended while [wait_for] was still waiting. *)
Definition wait_for (max_timeout : option Q) (now0 : Q) (polls : list Poll) (now_end : Q)
    : M (option unit) :=
  connection_observer ← get_obs;
  if done connection_observer then
    connection_observer_future ← get_fut;
    (if negb (future_done connection_observer_future)
     then cancel true None;; pass
     else pass);;
    mret (Some tt)
  else
    let start_time_var := start_time connection_observer in
    let observer_timeout := timeout connection_observer in
    remain_time ← lift (his_remaining_time now0 connection_observer
                          (if truthy max_timeout then max_timeout else observer_timeout));
    waited ← (if truthy max_timeout then
                if Qlt_bool 0 remain_time then
                  match polls with
                  | [] => mret Script_ended
                  | p :: _ =>
                      in_done ← wait_future remain_time p;
                      mret (if in_done : bool then Future_done else Expired max_timeout)
                  end
                else mret (Expired max_timeout)
              else poll_loop start_time_var max_timeout remain_time polls);
    match waited with
    | Script_ended => mret None
    | Future_done => mret (Some tt)
    | Expired timeout_var =>
        let passed := (now_end - start_time_var)%Q in
        cancel true None;;
        o ← get_obs;
        let fired_timeout := if truthy timeout_var then timeout_var else timeout o in
        with_lock (time_out_observer fired_timeout passed await_done);;
        mret (Some tt)
    end.

(** The bounds of the blocking waits on the future, in order. *)
Definition waits_on_future (tr : list Effect) : list Q :=
  omap (λ ef, match ef with Wait_future secs => Some secs | _ => None end) tr.


(** *** Notions used to state the properties *)

(** The exception [time_out_observer] builds for observer [o]. *)
Definition timeout_exception (o : ConnectionObserver) (timeout_arg : option Q)
    (kind : TimeoutKind) (passed_time : Q) : exn :=
  match command_string o with
  | Some _ => CommandTimeout timeout_arg kind passed_time
  | None => ConnectionObserverTimeout timeout_arg kind passed_time
  end.

(** A race around one observer: the runner calls [time_out_observer], or
    another thread writes. *)
Inductive RaceStep :=
| Runner_times_out (timeout_arg : option Q) (passed_time : Q) (kind : TimeoutKind)
| Other_thread (a : EnvAct).

Definition race_step (st : RaceStep) (w : World) : World :=
  match st with
  | Runner_times_out t p k => (time_out_observer t p k w).1
  | Other_thread a => (env_act a w).1
  end.

Definition race (steps : list RaceStep) (w : World) : World :=
  fold_left (λ w st, race_step st w) steps w.

(** A command and an event that have been started and are not done. *)
Definition running_command : ConnectionObserver :=
  {| start_time := 100; timeout := Some 1%Q; status := running;
     _result := None; _exception := None;
     command_string := Some "ping localhost";
     on_timeout_calls := 0 |}.

(** A started command with half a minute of its own timeout. *)
Definition slow_command : ConnectionObserver :=
  {| start_time := 100; timeout := Some 30%Q; status := running;
     _result := None; _exception := None;
     command_string := Some "ping localhost";
     on_timeout_calls := 0 |}.

Definition running_event : ConnectionObserver :=
  {| start_time := 100; timeout := Some 1%Q; status := running;
     _result := None; _exception := None;
     command_string := None;
     on_timeout_calls := 0 |}.

Definition world_of (o : ConnectionObserver) (st : FutureState) : World :=
  {| obs := o;
     fut := CancellableFuture_init st false false default_stop_timeout;
     _in_shutdown := false;
     trace := [] |}.

(** Whether the feeding thread sets [feed_done] within the handle's
    [stop_timeout]: it is set already, or it gets set after [d <= stop_timeout]. *)
Definition feed_stops_within (f : CancellableFuture) (stops_after : option Q) : bool :=
  _is_done f ||
  match stops_after with
  | Some d => Qle_bool d (_stop_timeout f)
  | None => false
  end.

(** A parser that raises on every chunk and leaves the observer as it was. *)
Definition failing_parser (o : ConnectionObserver) (_ : Data)
    : ConnectionObserver * option exn :=
  (o, Some (UserException 1)).

(** The timeout write of the feed loop, lock included. *)
Definition locked_time_out (run_duration : Q) : M unit :=
  with_lock (o ← get_obs; time_out_observer (timeout o) run_duration background_run).

(** The time [wait_for] blocks with an explicit timeout [t], in the words of
    the description: the smaller of what is left of the explicit timeout and
    what is left until the observer's own deadline [start_time + timeout]. *)
Definition described_block_time (o : ConnectionObserver) (t now : Q) : option Q :=
  match timeout o with
  | Some observer_timeout =>
      Some (Qmin (t - (now - start_time o)) (start_time o + observer_timeout - now))
  | None => None
  end.

(** The handle after [cancel(no_wait=True)]: a running future is told to
    stop, a pending one is cancelled, any other is left as it is. *)
Definition cancelled_no_wait (f : CancellableFuture) : CancellableFuture :=
  if future_running f then set_stop_running f
  else match _state f with
       | PENDING => set_state CANCELLED f
       | _ => f
       end.

(** [w] with another trace. *)
Definition with_trace (tr : list Effect) (w : World) : World :=
  {| obs := obs w; fut := fut w; _in_shutdown := _in_shutdown w; trace := tr |}.

(** The store after [cancel(no_wait=True)] on the handle. *)
Definition after_cancel_no_wait (w : World) : World :=
  {| obs := obs w; fut := cancelled_no_wait (fut w);
     _in_shutdown := _in_shutdown w;
     trace := trace w ++ (if future_running (fut w) then [Set_stop_running] else []) |}.

(** The chunks of a connection handed to the guarded receiver one after the
    other. *)
Definition deliver (data_received : ConnectionObserver → Data → ConnectionObserver * option exn)
    (chunks : list Data) (w : World) : World :=
  fold_left (λ w data, (secure_data_received data_received data w).1) chunks w.

(** The exceptions handed to [set_exception], in order. *)
Definition exceptions_set (tr : list Effect) : list exn :=
  omap (λ ef, match ef with Call_set_exception e => Some e | _ => None end) tr.

(** The chunks handed to [data_received], in order. *)
Definition chunks_received (tr : list Effect) : list Data :=
  omap (λ ef, match ef with Call_data_received d => Some d | _ => None end) tr.

(** A round of the feed loop in which no other thread writes. *)
Definition quiet_tick (now : Q) : Tick :=
  {| tick_before := []; tick_now := now; tick_race := [] |}.

End Runner.

(** ** The float arithmetic of his_remaining_time *)

Module RunnerFloat.

Section WithRounding.

(** Python's floats are IEEE doubles, and the difference of two doubles is
    the double nearest to the exact difference.  [fl] is that rounding; the
    readings of the clock and the timeouts are finite doubles, and no
    difference leaves their range. *)
Variable fl : Q → Q.

(** [his_remaining_time(prefix, he, timeout)] with its two subtractions as
    the code computes them; the message is left out.
<<
    start_time = he.start_time
    already_passed = time.time() - start_time
    remain_time = timeout - already_passed
    if remain_time < 0.0:
        remain_time = 0.0
>>  *)
Definition his_remaining_time (now : Q) (he : Runner.ConnectionObserver)
    (timeout_arg : option Q) : result Q :=
  match timeout_arg with
  | None => Raise TypeError
  | Some t =>
      let start_time := Runner.start_time he in
      let already_passed := fl (now - start_time) in
      let remain_time := fl (t - already_passed) in
      Return (if Runner.Qlt_bool remain_time 0 then 0%Q else remain_time)
  end.

End WithRounding.

(** A rounding with a coarse grid, to try the properties on: to the nearest
    multiple of 4, ties upward. *)
Definition to_multiple_of_4 (q : Q) : Q := (4 * inject_Z (Qfloor (q * (1 # 4) + (1 # 2))))%Q.

End RunnerFloat.

(** ** moler/io/raw/ssh.py *)

Module Ssh.

(** The Paramiko shell channel, as far as the class touches it. *)
Record Channel := { channel_timeout : option Q }.

(** An instance of class Ssh.  [client_connected] is the state of
    [self.ssh_client]; [logger] says whether a logger was given. *)
Record Ssh := {
  host : string;
  port : Z;
  username : option string;
  password : option string;
  receive_buffer_size : Z;
  logger : bool;
  client_connected : bool;
  shell_channel : option Channel;
  timeout : option Q }.

Definition default_port : Z := 22.
Definition default_receive_buffer_size : Z := 64 * 4096.

(** [__init__] *)
Definition __init__ (host_arg : string) (port_arg : Z) (username_arg password_arg : option string)
    (receive_buffer_size_arg : Z) (logger_arg : bool) : Ssh :=
  {| host := host_arg; port := port_arg; username := username_arg;
     password := password_arg; receive_buffer_size := receive_buffer_size_arg;
     logger := logger_arg; client_connected := false;
     shell_channel := None; timeout := None |}.

Definition same_timeout (a b : option Q) : bool :=
  match a, b with
  | Some x, Some y => Qeq_bool x y
  | None, None => true
  | _, _ => false
  end.

(** [settimeout] *)
Definition settimeout (timeout_arg : option Q) (self : Ssh) : Ssh :=
  if match timeout self with None => true | Some _ => false end
     || negb (same_timeout timeout_arg (timeout self))
  then
    match shell_channel self with
    | Some _ =>
        {| host := host self; port := port self; username := username self;
           password := password self; receive_buffer_size := receive_buffer_size self;
           logger := logger self; client_connected := client_connected self;
           shell_channel := Some {| channel_timeout := timeout_arg |};
           timeout := timeout_arg |}
    | None => self
    end
  else self.

(** [open]; [connect_raises] is the exception [ssh_client.connect] raises, if
    it does. *)
Definition open (connect_raises : option exn) (self : Ssh) : result Ssh :=
  match connect_raises with
  | Some e => Raise e
  | None =>
      Return {| host := host self; port := port self; username := username self;
                password := password self; receive_buffer_size := receive_buffer_size self;
                logger := logger self; client_connected := true;
                shell_channel := Some {| channel_timeout := None |};
                timeout := timeout self |}
  end.

(** [close]: allowed on a closed or never opened connection. *)
Definition close (self : Ssh) : Ssh :=
  {| host := host self; port := port self; username := username self;
     password := password self; receive_buffer_size := receive_buffer_size self;
     logger := logger self; client_connected := false;
     shell_channel := None; timeout := timeout self |}.

(** [__enter__] and [__exit__] *)
Definition __enter__ (connect_raises : option exn) (self : Ssh) : result Ssh :=
  match shell_channel self with
  | None => open connect_raises self
  | Some _ => Return self
  end.

Definition __exit__ (self : Ssh) : Ssh * bool := (close self, false).

(** The names the class body defines, the attributes [__init__] sets, and the
    names every instance inherits from [object]. *)
Definition class_dict : list string :=
  ["__init__"; "settimeout"; "open"; "close"; "__enter__"; "__exit__";
   "__str__"; "_debug"].

Definition instance_dict : list string :=
  ["host"; "port"; "username"; "password"; "receive_buffer_size"; "logger";
   "ssh_client"; "shell_channel"; "timeout"].

Definition object_dict : list string :=
  ["__class__"; "__delattr__"; "__dict__"; "__dir__"; "__doc__"; "__eq__";
   "__format__"; "__ge__"; "__getattribute__"; "__gt__"; "__hash__";
   "__init_subclass__"; "__le__"; "__lt__"; "__module__"; "__ne__"; "__new__";
   "__reduce__"; "__reduce_ex__"; "__repr__"; "__setattr__"; "__sizeof__";
   "__subclasshook__"; "__weakref__"].

Inductive Attribute :=
| Instance_attribute (name : string)
| Bound_method (name : string)
| Object_attribute (name : string).

(** Attribute lookup on an instance: the instance, its class, then [object];
    the class defines no [__getattr__], so a name found nowhere raises
    [AttributeError]. *)
Definition getattr (self : Ssh) (name : string) : result Attribute :=
  if bool_decide (name ∈ instance_dict) then Return (Instance_attribute name)
  else if bool_decide (name ∈ class_dict) then Return (Bound_method name)
  else if bool_decide (name ∈ object_dict) then Return (Object_attribute name)
  else Raise (AttributeError name).

(** Arguments of a method call. *)
Inductive Arg :=
| Arg_bytes (data : string)
| Arg_timeout (t : option Q)
| Arg_None.

(** The call [self.name(args)]: look the name up, then run the method the
    class defines for it.  The result is the instance after the call.
    ([__init__] is not called again on an existing instance.) *)
Definition call_method (connect_raises : option exn) (self : Ssh) (name : string)
    (args : list Arg) : result Ssh :=
  match getattr self name with
  | inl e => Raise e
  | inr (Bound_method m) =>
      if decide (m = "open") then
        match args with [] => open connect_raises self | _ => Raise TypeError end
      else if decide (m = "close") then
        match args with [] => Return (close self) | _ => Raise TypeError end
      else if decide (m = "settimeout") then
        match args with
        | [Arg_timeout t] => Return (settimeout t self)
        | _ => Raise TypeError
        end
      else if decide (m = "__enter__") then
        match args with [] => __enter__ connect_raises self | _ => Raise TypeError end
      else if decide (m = "__exit__") then
        match args with [_; _; _] => Return (__exit__ self).1 | _ => Raise TypeError end
      else if decide (m = "__str__") then
        match args with [] => Return self | _ => Raise TypeError end
      else if decide (m = "_debug") then
        match args with [Arg_bytes _] => Return self | _ => Raise TypeError end
      else Raise TypeError
  | inr _ => Raise TypeError
  end.

(** A caller of the transport contract writing bytes: [connection.send(data)]. *)
Definition call_send (self : Ssh) (data : string) : result Ssh :=
  call_method None self "send" [Arg_bytes data].

(** The last lines of the module:
<<
    conn1 = Ssh(host='192.168.44.50', port=22, username='vagrant', password='vagrant')
    conn1.open()
    conn1.close()
>>  *)
Definition conn1 (connect_raises : option exn) : result Ssh :=
  match open connect_raises
          (__init__ "192.168.44.50" 22 (Some "vagrant") (Some "vagrant")
             default_receive_buffer_size false) with
  | inl e => Raise e
  | inr conn => Return (close conn)
  end.

End Ssh.

(** * Properties *)

(** ** Scheduler *)

Module SchedulerFacts.
Import Scheduler.

Lemma alter_last {A} (f : A → A) (l : list A) (x : A) :
  alter f (length l) (l ++ [x]) = l ++ [f x].
Proof. rewrite alter_app_r_alt by lia. by rewrite Nat.sub_diag. Qed.

(** What [get_job] leaves behind: one more job, registered with the plain
    callback and paused, one more DecoratedCallable that points at the new
    Job, and an unchanged invocation log. *)
Lemma get_job_unfold cb interval params coe s :
  get_job cb interval params coe s =
  ({| jobs := jobs s ++ [ {| func := Function cb; seconds := interval;
                              kwargs := params; paused := true |} ];
      decorated := decorated s ++
        [ {| callback := cb; cancel_on_exception := coe;
             job := Some {| _job := length (jobs s) |} |} ];
      invoked := invoked s |},
   {| _job := length (jobs s) |}).
Proof.
  unfold get_job, DecoratedCallable_init, add_job, pause, set_job. cbn.
  rewrite list_lookup_middle by done. cbn.
  by rewrite !alter_last.
Qed.

Lemma is_paused_get_job cb interval params coe s :
  is_paused (_job (get_job cb interval params coe s).2)
            (get_job cb interval params coe s).1 = true.
Proof.
  rewrite get_job_unfold. unfold is_paused. cbn.
  by rewrite list_lookup_middle.
Qed.

Lemma quiet_pause j j' s : quiet j s → quiet j (pause j' s).
Proof.
  unfold quiet, pause. cbn. rewrite list_lookup_alter.
  destruct (decide (j' = j)) as [->|]; [|done].
  by destruct (jobs s !! j).
Qed.

Lemma quiet_pause_eq j s : quiet j (pause j s).
Proof.
  unfold quiet, pause. cbn. rewrite list_lookup_alter_eq.
  by destruct (jobs s !! j).
Qed.

Lemma quiet_resume_ne j j' s : j' ≠ j → quiet j s → quiet j (resume j' s).
Proof.
  intros Hne. unfold quiet, resume. cbn. by rewrite list_lookup_alter_ne.
Qed.

Lemma quiet_get_job j cb interval params coe s :
  quiet j s → quiet j (get_job cb interval params coe s).1.
Proof.
  rewrite get_job_unfold. unfold quiet. cbn. intros Hq.
  destruct (decide (j < length (jobs s))) as [Hlt|Hge].
  - by rewrite lookup_app_l.
  - rewrite lookup_app_r by lia.
    destruct (j - length (jobs s)) as [|k]; [done|].
    by destruct k.
Qed.

Lemma calls_through_run_callback_ne j j' cb s :
  j' ≠ j → calls_through j (run_callback j' cb s).1 = calls_through j s.
Proof.
  intros Hne. unfold calls_through, run_callback. cbn.
  rewrite filter_app, filter_cons_False, filter_nil by (cbn; congruence).
  by rewrite app_nil_r.
Qed.

(** A timer expiry leaves a quiet job quiet and adds nothing to its
    invocations. *)
Lemma fire_quiet j j' s :
  quiet j s →
  quiet j (fire j' s) ∧ calls_through j (fire j' s) = calls_through j s.
Proof.
  intros Hq. unfold fire.
  destruct (jobs s !! j') as [jb|] eqn:Hj'; [|done].
  destruct (paused jb) eqn:Hp; [done|].
  assert (j' ≠ j) as Hne.
  { intros ->. unfold quiet in Hq. rewrite Hj' in Hq. congruence. }
  destruct (func jb) as [cb|d].
  - split; [done|]. by apply calls_through_run_callback_ne.
  - unfold DecoratedCallable_call.
    destruct (decorated s !! d) as [dc|]; [|done].
    pose proof (calls_through_run_callback_ne j j' (callback dc) s Hne) as Hc.
    destruct (run_callback j' (callback dc) s) as [s1 raised] eqn:Hrun.
    assert (quiet j s1) as Hq1.
    { unfold run_callback in Hrun. by simplify_eq. }
    cbn in Hc.
    destruct raised; [|done].
    destruct (cancel_on_exception dc); [|done].
    destruct (job dc) as [jb'|]; [|done].
    split; [by apply quiet_pause|done].
Qed.

(** Nothing but [Job.start] of that very job lets a quiet job run. *)
Lemma step_quiet j ev s :
  no_start j [ev] = true → quiet j s →
  quiet j (step ev s) ∧ calls_through j (step ev s) = calls_through j s.
Proof.
  intros Hns Hq. destruct ev as [j'|jb|jb|cb i p coe]; unfold step.
  - by apply fire_quiet.
  - cbn in Hns. rewrite andb_true_r in Hns.
    apply negb_true_iff, Nat.eqb_neq in Hns.
    split; [by apply quiet_resume_ne|done].
  - split; [by apply quiet_pause|done].
  - split; [by apply quiet_get_job|].
    by rewrite get_job_unfold.
Qed.

Lemma run_quiet j evs s :
  no_start j evs = true → quiet j s →
  quiet j (run evs s) ∧ calls_through j (run evs s) = calls_through j s.
Proof.
  revert s. induction evs as [|ev evs IH]; intros s Hns Hq; [done|].
  cbn in Hns. apply andb_true_iff in Hns as [Hev Hevs].
  destruct (step_quiet j ev s) as [Hq1 Hc1]; [by cbn; rewrite Hev|done|].
  cbn. destruct (IH (step ev s) Hevs Hq1) as [Hq2 Hc2].
  split; [done|]. by rewrite <- Hc1.
Qed.

Lemma fire_runs_plain j cb s :
  runs_plain j cb s →
  runs_plain j cb (fire j s) ∧
  calls_through j (fire j s) = calls_through j s ++ [(j, cb_id cb)].
Proof.
  intros (jb & Hj & Hf & Hp). unfold fire. rewrite Hj, Hp, Hf. split.
  - by exists jb.
  - unfold calls_through, run_callback. cbn.
    by rewrite filter_app, filter_cons_True, filter_nil by done.
Qed.

Lemma runs_plain_not_paused j cb s : runs_plain j cb s → is_paused j s = false.
Proof. intros (jb & Hj & _ & Hp). unfold is_paused. by rewrite Hj. Qed.

Lemma runs_plain_after_start cb interval params coe s :
  runs_plain (length (jobs s)) cb
    (Job_start (get_job cb interval params coe s).2
               (get_job cb interval params coe s).1).
Proof.
  rewrite get_job_unfold. unfold Job_start, resume, runs_plain. cbn.
  rewrite list_lookup_alter_eq, list_lookup_middle by done. cbn.
  by eexists.
Qed.

Lemma run_fires_plain j cb n s :
  runs_plain j cb s →
  runs_plain j cb (run (repeat (EvFire j) n) s) ∧
  calls_through j (run (repeat (EvFire j) n) s)
  = calls_through j s ++ repeat (j, cb_id cb) n.
Proof.
  revert s. induction n as [|n IH]; intros s Hr.
  - cbn. by rewrite app_nil_r.
  - destruct (fire_runs_plain j cb s Hr) as [Hr1 Hc1].
    destruct (IH (fire j s) Hr1) as [Hr2 Hc2].
    cbn. split; [done|].
    change (fold_left (λ s ev, step ev s) (repeat (EvFire j) n) (fire j s))
      with (run (repeat (EvFire j) n) (fire j s)).
    by rewrite Hc2, Hc1, <- app_assoc.
Qed.

(** Had the job been registered with the bound method [decorated.call], a
    raising callback would pause it when [cancel_on_exception] is set. *)
Lemma fire_bound_call_pauses j d jb dc s :
  jobs s !! j = Some jb → func jb = BoundCall d → paused jb = false →
  decorated s !! d = Some dc → cancel_on_exception dc = true →
  job dc = Some {| _job := j |} →
  cb_raises (callback dc) (times_called (cb_id (callback dc)) s) = true →
  is_paused j (fire j s) = true.
Proof.
  intros Hj Hf Hp Hd Hcoe Hjob Hraise.
  unfold fire. rewrite Hj, Hp, Hf.
  unfold DecoratedCallable_call. rewrite Hd. cbn.
  rewrite Hraise, Hcoe, Hjob.
  unfold is_paused, Job_cancel, pause. cbn.
  by rewrite list_lookup_alter_eq, Hj.
Qed.

(** C1 (the code does not do this).  The claim: a job made by
    [Scheduler.get_job] with [cancel_on_exception=True] is paused when its
    callback raises.  The code registers [decorated.callback], the plain
    callback, with the scheduler, so [DecoratedCallable.call] never runs:
    with a callback that raises at every invocation, a started job stays
    scheduled, and [n] expiries of its interval give [n] invocations. *)
Theorem get_job_cancel_on_exception_keeps_running c interval params s n :
  let cb := always_raises c in
  let s' := (get_job cb interval params true s).1 in
  let jb := (get_job cb interval params true s).2 in
  let s'' := run (repeat (EvFire (_job jb)) n) (Job_start jb s') in
  is_paused (_job jb) s'' = false ∧
  calls_through (_job jb) s''
  = calls_through (_job jb) s' ++ repeat (_job jb, c) n.
Proof.
  intros cb s' jb s''.
  pose proof (runs_plain_after_start cb interval params true s) as Hr.
  assert (_job jb = length (jobs s)) as Hjb.
  { subst jb. by rewrite get_job_unfold. }
  destruct (run_fires_plain (length (jobs s)) cb n _ Hr) as [Hr' Hc].
  subst s''. rewrite Hjb. split.
  - by eapply runs_plain_not_paused.
  - exact Hc.
Qed.

(** C10.  Every Job returned by [Scheduler.get_job] is initially paused: as
    long as [Job.start()] is not called on it, no expiry of an interval and
    no [get_job], [Job.cancel()] or [Job.start()] of another job makes it
    invoke the callback; and from any state, after [Job.cancel()] it makes no
    invocation until [Job.start()] is called on it again. *)
Theorem get_job_paused_until_start cb interval params coe s evs s2 evs2 :
  let s' := (get_job cb interval params coe s).1 in
  let jb := (get_job cb interval params coe s).2 in
  no_start (_job jb) evs = true →
  no_start (_job jb) evs2 = true →
  is_paused (_job jb) s' = true
  ∧ calls_through (_job jb) (run evs s') = calls_through (_job jb) s'
  ∧ calls_through (_job jb) (run evs2 (Job_cancel jb s2)) = calls_through (_job jb) s2.
Proof.
  intros s' jb Hevs Hevs2.
  pose proof (is_paused_get_job cb interval params coe s) as Hp.
  fold s' jb in Hp. split; [done|]. split.
  - apply run_quiet; [done|].
    unfold quiet. unfold is_paused in Hp.
    by destruct (jobs s' !! _job jb).
  - destruct (run_quiet (_job jb) evs2 (Job_cancel jb s2)) as [_ Hc];
      [done|apply quiet_pause_eq|].
    by rewrite Hc.
Qed.

(** An empty scheduler, a callback that never raises, and a few events. *)
Lemma get_job_paused_until_start_witness :
  let cb := {| cb_id := 7; cb_raises := λ _, false |} in
  let s' := (get_job cb 2 None false empty).1 in
  let jb := (get_job cb 2 None false empty).2 in
  let evs := [EvFire 0; EvCancel jb; EvFire 0; EvGetJob cb 1 None true; EvFire 1] in
  let s2 := run [EvStart jb; EvFire 0] s' in
  let evs2 := [EvFire 0; EvFire 0] in
  no_start (_job jb) evs = true ∧ no_start (_job jb) evs2 = true ∧
  calls_through (_job jb) s2 = [(0, 7)] ∧
  is_paused (_job jb) s' = true
  ∧ calls_through (_job jb) (run evs s') = calls_through (_job jb) s'
  ∧ calls_through (_job jb) (run evs2 (Job_cancel jb s2)) = calls_through (_job jb) s2.
Proof.
  intros cb s' jb evs s2 evs2.
  split; [reflexivity|]. split; [reflexivity|]. split; [reflexivity|].
  apply (get_job_paused_until_start cb 2 None false empty evs s2 evs2); reflexivity.
Defined.

End SchedulerFacts.

(** ** Scheduler: the singleton *)

Module SchedulerClassFacts.
Import SchedulerClass.

Lemma kind_of_cases ty :
  (ty = "thread" ∧ kind_of ty = Some BackgroundScheduler)
  ∨ (ty = "asyncio" ∧ kind_of ty = Some AsyncIOScheduler)
  ∨ (ty ≠ "thread" ∧ ty ≠ "asyncio" ∧ kind_of ty = None).
Proof.
  unfold kind_of.
  destruct (decide (ty = "thread")) as [->|Hth]; [by left|].
  destruct (decide (ty = "asyncio")) as [->|Has]; [by right; left|].
  by right; right.
Qed.

Section WithEventLoop.

Variable asyncio_start : option exn.

(** [_create_scheduler] on an instance of another type: a supported type
    gives a new running scheduler with an empty store at the next address, or
    the exception of its [start()] with nothing changed; any other type
    raises [WrongUsage] and changes nothing. *)
Lemma _create_scheduler_other self ty cs :
  _scheduler_type self ≠ Some ty →
  _create_scheduler asyncio_start self ty cs =
  match kind_of ty with
  | Some kd =>
      match start_raises asyncio_start kd with
      | Some e => (cs, Raise e)
      | None => (with_started kd cs, Return (Some (length (schedulers cs))))
      end
  | None => (cs, Raise WrongUsage)
  end.
Proof.
  intros Hne. unfold _create_scheduler, new_started. rewrite decide_False by done.
  destruct (kind_of_cases ty) as [[-> ->]|[[-> ->]|(Hth & Has & ->)]].
  - done.
  - cbn. by destruct asyncio_start.
  - by rewrite !decide_False.
Qed.

Lemma _create_scheduler_same self ty cs :
  _scheduler_type self = Some ty →
  _create_scheduler asyncio_start self ty cs = (cs, Return (_scheduler self)).
Proof. intros Heq. unfold _create_scheduler. by rewrite decide_True. Qed.

(** Creating the first instance, with the default type. *)
Lemma __init___default cs :
  _object cs = None →
  __init__ asyncio_start None cs =
  ({| _object := Some {| _scheduler_type := Some "thread";
                         _scheduler := Some (length (schedulers cs)) |};
      schedulers := schedulers cs ++
        [ {| ap_kind := BackgroundScheduler; ap_running := true;
             ap_store := Scheduler.empty |} ] |}, Return tt).
Proof. intros Hnone. unfold __init__. by rewrite Hnone. Qed.

Lemma well_formed_intro cs inst ty k a :
  _object cs = Some inst → _scheduler_type inst = Some ty → _scheduler inst = Some k →
  schedulers cs !! k = Some a → ap_running a = true → kind_of ty = Some (ap_kind a) →
  well_formed cs.
Proof. intros Ho ?????. unfold well_formed. rewrite Ho. by exists ty, k, a. Qed.

Lemma _get_instance_some cs inst :
  _object cs = Some inst → _get_instance asyncio_start cs = (cs, Return (Some inst)).
Proof. intros Ho. unfold _get_instance. by rewrite Ho. Qed.

Lemma _get_instance_none cs :
  _object cs = None →
  ∃ cs1 inst, _get_instance asyncio_start cs = (cs1, Return (Some inst))
              ∧ _object cs1 = Some inst
              ∧ inst = {| _scheduler_type := Some "thread";
                          _scheduler := Some (length (schedulers cs)) |}
              ∧ schedulers cs1 = schedulers cs ++
                  [ {| ap_kind := BackgroundScheduler; ap_running := true;
                       ap_store := Scheduler.empty |} ].
Proof.
  intros Ho. unfold _get_instance. rewrite Ho, __init___default by done.
  by eexists _, _.
Qed.

(** Whatever the class state, [_get_instance] gives an instance and leaves a
    well-formed state that holds the schedulers there were. *)
Lemma _get_instance_spec cs :
  well_formed cs →
  ∃ cs1 inst, _get_instance asyncio_start cs = (cs1, Return (Some inst))
              ∧ _object cs1 = Some inst
              ∧ well_formed cs1
              ∧ (∀ k a, schedulers cs !! k = Some a → schedulers cs1 !! k = Some a)
              ∧ (is_Some (_object cs) → cs1 = cs).
Proof.
  intros Hwf. destruct (_object cs) as [inst|] eqn:Ho.
  - exists cs, inst. rewrite (_get_instance_some cs inst) by done. by repeat split.
  - destruct (_get_instance_none cs Ho) as (cs1 & inst & Hget & Ho1 & Hinst & Hs).
    exists cs1, inst. split; [done|]. split; [done|]. split; [|split].
    + apply (well_formed_intro cs1 inst "thread" (length (schedulers cs))
               {| ap_kind := BackgroundScheduler; ap_running := true;
                  ap_store := Scheduler.empty |}); subst inst; try done.
      rewrite Hs. by rewrite list_lookup_middle.
    + intros k a Hk. rewrite Hs. by apply lookup_app_l_Some.
    + by intros [? ?].
Qed.

Lemma alter_fixed {A} (f : A → A) (l : list A) (k : nat) (a : A) :
  l !! k = Some a → f a = a → alter f k l = l.
Proof.
  intros Hk Hf. apply list_eq. intros i. rewrite list_lookup_alter.
  destruct (decide (k = i)) as [<-|]; [|done]. by rewrite Hk; cbn; rewrite Hf.
Qed.

Lemma _swap_scheduler_some ty self cs :
  _swap_scheduler asyncio_start (Some ty) self cs =
  match _create_scheduler asyncio_start self ty cs with
  | (cs1, inl e) => (cs1, Raise e)
  | (cs1, inr scheduler) =>
      (match _scheduler self with
       | Some old =>
           if decide (Some old = scheduler) then cs1
           else shutdown old (remove_all_jobs old cs1)
       | None => cs1
       end,
       Return {| _scheduler_type := Some ty; _scheduler := scheduler |})
  end.
Proof. done. Qed.

Lemma change_kind_some cs inst ty :
  _object cs = Some inst →
  change_kind asyncio_start ty cs =
  match _swap_scheduler asyncio_start ty inst cs with
  | (cs2, inl e) => (cs2, Raise e)
  | (cs2, inr inst') =>
      ({| _object := Some inst'; schedulers := schedulers cs2 |}, Return tt)
  end.
Proof. intros Ho. unfold change_kind. by rewrite (_get_instance_some cs inst). Qed.

(** The singleton: [_get_instance] never raises and always ends with an
    instance in place; called again it returns the same instance and changes
    nothing; and once there is an instance, [Scheduler(...)] raises
    [WrongUsage] and changes nothing. *)
Theorem scheduler_is_a_singleton cs ty :
  ∃ cs1 inst,
    _get_instance asyncio_start cs = (cs1, Return (Some inst))
    ∧ _object cs1 = Some inst
    ∧ _get_instance asyncio_start cs1 = (cs1, Return (Some inst))
    ∧ __init__ asyncio_start ty cs1 = (cs1, Raise WrongUsage).
Proof.
  assert (∃ cs1 inst, _get_instance asyncio_start cs = (cs1, Return (Some inst))
                      ∧ _object cs1 = Some inst) as (cs1 & inst & Hget & Ho).
  { destruct (_object cs) as [inst|] eqn:Ho.
    - exists cs, inst. by rewrite (_get_instance_some cs inst).
    - destruct (_get_instance_none cs Ho) as (cs1 & inst & ? & ? & _). by exists cs1, inst. }
  exists cs1, inst. split; [done|]. split; [done|]. split.
  - by apply _get_instance_some.
  - unfold __init__. by rewrite Ho.
Qed.

(** Asking for a kind of scheduler that is neither ['thread'] nor ['asyncio']
    raises [WrongUsage] and costs nothing: every scheduler there was is as it
    was, with its jobs, and an existing instance is untouched; and
    [Scheduler(kind)] with such a kind leaves no instance behind. *)
Theorem change_kind_unsupported cs ty :
  well_formed cs →
  kind_of ty = None →
  ∃ cs1, change_kind asyncio_start (Some ty) cs = (cs1, Raise WrongUsage)
         ∧ (∀ k a, schedulers cs !! k = Some a → schedulers cs1 !! k = Some a)
         ∧ (is_Some (_object cs) → cs1 = cs)
         ∧ (_object cs = None → __init__ asyncio_start (Some ty) cs = (cs, Raise WrongUsage)).
Proof.
  intros Hwf Hkind.
  destruct (_get_instance_spec cs Hwf) as (cs1 & inst & Hget & Ho1 & Hwf1 & Hkeep & Hsame).
  exists cs1. unfold change_kind. rewrite Hget.
  unfold well_formed in Hwf1. rewrite Ho1 in Hwf1.
  destruct Hwf1 as (ty0 & k & a & Hty0 & _ & _ & _ & Hk0).
  assert (_scheduler_type inst ≠ Some ty) as Hne.
  { rewrite Hty0. intros [= ->]. congruence. }
  unfold Return at 1. cbv iota beta.
  rewrite _swap_scheduler_some, (_create_scheduler_other inst ty cs1 Hne), Hkind.
  split; [done|]. split; [done|]. split; [done|].
  intros Ho. unfold __init__. rewrite Ho, _swap_scheduler_some.
  rewrite _create_scheduler_other by done. by rewrite Hkind.
Qed.

(** Changing to the kind the instance already has is a no-op: the scheduler,
    with all its jobs, stays; so is [change_kind(None)] on an instance of
    kind ['thread']. *)
Theorem change_kind_same_kind cs inst ty :
  _object cs = Some inst →
  _scheduler_type inst = Some ty →
  change_kind asyncio_start (Some ty) cs = (cs, Return tt)
  ∧ (ty = "thread" → change_kind asyncio_start None cs = (cs, Return tt)).
Proof.
  intros Ho Hty.
  assert (change_kind asyncio_start (Some ty) cs = (cs, Return tt)) as Hsame.
  { rewrite (change_kind_some cs inst) by done. rewrite _swap_scheduler_some.
    rewrite _create_scheduler_same by done.
    destruct cs as [o ss], inst as [t sch]. cbn in *. subst o t.
    destruct sch as [old|]; [by rewrite decide_True|done]. }
  split; [done|]. intros ->.
  rewrite <- Hsame. by rewrite !(change_kind_some cs inst).
Qed.

Lemma lookup_retired k i cs :
  schedulers (shutdown k (remove_all_jobs k cs)) !! i
  = if decide (k = i) then retired <$> schedulers cs !! k else schedulers cs !! i.
Proof.
  unfold shutdown, remove_all_jobs. cbn.
  destruct (decide (k = i)) as [->|Hne].
  - rewrite !list_lookup_alter_eq. by destruct (schedulers cs !! i).
  - by rewrite !list_lookup_alter_ne.
Qed.

Lemma _swap_scheduler_other ty' kd inst cs k :
  _scheduler_type inst ≠ Some ty' → kind_of ty' = Some kd →
  _scheduler inst = Some k → k < length (schedulers cs) →
  _swap_scheduler asyncio_start (Some ty') inst cs =
  match start_raises asyncio_start kd with
  | Some e => (cs, Raise e)
  | None =>
      (shutdown k (remove_all_jobs k (with_started kd cs)),
       Return {| _scheduler_type := Some ty';
                 _scheduler := Some (length (schedulers cs)) |})
  end.
Proof.
  intros Hne Hkd Hk Hlt.
  rewrite _swap_scheduler_some, _create_scheduler_other, Hkd by done.
  destruct (start_raises asyncio_start kd); [done|].
  unfold Return. rewrite Hk. by rewrite decide_False by (intros [= ->]; lia).
Qed.

(** Changing to the other kind.  The new scheduler is made and started
    first.  When its [start()] raises, as that of an AsyncIOScheduler does
    without an event loop, [change_kind] raises the same and nothing has
    changed: the instance keeps its scheduler and the scheduler its jobs.
    Otherwise every job is dropped without a word: the instance gets the new,
    running scheduler of the new kind with an empty job store; the old
    scheduler loses all its jobs and is shut down, so that no interval of an
    old job ever expires into a call again. *)
Theorem change_kind_other_kind cs inst ty k ty' kd :
  well_formed cs →
  _object cs = Some inst →
  _scheduler_type inst = Some ty →
  _scheduler inst = Some k →
  ty' ≠ ty →
  kind_of ty' = Some kd →
  match start_raises asyncio_start kd with
  | Some e => change_kind asyncio_start (Some ty') cs = (cs, Raise e)
  | None =>
      ∃ cs' a a',
        change_kind asyncio_start (Some ty') cs = (cs', Return tt)
        ∧ well_formed cs'
        ∧ _object cs' = Some {| _scheduler_type := Some ty';
                                _scheduler := Some (length (schedulers cs)) |}
        ∧ current_scheduler cs' = Some {| ap_kind := kd; ap_running := true;
                                          ap_store := Scheduler.empty |}
        ∧ schedulers cs !! k = Some a
        ∧ schedulers cs' !! k = Some a'
        ∧ ap_running a' = false
        ∧ Scheduler.jobs (ap_store a') = []
        ∧ Scheduler.invoked (ap_store a') = Scheduler.invoked (ap_store a)
        ∧ ∀ j, fire k j cs' = cs'
  end.
Proof.
  intros Hwf Ho Hty Hk Hne Hkd.
  unfold well_formed in Hwf. rewrite Ho in Hwf.
  destruct Hwf as (ty0 & k0 & a & Hty0 & Hk0 & Ha & Hrun & Hkind).
  assert (k0 = k) as -> by congruence.
  pose proof (lookup_lt_Some _ _ _ Ha) as Hlt.
  rewrite (change_kind_some cs inst) by done.
  rewrite (_swap_scheduler_other ty' kd inst cs k) by (rewrite ?Hty; congruence || done).
  destruct (start_raises asyncio_start kd) as [e|]; [done|].
  unfold Return.
  set (ss := schedulers (shutdown k (remove_all_jobs k (with_started kd cs)))).
  assert (ss !! k = Some (retired a)) as Hold.
  { subst ss. rewrite lookup_retired, decide_True by done. cbn.
    by rewrite lookup_app_l, Ha. }
  assert (ss !! length (schedulers cs)
          = Some {| ap_kind := kd; ap_running := true; ap_store := Scheduler.empty |})
    as Hnew.
  { subst ss. rewrite lookup_retired, decide_False by lia. cbn.
    by rewrite list_lookup_middle. }
  eexists _, a, (retired a). split; [reflexivity|]. cbn [_object schedulers].
  split.
  { unfold well_formed. cbn. eexists ty', _, _. by repeat split. }
  split; [done|]. split.
  { unfold current_scheduler. cbn. exact Hnew. }
  split; [done|]. split; [exact Hold|]. split; [done|]. split; [done|]. split; [done|].
  intros j. unfold fire. cbn [_object schedulers]. f_equal.
  by apply (alter_fixed _ _ k (retired a)).
Qed.

(** The static [Scheduler.get_job] never raises: it makes the instance when
    there is none, and the job it returns sits, paused, in the store of the
    instance's running scheduler. *)
Theorem class_get_job_paused cb interval params coe cs :
  well_formed cs →
  ∃ cs1 k jb a,
    get_job asyncio_start cb interval params coe cs = (cs1, Return (k, jb))
    ∧ well_formed cs1
    ∧ (_scheduler <$> _object cs1) = Some (Some k)
    ∧ current_scheduler cs1 = Some a
    ∧ ap_running a = true
    ∧ Scheduler.is_paused (Scheduler._job jb) (ap_store a) = true.
Proof.
  intros Hwf.
  destruct (_get_instance_spec cs Hwf) as (cs1 & inst & Hget & Ho1 & Hwf1 & _ & _).
  unfold get_job. rewrite Hget.
  unfold well_formed in Hwf1. rewrite Ho1 in Hwf1.
  destruct Hwf1 as (ty & k & a & Hty & Hk & Ha & Hrun & Hkind).
  unfold Return at 1. cbv iota beta. rewrite Hk, Ha.
  pose proof (SchedulerFacts.is_paused_get_job cb interval params coe (ap_store a)) as Hp.
  destruct (Scheduler.get_job cb interval params coe (ap_store a)) as [store' jb] eqn:Hgj.
  cbn [fst snd] in Hp.
  pose proof (lookup_lt_Some _ _ _ Ha) as Hlt.
  eexists _, k, jb, _. split; [reflexivity|]. cbn.
  assert (<[k:={| ap_kind := ap_kind a; ap_running := ap_running a; ap_store := store' |}]>
            (schedulers cs1) !! k
          = Some {| ap_kind := ap_kind a; ap_running := ap_running a; ap_store := store' |})
    as Hnew by (by apply list_lookup_insert_eq).
  split.
  { unfold well_formed. cbn. rewrite Ho1. eexists ty, k, _. by repeat split. }
  split; [by rewrite Ho1; cbn; rewrite Hk|]. split.
  { unfold current_scheduler. cbn. rewrite Ho1. cbn. rewrite Hk. cbn. exact Hnew. }
  by split.
Qed.

End WithEventLoop.

Lemma change_kind_unsupported_witness :
  ∃ cs1, (change_kind no_event_loop None initial).1 = cs1
         ∧ well_formed cs1 ∧ kind_of "process" = None
         ∧ change_kind no_event_loop (Some "process") cs1 = (cs1, Raise WrongUsage)
         ∧ __init__ no_event_loop (Some "process") initial = (initial, Raise WrongUsage).
Proof.
  eexists. split; [reflexivity|].
  assert (well_formed (change_kind no_event_loop None initial).1) as Hwf.
  { cbn. by exists "thread", 0, {| ap_kind := BackgroundScheduler; ap_running := true;
                                 ap_store := Scheduler.empty |}. }
  split; [exact Hwf|]. split; [reflexivity|].
  destruct (change_kind_unsupported no_event_loop
              (change_kind no_event_loop None initial).1 "process" Hwf)
    as (cs1 & Hraise & _ & Hsame & _); [reflexivity|].
  destruct (change_kind_unsupported no_event_loop initial "process")
    as (_ & _ & _ & _ & Hinit); [exact I|reflexivity|].
  split; [|by apply Hinit].
  rewrite Hraise. by rewrite Hsame by (cbn; eauto).
Defined.

Lemma change_kind_same_kind_witness :
  let cs := (get_job no_event_loop (Scheduler.always_raises 0) 1 None true initial).1 in
  _object cs = Some {| _scheduler_type := Some "thread"; _scheduler := Some 0 |}
  ∧ change_kind no_event_loop (Some "thread") cs = (cs, Return tt)
  ∧ change_kind no_event_loop None cs = (cs, Return tt).
Proof.
  intros cs.
  destruct (change_kind_same_kind no_event_loop cs
              {| _scheduler_type := Some "thread"; _scheduler := Some 0 |} "thread")
    as [Hsame Hnone]; [reflexivity..|].
  split; [reflexivity|]. split; [exact Hsame|]. by apply Hnone.
Defined.

Lemma change_kind_other_kind_witness :
  let cs := (get_job None (Scheduler.always_raises 0) 1 None true initial).1 in
  (Scheduler.jobs <$> (ap_store <$> schedulers cs !! 0)) ≠ Some []
  ∧ change_kind no_event_loop (Some "asyncio") cs
    = (cs, Raise (RuntimeError "no running event loop"))
  ∧ ∃ cs', change_kind None (Some "asyncio") cs = (cs', Return tt)
           ∧ (Scheduler.jobs <$> (ap_store <$> schedulers cs' !! 0)) = Some []
           ∧ (ap_kind <$> current_scheduler cs') = Some AsyncIOScheduler
           ∧ fire 0 0 cs' = cs'.
Proof.
  intros cs.
  assert (well_formed cs) as Hwf.
  { by exists "thread", 0, {| ap_kind := BackgroundScheduler; ap_running := true;
        ap_store := (Scheduler.get_job (Scheduler.always_raises 0) 1 None true
                       Scheduler.empty).1 |}. }
  split; [by vm_compute|]. split.
  - apply (change_kind_other_kind no_event_loop cs
             {| _scheduler_type := Some "thread"; _scheduler := Some 0 |}
             "thread" 0 "asyncio" AsyncIOScheduler);
      [exact Hwf|reflexivity|reflexivity|reflexivity|discriminate|reflexivity].
  - destruct (change_kind_other_kind None cs
                {| _scheduler_type := Some "thread"; _scheduler := Some 0 |}
                "thread" 0 "asyncio" AsyncIOScheduler)
      as (cs' & a & a' & Hck & _ & _ & Hcur & _ & Ha' & _ & Hjobs & _ & Hfire);
      [exact Hwf|reflexivity|reflexivity|reflexivity|discriminate|reflexivity|].
    exists cs'. split; [exact Hck|].
    split; [by rewrite Ha'; cbn; rewrite Hjobs|].
    split; [by rewrite Hcur|]. apply Hfire.
Defined.

Lemma class_get_job_paused_witness :
  well_formed initial
  ∧ ∃ cs1 jb, get_job no_event_loop (Scheduler.always_raises 0) 1 None true initial
              = (cs1, Return (0, jb))
              ∧ (ap_kind <$> current_scheduler cs1) = Some BackgroundScheduler.
Proof.
  split; [exact I|].
  destruct (class_get_job_paused no_event_loop (Scheduler.always_raises 0) 1 None true
              initial I)
    as (cs1 & k & jb & a & Hgj & _).
  eexists _, _. split; [reflexivity|]. reflexivity.
Defined.

End SchedulerClassFacts.

(** ** TextualDevice *)

Module TextualDeviceFacts.
Import TextualDevice.

Section WithObserverClasses.

Variable observer_class : string → Kwargs → option exn.
Variable class_validate_start_body : Observer → result unit.

Lemma catalogue_cases observer_type self :
  observer_type = cmds ∨ observer_type = events →
  (observer_type = cmds ∧ catalogue observer_type self = _cmdnames_available_in_state self)
  ∨ (observer_type = events ∧ observer_type ≠ cmds
     ∧ catalogue observer_type self = _eventnames_available_in_state self).
Proof.
  unfold catalogue. intros [-> | ->].
  - left. by rewrite decide_True.
  - right. by rewrite decide_False.
Qed.

(** [_get_observer_in_state] by cases on the catalogue. *)
Lemma _get_observer_in_state_cases self name observer_type kwargs :
  observer_type = cmds ∨ observer_type = events →
  _get_observer_in_state observer_class self name observer_type kwargs =
  match catalogue observer_type self !! current_state self with
  | None => Raise (KeyError (current_state self))
  | Some names =>
      match names !! name with
      | Some fullname =>
          match observer_class fullname kwargs with
          | Some e => Raise e
          | None => Return {| class_fullname := fullname; observer_kwargs := kwargs;
                              _validate_start := class_validate_start |}
          end
      | None => Raise (KeyError (unknown_observer_msg observer_type name
                                   (current_state self) (class_name self)))
      end
  end.
Proof.
  intros Hty. unfold _get_observer_in_state.
  destruct (catalogue_cases observer_type self Hty) as [[-> ->] | (-> & Hne & ->)].
  - rewrite decide_True by done.
    by destruct (_cmdnames_available_in_state self !! current_state self).
  - rewrite decide_False, decide_True by done.
    by destruct (_eventnames_available_in_state self !! current_state self).
Qed.

(** [get_observer] by cases on what [_get_observer_in_state] gives. *)
Lemma get_observer_cases self name observer_type exc_cls check_state kwargs :
  observer_type = cmds ∨ observer_type = events →
  get_observer observer_class self name observer_type exc_cls check_state kwargs =
  match _get_observer_in_state observer_class self name observer_type kwargs with
  | inl e => Raise e
  | inr observer =>
      Return (Some {| class_fullname := class_fullname observer;
                      observer_kwargs := observer_kwargs observer;
                      _validate_start :=
                        if check_state
                        then validate_device_state_before_observer_start
                               exc_cls (current_state self) (_validate_start observer)
                        else _validate_start observer |})
  end.
Proof.
  intros Hty. unfold get_observer, _create_cmd_instance, _create_event_instance.
  destruct Hty as [-> | ->].
  - rewrite decide_True by done.
    destruct (_get_observer_in_state _ _ _ _ _) as [e|[]]; [done|].
    by destruct check_state.
  - rewrite decide_False, decide_True by done.
    destruct (_get_observer_in_state _ _ _ _ _) as [e|[]]; [done|].
    by destruct check_state.
Qed.

Lemma get_observer_missing self name observer_type exc_cls check_state kwargs :
  observer_type = cmds ∨ observer_type = events →
  allowed observer_type self !! name = None →
  ∃ msg, get_observer observer_class self name observer_type exc_cls check_state kwargs
         = Raise (KeyError msg).
Proof.
  intros Hty Hmiss. unfold allowed in Hmiss.
  rewrite get_observer_cases, _get_observer_in_state_cases by done.
  destruct (catalogue observer_type self !! current_state self) as [names|];
    cbn in Hmiss; [|by eexists].
  rewrite Hmiss. by eexists.
Qed.

Lemma get_observer_allowed self name observer_type exc_cls check_state kwargs fullname :
  observer_type = cmds ∨ observer_type = events →
  allowed observer_type self !! name = Some fullname →
  observer_class fullname kwargs = None →
  get_observer observer_class self name observer_type exc_cls check_state kwargs
  = Return (Some {| class_fullname := fullname;
                    observer_kwargs := kwargs;
                    _validate_start :=
                      if check_state
                      then validate_device_state_before_observer_start
                             exc_cls (current_state self) class_validate_start
                      else class_validate_start |}).
Proof.
  intros Hty Hin Hcls. unfold allowed in Hin.
  rewrite get_observer_cases, _get_observer_in_state_cases by done.
  destruct (catalogue observer_type self !! current_state self) as [names|];
    cbn in Hin; [|done].
  by rewrite Hin, Hcls.
Qed.

(** [get_observer] returns an observer exactly for an allowed name whose
    class can be instantiated with the given arguments. *)
Lemma get_observer_succeeds self name observer_type exc_cls check_state kwargs :
  observer_type = cmds ∨ observer_type = events →
  succeeds (get_observer observer_class self name observer_type exc_cls check_state kwargs)
  ↔ ∃ fullname, allowed observer_type self !! name = Some fullname
                ∧ observer_class fullname kwargs = None.
Proof.
  intros Hty.
  destruct (allowed observer_type self !! name) as [fullname|] eqn:Hl.
  - destruct (observer_class fullname kwargs) as [e|] eqn:Hcls.
    + split; [|by intros (? & [= <-] & ?); congruence].
      intros [o Ho]. exfalso. revert Ho. unfold allowed in Hl.
      rewrite get_observer_cases, _get_observer_in_state_cases by done.
      destruct (catalogue observer_type self !! current_state self) as [names|];
        cbn in Hl; [|done].
      by rewrite Hl, Hcls.
    + split; [by eauto|]. intros _. eexists. by eapply get_observer_allowed.
  - destruct (get_observer_missing self name observer_type exc_cls check_state kwargs)
      as [msg Hmsg]; [done..|].
    split; [|by intros (? & ? & ?)].
    intros [o Ho]. rewrite Hmsg in Ho. discriminate.
Qed.

(** The gate of one observer type, the three parts of it: who gets an
    observer, what the others get, and what a late start gets. *)
Lemma get_observer_state_gate self name observer_type exc_cls check_state kwargs :
  observer_type = cmds ∨ observer_type = events →
  (succeeds (get_observer observer_class self name observer_type exc_cls check_state kwargs)
   ↔ ∃ fullname, allowed observer_type self !! name = Some fullname
                 ∧ observer_class fullname kwargs = None)
  ∧ ((∀ fullname, allowed observer_type self !! name = Some fullname →
                  observer_class fullname kwargs = None) →
     (succeeds (get_observer observer_class self name observer_type exc_cls
                  check_state kwargs)
      ↔ name ∈ dom (allowed observer_type self)))
  ∧ (name ∉ dom (allowed observer_type self) →
     ∃ msg, get_observer observer_class self name observer_type exc_cls check_state kwargs
            = Raise (KeyError msg)).
Proof.
  intros Hty. split; [by apply get_observer_succeeds|]. split.
  - intros Hcls. rewrite get_observer_succeeds, elem_of_dom by done. split.
    + intros (fullname & Hl & _). by eauto.
    + intros [fullname Hl]. exists fullname. by auto.
  - rewrite elem_of_dom. intros Hmiss.
    apply (get_observer_missing self name observer_type exc_cls check_state kwargs);
      [done|].
    by apply eq_None_not_Some.
Qed.

Lemma current_state_set_state st self : current_state (_set_state st self) = st.
Proof. unfold _set_state. by case_decide. Qed.

(** An observer obtained with [check_state=True] refuses to start once the
    device has left the state it was created in. *)
Lemma start_in_other_state self name observer_type exc_cls kwargs o st' :
  observer_type = cmds ∨ observer_type = events →
  get_observer observer_class self name observer_type exc_cls true kwargs
  = Return (Some o) →
  st' ≠ current_state self →
  start class_validate_start_body (_set_state st' self) o
  = Raise (raise_observer_exception exc_cls (current_state self) st').
Proof.
  intros Hty Hget Hne.
  rewrite get_observer_cases in Hget by done.
  destruct (_get_observer_in_state _ _ _ _ _) as [e|observer]; [done|].
  simplify_eq. unfold start. cbn.
  rewrite current_state_set_state.
  by rewrite decide_False.
Qed.

(** In the state of creation the wrapper hands over to the validator it
    wraps. *)
Lemma start_in_creation_state self name observer_type exc_cls kwargs o :
  observer_type = cmds ∨ observer_type = events →
  get_observer observer_class self name observer_type exc_cls true kwargs
  = Return (Some o) →
  start class_validate_start_body self o = class_validate_start_body o.
Proof.
  intros Hty Hget.
  rewrite get_observer_cases, _get_observer_in_state_cases in Hget by done.
  destruct (catalogue observer_type self !! current_state self) as [names|]; [|done].
  destruct (names !! name) as [fullname|]; [|done].
  destruct (observer_class fullname kwargs); [done|].
  unfold Return in Hget. simplify_eq. unfold start. cbn.
  by rewrite decide_True.
Qed.

End WithObserverClasses.

(** C2 as it is stated does not hold: asked for a command that the current
    state does not allow, [get_cmd] raises the [KeyError] of
    [_get_observer_in_state], not [WrongUsage]. *)
Lemma get_cmd_missing_raises_KeyError_not_WrongUsage :
  allowed cmds unix_like !! "cd" = None
  ∧ get_cmd (λ _ _, None) unix_like "cd" true []
    = Raise (KeyError ("Failed to create cmd-object for 'cd' cmd. " +:+
                       "'cd' cmd is unknown for state 'CONNECTED' of device 'TextualDevice'."))
  ∧ get_cmd (λ _ _, None) unix_like "cd" true [] ≠ Raise WrongUsage.
Proof.
  split; [by vm_compute|]. split; [by vm_compute|].
  vm_compute. discriminate.
Qed.

(** C2, amended.  For every device state S and observer name n:
    [get_cmd(n)] (resp. [get_event]) returns an observer exactly when n is in
    the allowed command (resp. event) set of the current state S and the
    class registered for n can be instantiated with the arguments given; so,
    that class being instantiable, exactly when n is in the allowed set.  It
    raises [KeyError] when n is missing, whatever the classes.  Moreover an
    observer obtained with [check_state=True] whose [start()] happens when
    the current state differs from the state at construction fails with
    [CommandWrongState] (resp. [EventWrongState]), whatever the classes. *)
Theorem get_cmd_get_event_state_gate
    (observer_class : string → Kwargs → option exn)
    (class_validate_start_body : Observer → result unit)
    (self : Device) (name : string) (check_state : bool) (kwargs : Kwargs) :
  ((succeeds (get_cmd observer_class self name check_state kwargs)
    ↔ ∃ fullname, allowed cmds self !! name = Some fullname
                  ∧ observer_class fullname kwargs = None)
   ∧ ((∀ fullname, allowed cmds self !! name = Some fullname →
                   observer_class fullname kwargs = None) →
      (succeeds (get_cmd observer_class self name check_state kwargs)
       ↔ name ∈ dom (allowed cmds self)))
   ∧ (name ∉ dom (allowed cmds self) →
      ∃ msg, get_cmd observer_class self name check_state kwargs = Raise (KeyError msg))
   ∧ (∀ o st', get_cmd observer_class self name true kwargs = Return (Some o) →
        st' ≠ current_state self →
        start class_validate_start_body (_set_state st' self) o
        = Raise (CommandWrongState (current_state self) st')))
  ∧
  ((succeeds (get_event observer_class self name check_state kwargs)
    ↔ ∃ fullname, allowed events self !! name = Some fullname
                  ∧ observer_class fullname kwargs = None)
   ∧ ((∀ fullname, allowed events self !! name = Some fullname →
                   observer_class fullname kwargs = None) →
      (succeeds (get_event observer_class self name check_state kwargs)
       ↔ name ∈ dom (allowed events self)))
   ∧ (name ∉ dom (allowed events self) →
      ∃ msg, get_event observer_class self name check_state kwargs = Raise (KeyError msg))
   ∧ (∀ o st', get_event observer_class self name true kwargs = Return (Some o) →
        st' ≠ current_state self →
        start class_validate_start_body (_set_state st' self) o
        = Raise (EventWrongState (current_state self) st'))).
Proof.
  split.
  - destruct (get_observer_state_gate observer_class self name cmds CommandWrongState_cls
                check_state kwargs) as (Hex & Hiff & Hmiss); [by left|].
    split; [done|]. split; [done|]. split; [done|].
    intros o st' Hget Hne.
    by apply (start_in_other_state observer_class class_validate_start_body
                self name cmds CommandWrongState_cls kwargs o st'); [left|..].
  - destruct (get_observer_state_gate observer_class self name events EventWrongState_cls
                check_state kwargs) as (Hex & Hiff & Hmiss); [by right|].
    split; [done|]. split; [done|]. split; [done|].
    intros o st' Hget Hne.
    by apply (start_in_other_state observer_class class_validate_start_body
                self name events EventWrongState_cls kwargs o st'); [right|..].
Qed.

Lemma get_cmd_get_event_state_gate_witness :
  (∀ fullname, allowed cmds unix_like !! "ls" = Some fullname →
               unix_observer_class fullname [] = None)
  ∧ succeeds (get_cmd unix_observer_class unix_like "ls" true [])
  ∧ (∃ o, get_cmd unix_observer_class unix_like "ls" true [] = Return (Some o)
          ∧ start (λ _, Return tt) (on_connection_lost unix_like) o
            = Raise (CommandWrongState "CONNECTED" "NOT_CONNECTED"))
  ∧ (∃ o, get_event unix_observer_class unix_like "wait4prompt" true []
          = Return (Some o)
          ∧ start (λ _, Return tt) (on_connection_lost unix_like) o
            = Raise (EventWrongState "CONNECTED" "NOT_CONNECTED"))
  ∧ get_cmd unix_observer_class unix_like "ping" true [] = Raise TypeError
  ∧ ¬ succeeds (get_cmd unix_observer_class unix_like "ping" true [])
  ∧ (∃ msg, get_event unix_observer_class unix_like "ping" true []
            = Raise (KeyError msg)).
Proof.
  destruct (get_cmd_get_event_state_gate unix_observer_class (λ _, Return tt)
              unix_like "ls" true []) as [(_ & Hiff & _ & Hstart) _].
  destruct (get_cmd_get_event_state_gate unix_observer_class (λ _, Return tt)
              unix_like "wait4prompt" true []) as [_ (_ & _ & _ & Hstart_ev)].
  destruct (get_cmd_get_event_state_gate unix_observer_class (λ _, Return tt)
              unix_like "ping" true []) as [(Hex & _) (_ & _ & Hmiss & _)].
  assert (∀ fullname, allowed cmds unix_like !! "ls" = Some fullname →
                      unix_observer_class fullname [] = None) as Hcls.
  { intros fullname Hl. vm_compute in Hl. by injection Hl as <-. }
  split; [exact Hcls|]. split.
  { apply (Hiff Hcls). apply elem_of_dom. by eexists. }
  split.
  { eexists. split; [vm_compute; reflexivity|].
    apply (Hstart _ not_connected); [vm_compute; reflexivity|discriminate]. }
  split.
  { eexists. split; [vm_compute; reflexivity|].
    apply (Hstart_ev _ not_connected); [vm_compute; reflexivity|discriminate]. }
  split; [by vm_compute|]. split.
  { intros Hs. apply Hex in Hs as (fullname & Hl & Hnone).
    vm_compute in Hl. injection Hl as <-. by vm_compute in Hnone. }
  apply Hmiss. rewrite elem_of_dom. intros [fullname Hl]. by vm_compute in Hl.
Defined.

End TextualDeviceFacts.

(** ** TextualDevice: registry, goto_state, catalogues *)

Module TextualDeviceMoreFacts.
Import TextualDevice.

(** *** The registry of states and triggers *)

Lemma elem_of_add_new x y l : y ∈ add_new x l ↔ y ∈ l ∨ y = x.
Proof.
  unfold add_new. case_bool_decide as Hin.
  - split; [by left|]. intros [?| ->]; done.
  - rewrite elem_of_app, list_elem_of_singleton. done.
Qed.

Lemma NoDup_add_new x l : NoDup l → NoDup (add_new x l).
Proof.
  intros Hnd. unfold add_new. case_bool_decide as Hin; [done|].
  apply NoDup_app. split; [done|]. split.
  - intros y Hy ->%list_elem_of_singleton. done.
  - apply NoDup_singleton.
Qed.

Lemma prefix_add_new x l : l `prefix_of` add_new x l.
Proof. unfold add_new. case_bool_decide; [done|]. by apply prefix_app_r. Qed.

Lemma fold_add_new xs l :
  let l' := fold_left (λ l x, add_new x l) xs l in
  (NoDup l → NoDup l')
  ∧ (∀ y, y ∈ l' ↔ y ∈ l ∨ y ∈ xs)
  ∧ l `prefix_of` l'.
Proof.
  revert l. induction xs as [|x xs IH]; intros l; cbn.
  - split; [done|]. split; [|done]. intros y. rewrite elem_of_nil. tauto.
  - destruct (IH (add_new x l)) as (Hnd & Hin & Hpre). split; [|split].
    + intros ?. by apply Hnd, NoDup_add_new.
    + intros y. rewrite Hin, elem_of_add_new, elem_of_cons. tauto.
    + etrans; [apply prefix_add_new|done].
Qed.

Lemma states_add_transition src dest r :
  states (add_transition src dest r) = add_new dest.1 (states r).
Proof.
  unfold add_transition, build_trigger_to_state, _update_SM_states, add_new.
  by repeat case_bool_decide.
Qed.

Lemma triggers_add_transition src dest r :
  goto_states_triggers (add_transition src dest r)
  = add_new (trigger_name dest.1) (goto_states_triggers r).
Proof.
  unfold add_transition, build_trigger_to_state, _update_SM_states, add_new.
  by repeat case_bool_decide.
Qed.

Lemma states_add_transitions_inner src dests r :
  states (fold_left (λ r dest, add_transition src dest r) dests r)
  = fold_left (λ l x, add_new x l) (map fst dests) (states r)
  ∧ goto_states_triggers (fold_left (λ r dest, add_transition src dest r) dests r)
    = fold_left (λ l x, add_new x l) (map trigger_name (map fst dests))
        (goto_states_triggers r).
Proof.
  revert r. induction dests as [|d dests IH]; intros r; [done|].
  cbn [fold_left map].
  destruct (IH (add_transition src d r)) as [H1 H2]. rewrite H1, H2.
  by rewrite states_add_transition, triggers_add_transition.
Qed.

Lemma states_add_transitions transitions r :
  states (_add_transitions transitions r)
  = fold_left (λ l x, add_new x l) (dest_names transitions) (states r)
  ∧ goto_states_triggers (_add_transitions transitions r)
    = fold_left (λ l x, add_new x l) (map trigger_name (dest_names transitions))
        (goto_states_triggers r).
Proof.
  unfold _add_transitions, dest_names.
  revert r. induction transitions as [|[src dests] ts IH]; intros r; [done|].
  cbn [fold_left map concat fst snd].
  destruct (IH (fold_left (λ r dest, add_transition src dest r) dests r)) as [H1 H2].
  rewrite H1, H2.
  destruct (states_add_transitions_inner src dests r) as [H3 H4]. rewrite H3, H4.
  by rewrite map_app, !fold_left_app.
Qed.

Lemma elem_of_dest_names st transitions :
  st ∈ dest_names transitions
  ↔ ∃ src dests acts, (src, dests) ∈ transitions ∧ (st, acts) ∈ dests.
Proof.
  unfold dest_names. rewrite list_elem_of_In, in_concat. split.
  - intros (l & Hl & Hst).
    apply in_map_iff in Hl as ([src dests] & <- & Hsrc).
    apply in_map_iff in Hst as ([st' acts] & <- & Hd).
    exists src, dests, acts. by rewrite !list_elem_of_In.
  - intros (src & dests & acts & Hsrc & Hd). exists (map fst dests). split.
    + apply in_map_iff. exists (src, dests). by rewrite <- list_elem_of_In.
    + apply in_map_iff. exists (st, acts). by rewrite <- list_elem_of_In.
Qed.

(** [_add_transitions] keeps the two class-wide lists free of duplicates and
    only ever appends to them.  Afterwards the registered states are the old
    ones and the destinations of the table (a state that occurs as a source
    only is not registered), and the triggers are the old ones and
    [GOTO_<dest>] for each destination. *)
Theorem _add_transitions_registry transitions r :
  NoDup (states r) →
  NoDup (goto_states_triggers r) →
  let r' := _add_transitions transitions r in
  NoDup (states r')
  ∧ NoDup (goto_states_triggers r')
  ∧ states r `prefix_of` states r'
  ∧ goto_states_triggers r `prefix_of` goto_states_triggers r'
  ∧ (∀ st, st ∈ states r'
           ↔ st ∈ states r
             ∨ ∃ src dests acts, (src, dests) ∈ transitions ∧ (st, acts) ∈ dests)
  ∧ (∀ t, t ∈ goto_states_triggers r'
          ↔ t ∈ goto_states_triggers r
            ∨ ∃ src dests st acts, (src, dests) ∈ transitions ∧ (st, acts) ∈ dests
                                   ∧ t = trigger_name st).
Proof.
  intros Hnd1 Hnd2 r'. subst r'.
  destruct (states_add_transitions transitions r) as [-> ->].
  destruct (fold_add_new (dest_names transitions) (states r)) as (Hn1 & Hi1 & Hp1).
  destruct (fold_add_new (map trigger_name (dest_names transitions))
              (goto_states_triggers r)) as (Hn2 & Hi2 & Hp2).
  split; [by apply Hn1|]. split; [by apply Hn2|]. split; [done|]. split; [done|].
  split.
  - intros st. by rewrite Hi1, elem_of_dest_names.
  - intros t. rewrite Hi2, list_elem_of_fmap. split.
    + intros [?|(st & -> & Hst)]; [by left|right].
      apply elem_of_dest_names in Hst as (src & dests & acts & ? & ?).
      by exists src, dests, st, acts.
    + intros [?|(src & dests & st & acts & ? & ? & ->)]; [by left|right].
      exists st. split; [done|]. apply elem_of_dest_names. by exists src, dests, acts.
Qed.

Lemma _add_transitions_registry_witness :
  let r := {| states := []; goto_states_triggers := []; SM_calls := [] |} in
  let table : Transitions := [ ("A", [ ("B", ["a2b"]); ("C", ["a2c"]) ]);
                               ("B", [ ("C", ["b2c"]) ]) ] in
  NoDup (states r) ∧ NoDup (goto_states_triggers r)
  ∧ states (_add_transitions table r) = ["B"; "C"]
  ∧ goto_states_triggers (_add_transitions table r) = ["GOTO_B"; "GOTO_C"]
  ∧ NoDup (states (_add_transitions table r))
  ∧ "A" ∉ states (_add_transitions table r).
Proof.
  intros r table.
  destruct (_add_transitions_registry table r) as (Hnd & _ & _ & _ & _ & _);
    [apply NoDup_nil_2..|].
  split; [apply NoDup_nil_2|]. split; [apply NoDup_nil_2|].
  split; [reflexivity|]. split; [reflexivity|]. split; [exact Hnd|].
  apply (bool_decide_unpack _). by vm_compute.
Defined.

(** *** goto_state *)

Section WithStateMachine.

Variable change_state : string → string → string → Device → result Device.
Variable registry : Registry.
Variable _state_hops : gmap string (gmap string string).

(** The loop over the triggers ends with the trigger of the state when it is
    registered, and with the method it started with when it is not. *)
Lemma find_trigger_registered st previous :
  trigger_name st ∈ goto_states_triggers registry →
  find_trigger registry st previous = Some (trigger_name st).
Proof.
  unfold find_trigger.
  assert (∀ l found, found = Some (trigger_name st) ∨ trigger_name st ∈ l →
            fold_left (λ found goto_method,
                         if decide (trigger_name st = goto_method) then Some goto_method
                         else found) l found = Some (trigger_name st)) as Hgen.
  { induction l as [|g l IH]; intros found [Hf|Hin]; cbn.
    - done.
    - by apply elem_of_nil in Hin.
    - apply IH. left. subst found. by destruct (decide (trigger_name st = g)) as [<-|].
    - apply IH. destruct (decide (trigger_name st = g)) as [<-|Hne]; [by left|].
      right. by apply elem_of_cons in Hin as [?|?]. }
  intros Hin. apply Hgen. by right.
Qed.

Lemma find_trigger_unregistered st previous :
  trigger_name st ∉ goto_states_triggers registry →
  find_trigger registry st previous = previous.
Proof.
  unfold find_trigger. generalize (goto_states_triggers registry).
  intros l. revert previous. induction l as [|g l IH]; intros previous Hnin; [done|].
  cbn. apply not_elem_of_cons in Hnin as [Hne Hnin].
  rewrite decide_False by done. by apply IH.
Qed.

(** One round that calls a trigger and does not arrive. *)
Lemma goto_loop_round fuel dest previous self m self' :
  let st := next_state _state_hops (current_state self) dest in
  find_trigger registry st previous = Some m →
  change_state m (current_state self) st self = inr self' →
  current_state self' ≠ dest →
  goto_loop change_state registry _state_hops (S fuel) dest previous self
  = match goto_loop change_state registry _state_hops fuel dest (Some m) self' with
    | Some (calls, r) => Some ((m, current_state self, st) :: calls, r)
    | None => None
    end.
Proof.
  intros st Hfind Hcall Hne. cbn [goto_loop]. fold st.
  by rewrite Hfind, Hcall, decide_False.
Qed.

(** One round that calls a trigger and arrives. *)
Lemma goto_loop_arrives fuel dest previous self m self' :
  let st := next_state _state_hops (current_state self) dest in
  find_trigger registry st previous = Some m →
  change_state m (current_state self) st self = inr self' →
  current_state self' = dest →
  goto_loop change_state registry _state_hops (S fuel) dest previous self
  = Some ([(m, current_state self, st)], inr self').
Proof.
  intros st Hfind Hcall Heq. cbn [goto_loop]. fold st.
  by rewrite Hfind, Hcall, decide_True.
Qed.

(** The two ways [goto_state] ends without calling any trigger.  Asked for
    the state the device is in, it returns at once, the device as it was,
    however little fuel there is.  Asked for another state while the next
    state on the way has no trigger [GOTO_<state>] among the registered ones,
    it raises [DeviceFailure] for that state, before any trigger is called. *)
Theorem goto_state_without_trigger fuel dest self :
  (current_state self = dest →
   goto_state change_state registry _state_hops fuel dest self = Some ([], inr self))
  ∧ (current_state self ≠ dest →
     let st := next_state _state_hops (current_state self) dest in
     trigger_name st ∉ goto_states_triggers registry →
     goto_state change_state registry _state_hops (S fuel) dest self
     = Some ([], inl (DeviceFailure st (states registry)))).
Proof.
  split.
  - intros Heq. unfold goto_state. by rewrite decide_True.
  - intros Hne st Hnin. unfold goto_state. rewrite decide_False by done.
    cbn [goto_loop]. fold st. by rewrite find_trigger_unregistered.
Qed.

(** Without a hop, [goto_state] calls the trigger of the destination once,
    with the current state and the destination as arguments, and is done
    when that call has entered the destination; an exception of the trigger
    goes through to the caller. *)
Theorem goto_state_direct fuel dest self :
  current_state self ≠ dest →
  next_state _state_hops (current_state self) dest = dest →
  trigger_name dest ∈ goto_states_triggers registry →
  (∀ self', change_state (trigger_name dest) (current_state self) dest self = inr self' →
            current_state self' = dest →
            goto_state change_state registry _state_hops (S fuel) dest self
            = Some ([(trigger_name dest, current_state self, dest)], inr self'))
  ∧ (∀ e, change_state (trigger_name dest) (current_state self) dest self = inl e →
          goto_state change_state registry _state_hops (S fuel) dest self
          = Some ([(trigger_name dest, current_state self, dest)],
                  inl (Trigger_raised e))).
Proof.
  intros Hne Hnext Hreg. unfold goto_state. rewrite decide_False by done. split.
  - intros self' Hcall Harr.
    rewrite (goto_loop_arrives fuel dest None self (trigger_name dest) self');
      rewrite ?Hnext; try done.
    by apply find_trigger_registered.
  - intros e Hcall. cbn [goto_loop]. rewrite Hnext.
    by rewrite find_trigger_registered, Hcall.
Qed.

(** With a hop from the current state: [goto_state] first calls the trigger
    of the hop state, then, from the hop state, the trigger of the
    destination; each is called once, in that order, and the device ends in
    the destination. *)
Theorem goto_state_one_hop fuel dest hop self self1 self2 :
  current_state self ≠ dest →
  hop ≠ dest →
  next_state _state_hops (current_state self) dest = hop →
  next_state _state_hops hop dest = dest →
  trigger_name hop ∈ goto_states_triggers registry →
  trigger_name dest ∈ goto_states_triggers registry →
  change_state (trigger_name hop) (current_state self) hop self = inr self1 →
  current_state self1 = hop →
  change_state (trigger_name dest) hop dest self1 = inr self2 →
  current_state self2 = dest →
  goto_state change_state registry _state_hops (S (S fuel)) dest self
  = Some ([(trigger_name hop, current_state self, hop); (trigger_name dest, hop, dest)],
          inr self2).
Proof.
  intros Hne Hhop Hnext1 Hnext2 Hreg1 Hreg2 Hcall1 Hst1 Hcall2 Hst2.
  unfold goto_state. rewrite decide_False by done.
  rewrite (goto_loop_round (S fuel) dest None self (trigger_name hop) self1);
    rewrite ?Hnext1; try done; [|by apply find_trigger_registered|congruence].
  rewrite (goto_loop_arrives fuel dest (Some (trigger_name hop)) self1
             (trigger_name dest) self2);
    rewrite ?Hst1, ?Hnext2; try done.
  by apply find_trigger_registered.
Qed.

(** [change_state_method] is reset before the loop only.  So once a round has
    found a trigger, no later round raises [DeviceFailure]: a round whose
    next state has no registered trigger calls the trigger kept from the
    round before, with the new pair of states. *)
Theorem goto_loop_keeps_last_trigger fuel dest m self :
  (∀ calls st available,
     goto_loop change_state registry _state_hops fuel dest (Some m) self
     ≠ Some (calls, inl (DeviceFailure st available)))
  ∧ (let st := next_state _state_hops (current_state self) dest in
     trigger_name st ∉ goto_states_triggers registry →
     ∀ e, change_state m (current_state self) st self = inl e →
          goto_loop change_state registry _state_hops (S fuel) dest (Some m) self
          = Some ([(m, current_state self, st)], inl (Trigger_raised e))).
Proof.
  split.
  - revert m self. induction fuel as [|fuel IH]; intros m self calls st av; [done|].
    cbn [goto_loop].
    destruct (find_trigger registry _ (Some m)) as [m'|] eqn:Hfind.
    + destruct (change_state m' _ _ self) as [e|self']; [done|].
      destruct (decide (current_state self' = dest)); [done|].
      destruct (goto_loop _ _ _ fuel dest (Some m') self') as [[calls' r]|] eqn:Hrec;
        [|done].
      intros [= <- ->]. by eapply IH.
    + exfalso. revert Hfind. unfold find_trigger.
      generalize (goto_states_triggers registry), m.
      induction l as [|g l IHl]; intros m0; cbn; [done|].
      destruct (decide _); apply IHl.
  - intros st Hnin e Hcall. cbn [goto_loop]. fold st.
    by rewrite find_trigger_unregistered, Hcall.
Qed.

End WithStateMachine.

Lemma goto_state_without_trigger_witness :
  goto_state plain_change_state hop_registry hops_A_C_via_B 0 "A" (device_in "A")
  = Some ([], inr (device_in "A"))
  ∧ goto_state plain_change_state hop_registry hops_A_C_via_B 1 "A" (device_in "B")
    = Some ([], inl (DeviceFailure "A" ["B"; "C"])).
Proof.
  destruct (goto_state_without_trigger plain_change_state hop_registry hops_A_C_via_B
              0 "A" (device_in "A")) as [Hsame _].
  destruct (goto_state_without_trigger plain_change_state hop_registry hops_A_C_via_B
              0 "A" (device_in "B")) as [_ Hfail].
  split; [by apply Hsame|].
  apply Hfail; [discriminate|]. apply (bool_decide_unpack _). by vm_compute.
Defined.

Lemma goto_state_direct_witness :
  goto_state plain_change_state hop_registry hops_A_C_via_B 1 "C" (device_in "B")
  = Some ([("GOTO_C", "B", "C")], inr (device_in "C")).
Proof.
  destruct (goto_state_direct plain_change_state hop_registry hops_A_C_via_B
              0 "C" (device_in "B")) as [Hok _];
    [discriminate|reflexivity|apply (bool_decide_unpack _); by vm_compute|].
  by apply (Hok (device_in "C")).
Defined.

Lemma goto_state_one_hop_witness :
  goto_state plain_change_state hop_registry hops_A_C_via_B 2 "C" (device_in "A")
  = Some ([("GOTO_B", "A", "B"); ("GOTO_C", "B", "C")], inr (device_in "C")).
Proof.
  apply (goto_state_one_hop plain_change_state hop_registry hops_A_C_via_B
           0 "C" "B" (device_in "A") (device_in "B") (device_in "C"));
    try discriminate; try reflexivity;
    apply (bool_decide_unpack _); by vm_compute.
Defined.

Lemma goto_loop_keeps_last_trigger_witness :
  let hops : gmap string (gmap string string) := {[ "B" := {[ "C" := "X" ]} ]} in
  (trigger_name "X" ∉ goto_states_triggers hop_registry)
  ∧ goto_loop stuck_in_B hop_registry hops 1 "C" (Some "GOTO_B") (device_in "B")
    = Some ([("GOTO_B", "B", "X")], inl (Trigger_raised (UserException 7))).
Proof.
  intros hops.
  assert (trigger_name "X" ∉ goto_states_triggers hop_registry) as Hnin.
  { apply (bool_decide_unpack _). by vm_compute. }
  split; [exact Hnin|].
  destruct (goto_loop_keeps_last_trigger stuck_in_B hop_registry hops
              0 "C" "GOTO_B" (device_in "B")) as [_ Hkeep].
  by apply Hkeep.
Defined.

(** *** The catalogues *)

Section WithPackages.

Variable _get_packages_for_state : string → string → list string.
Variable package_members : string → list (string * string).

Lemma collect_for_state_machine_lookup collect available_states d st :
  collect_for_state_machine collect available_states d !! st
  = if decide (st ∈ available_states) then Some (collect st) else d !! st.
Proof.
  unfold collect_for_state_machine.
  revert d. induction available_states as [|s sts IH]; intros d; cbn.
  - by rewrite decide_False by apply not_elem_of_nil.
  - rewrite IH. destruct (decide (st ∈ sts)) as [Hin|Hnin].
    + by rewrite decide_True by (by right).
    + rewrite (right_id_L ∅ (∪)). destruct (decide (st = s)) as [->|Hne].
      * rewrite decide_True by (by left). by rewrite lookup_insert_eq.
      * rewrite decide_False by (by intros [?|?]%elem_of_cons).
        by rewrite lookup_insert_ne.
Qed.

Lemma filter_none {A} (P : A → Prop) `{!∀ x, Decision (P x)} (l : list A) :
  (∀ x, x ∈ l → ¬ P x) → filter P l = [].
Proof.
  induction l as [|x l IH]; intros Hno; [done|].
  rewrite filter_cons_False by (apply Hno; by left).
  apply IH. intros y Hy. apply Hno. by right.
Qed.

(** Within a package the pair met last decides. *)
Lemma load_members_lookup members (d : gmap string string) name :
  fold_left (λ available_cmds (m : string * string), <[m.1 := m.2]> available_cmds)
    members d !! name
  = match last (filter (λ m : string * string, m.1 = name) members) with
    | Some m => Some m.2
    | None => d !! name
    end.
Proof.
  revert d. induction members as [|[n c] ms IH]; intros d; [done|].
  cbn [fold_left]. rewrite IH. rewrite filter_cons. cbn [fst snd].
  destruct (decide (n = name)) as [->|Hne].
  - destruct (filter _ ms) as [|m' l'] eqn:Hf.
    + cbn. by rewrite lookup_insert_eq.
    + rewrite last_cons_cons. destruct (last (m' :: l')) eqn:Hl; [done|].
      by apply last_None in Hl.
  - destruct (last (filter _ ms)); [done|]. by rewrite lookup_insert_ne.
Qed.

Lemma _load_cmds_from_package_dom pkg name :
  is_Some (_load_cmds_from_package package_members pkg !! name)
  ↔ ∃ c, (name, c) ∈ package_members pkg.
Proof.
  unfold _load_cmds_from_package. rewrite load_members_lookup.
  destruct (last (filter _ (package_members pkg))) as [[n c]|] eqn:Hlast.
  - split; [intros _|by eauto].
    apply last_Some_elem_of, list_elem_of_filter in Hlast as [Hn Hin].
    cbn in Hn. subst n. by exists c.
  - rewrite lookup_empty. split; [by intros [? ?]|]. intros [c Hin].
    apply last_None in Hlast.
    assert ((name, c) ∈ filter (λ m : string * string, m.1 = name)
                          (package_members pkg)) as Hf
      by (by apply list_elem_of_filter).
    rewrite Hlast in Hf. by apply elem_of_nil in Hf.
Qed.

(** Across packages the package listed last decides. *)
Lemma collect_packages_lookup pkgs (observer : gmap string string) name :
  fold_left (λ observer pkg, _load_cmds_from_package package_members pkg ∪ observer)
    pkgs observer !! name
  = match last (filter (λ pkg, is_Some (_load_cmds_from_package package_members pkg
                                          !! name)) pkgs) with
    | Some pkg => _load_cmds_from_package package_members pkg !! name
    | None => observer !! name
    end.
Proof.
  revert observer. induction pkgs as [|p ps IH]; intros observer; [done|].
  cbn [fold_left]. rewrite IH. rewrite filter_cons.
  destruct (decide (is_Some (_load_cmds_from_package package_members p !! name)))
    as [[c Hc]|Hnone].
  - destruct (filter _ ps) as [|p' l'] eqn:Hf.
    + cbn. by rewrite (lookup_union_Some_l _ _ _ c).
    + rewrite last_cons_cons. destruct (last (p' :: l')) eqn:Hl; [done|].
      by apply last_None in Hl.
  - destruct (last (filter _ ps)); [done|].
    apply eq_None_not_Some in Hnone. by rewrite lookup_union_r.
Qed.

Lemma _collect_observer_for_state_dom observer_type st name :
  is_Some (_collect_observer_for_state _get_packages_for_state package_members
             observer_type st !! name)
  ↔ ∃ pkg c, pkg ∈ _get_packages_for_state st observer_type
             ∧ (name, c) ∈ package_members pkg.
Proof.
  unfold _collect_observer_for_state. rewrite collect_packages_lookup.
  destruct (last (filter _ (_get_packages_for_state st observer_type)))
    as [pkg|] eqn:Hlast.
  - apply last_Some_elem_of, list_elem_of_filter in Hlast as [Hsome Hin].
    split; [intros _|done].
    apply _load_cmds_from_package_dom in Hsome as [c Hc]. by exists pkg, c.
  - rewrite lookup_empty. split; [by intros [? ?]|]. intros (pkg & c & Hin & Hc).
    apply last_None in Hlast.
    assert (pkg ∈ filter (λ pkg, is_Some (_load_cmds_from_package package_members pkg
                                           !! name))
                   (_get_packages_for_state st observer_type)) as Hf.
    { apply list_elem_of_filter. split; [|done].
      apply _load_cmds_from_package_dom. by exists c. }
    rewrite Hlast in Hf. by apply elem_of_nil in Hf.
Qed.

(** When several packages of a state, or several classes of a package, go by
    the same observer name, the last one wins: the name stands for the class
    met last in the last package that has the name. *)
Theorem collect_last_definition_wins observer_type st pkgs1 pkg pkgs2
    members1 name c members2 :
  _get_packages_for_state st observer_type = pkgs1 ++ pkg :: pkgs2 →
  (∀ q c', q ∈ pkgs2 → (name, c') ∉ package_members q) →
  package_members pkg = members1 ++ (name, c) :: members2 →
  (∀ c', (name, c') ∉ members2) →
  _collect_observer_for_state _get_packages_for_state package_members observer_type st
    !! name = Some c.
Proof.
  intros Hpkgs Hlater Hmembers Hlast.
  assert (_load_cmds_from_package package_members pkg !! name = Some c) as Hload.
  { unfold _load_cmds_from_package. rewrite load_members_lookup, Hmembers.
    rewrite filter_app, filter_cons_True by done.
    assert (filter (λ m : string * string, m.1 = name) members2 = []) as ->.
    { apply filter_none. intros [n c'] Hin Hn. cbn in Hn.
      subst n. by apply (Hlast c'). }
    by rewrite last_snoc. }
  unfold _collect_observer_for_state. rewrite collect_packages_lookup, Hpkgs.
  rewrite filter_app, filter_cons_True by (by rewrite Hload).
  assert (filter (λ q, is_Some (_load_cmds_from_package package_members q !! name))
            pkgs2 = []) as ->.
  { apply filter_none. intros q Hq Hsome.
    apply _load_cmds_from_package_dom in Hsome as [c' Hc']. by apply (Hlater q c'). }
  by rewrite last_snoc.
Qed.

Section WithObserverClasses.

Variable observer_class : string → Kwargs → option exn.

(** On a device whose catalogues were collected for [available_states]:
    in one of these states, [get_cmd] returns an observer exactly for a name
    that the packages of the state have and whose class, the one collected
    for the name, can be instantiated with the arguments given; it raises
    the [KeyError] of an unknown name for a name no package of the state has,
    whatever the classes; in any other state it raises [KeyError] whatever
    the name and the classes. *)
Theorem get_cmd_on_collected_device available_states self name check_state kwargs :
  let dev := collected _get_packages_for_state package_members available_states self in
  let names := _collect_cmds_for_state _get_packages_for_state package_members
                 (current_state self) in
  (current_state self ∈ available_states →
   (succeeds (get_cmd observer_class dev name check_state kwargs)
    ↔ ∃ fullname, names !! name = Some fullname ∧ observer_class fullname kwargs = None)
   ∧ ((∀ fullname, names !! name = Some fullname →
                   observer_class fullname kwargs = None) →
      (succeeds (get_cmd observer_class dev name check_state kwargs)
       ↔ ∃ pkg c, pkg ∈ _get_packages_for_state (current_state self) cmds
                  ∧ (name, c) ∈ package_members pkg))
   ∧ ((∀ pkg c, pkg ∈ _get_packages_for_state (current_state self) cmds →
                (name, c) ∉ package_members pkg) →
      get_cmd observer_class dev name check_state kwargs
      = Raise (KeyError (unknown_observer_msg cmds name (current_state self)
                           (class_name self)))))
  ∧ (current_state self ∉ available_states →
     get_cmd observer_class dev name check_state kwargs
     = Raise (KeyError (current_state self))).
Proof.
  intros dev names.
  assert (current_state dev = current_state self) as Hst by done.
  assert (get_cmd observer_class dev name check_state kwargs =
          match (if decide (current_state self ∈ available_states)
                 then Some names else None) with
          | None => Raise (KeyError (current_state self))
          | Some names =>
              match names !! name with
              | Some fullname =>
                  match observer_class fullname kwargs with
                  | Some e => Raise e
                  | None =>
                      Return (Some {| class_fullname := fullname;
                                      observer_kwargs := kwargs;
                                      _validate_start :=
                                        if check_state
                                        then validate_device_state_before_observer_start
                                               CommandWrongState_cls (current_state self)
                                               class_validate_start
                                        else class_validate_start |})
                  end
              | None => Raise (KeyError (unknown_observer_msg cmds name
                                           (current_state self) (class_name self)))
              end
          end) as Hget.
  { unfold get_cmd.
    rewrite TextualDeviceFacts.get_observer_cases,
      TextualDeviceFacts._get_observer_in_state_cases by (by left).
    unfold catalogue. rewrite decide_True by done.
    rewrite Hst. subst dev. cbn [collected _cmdnames_available_in_state].
    rewrite collect_for_state_machine_lookup, lookup_empty.
    destruct (decide (current_state self ∈ available_states)); [|done].
    fold names. destruct (names !! name) as [fullname|]; [|done].
    destruct (observer_class fullname kwargs); [done|]. by destruct check_state. }
  split.
  - intros Hin. rewrite Hget, decide_True by done.
    pose proof (_collect_observer_for_state_dom cmds (current_state self) name) as Hdom.
    fold (_collect_cmds_for_state _get_packages_for_state package_members
            (current_state self)) in Hdom.
    fold names in Hdom. unfold succeeds.
    destruct (names !! name) as [fullname|] eqn:Hl.
    + split; [|split].
      * destruct (observer_class fullname kwargs) as [e|] eqn:Hcls.
        -- split; [by intros [o Ho]|]. intros (? & [= <-] & ?). congruence.
        -- split; [by eauto|]. intros _. by eexists.
      * intros Hcls. rewrite (Hcls fullname) by done.
        split; [intros _; apply Hdom; eauto|]. intros _. by eexists.
      * intros Hno. exfalso. destruct Hdom as [Hdom _].
        destruct Hdom as (pkg & c & ? & ?); [by eauto|]. by eapply Hno.
    + split; [|split; [|done]].
      * split; [by intros [o Ho]|]. by intros (? & ? & ?).
      * intros _. split; [by intros [o Ho]|].
        intros Hex. apply Hdom in Hex as [? ?]. done.
  - intros Hnin. by rewrite Hget, decide_False.
Qed.

End WithObserverClasses.

End WithPackages.

Lemma collect_last_definition_wins_witness :
  _collect_observer_for_state unix_packages unix_members cmds "UNIX_LOCAL" !! "ls"
  = Some "site.cmd.ls.Ls".
Proof.
  apply (collect_last_definition_wins unix_packages unix_members cmds "UNIX_LOCAL"
           ["moler.cmd.unix"] "site.cmd" [] [] "ls" "site.cmd.ls.Ls" []).
  - reflexivity.
  - intros q c' Hq. by apply elem_of_nil in Hq.
  - reflexivity.
  - intros c' Hc'. by apply elem_of_nil in Hc'.
Defined.

Lemma get_cmd_on_collected_device_witness :
  let dev := collected unix_packages unix_members ["UNIX_LOCAL"] (device_in "UNIX_LOCAL") in
  let off := collected unix_packages unix_members ["UNIX_LOCAL"] (device_in "UNIX_REMOTE") in
  succeeds (get_cmd unix_observer_class dev "ls" true [])
  ∧ ¬ succeeds (get_cmd unix_observer_class dev "ping" true [])
  ∧ succeeds (get_cmd unix_observer_class dev "ping" true [("destination", "localhost")])
  ∧ get_cmd unix_observer_class dev "cd" true []
    = Raise (KeyError (unknown_observer_msg cmds "cd" "UNIX_LOCAL" "TextualDevice"))
  ∧ get_cmd unix_observer_class off "ping" true [] = Raise (KeyError "UNIX_REMOTE").
Proof.
  intros dev off.
  destruct (get_cmd_on_collected_device unix_packages unix_members unix_observer_class
              ["UNIX_LOCAL"] (device_in "UNIX_LOCAL") "ls" true [])
    as [Hls _].
  destruct (get_cmd_on_collected_device unix_packages unix_members unix_observer_class
              ["UNIX_LOCAL"] (device_in "UNIX_LOCAL") "ping" true [])
    as [Hping _].
  destruct (get_cmd_on_collected_device unix_packages unix_members unix_observer_class
              ["UNIX_LOCAL"] (device_in "UNIX_LOCAL") "ping" true
              [("destination", "localhost")])
    as [Hdest _].
  destruct (get_cmd_on_collected_device unix_packages unix_members unix_observer_class
              ["UNIX_LOCAL"] (device_in "UNIX_LOCAL") "cd" true [])
    as [Hcd _].
  destruct (get_cmd_on_collected_device unix_packages unix_members unix_observer_class
              ["UNIX_LOCAL"] (device_in "UNIX_REMOTE") "ping" true [])
    as [_ Hout].
  assert ("UNIX_LOCAL" ∈ ["UNIX_LOCAL"]) as Hin by (by left).
  split.
  { destruct (Hls Hin) as (_ & Hiff & _). apply Hiff.
    - intros fullname Hl. vm_compute in Hl. by injection Hl as <-.
    - exists "site.cmd", "site.cmd.ls.Ls".
      split; apply (bool_decide_unpack _); by vm_compute. }
  split.
  { destruct (Hping Hin) as (Hex & _). intros Hs.
    apply Hex in Hs as (fullname & Hl & Hnone).
    vm_compute in Hl. injection Hl as <-. by vm_compute in Hnone. }
  split.
  { destruct (Hdest Hin) as (Hex & _). apply Hex.
    exists "moler.cmd.unix.ping.Ping". split; by vm_compute. }
  split.
  { destruct (Hcd Hin) as (_ & _ & Hmiss). apply Hmiss.
    intros pkg c Hpkg Hc. unfold unix_packages in Hpkg.
    rewrite decide_True in Hpkg by done.
    apply elem_of_cons in Hpkg as [->|Hpkg].
    - unfold unix_members in Hc. rewrite decide_True in Hc by done.
      apply elem_of_cons in Hc as [Heq|Hc]; [discriminate|].
      apply elem_of_cons in Hc as [Heq|Hc]; [discriminate|].
      by apply elem_of_nil in Hc.
    - apply elem_of_cons in Hpkg as [->|Hpkg]; [|by apply elem_of_nil in Hpkg].
      unfold unix_members in Hc. rewrite decide_False, decide_True in Hc by done.
      apply elem_of_cons in Hc as [Heq|Hc]; [discriminate|].
      by apply elem_of_nil in Hc. }
  apply Hout. apply (bool_decide_unpack _). by vm_compute.
Defined.

(** *** start through the device *)

Section WithObserverClasses.

Variable observer_class : string → Kwargs → option exn.
Variable class_validate_start_body : Observer → result unit.

(** The state check guards a start only where it can fail.
    [TextualDevice.start(name)] creates the command and starts it in one go,
    in one state: for an allowed name it hands over to the validator of the
    command's class and never raises [CommandWrongState].  And a command got
    with [check_state=False] keeps the validator of its class: started in
    whatever state the device is in by then, it is not checked at all. *)
Theorem start_state_check_scope self name kwargs fullname o later :
  allowed cmds self !! name = Some fullname →
  observer_class fullname kwargs = None →
  get_cmd observer_class self name false kwargs = Return (Some o) →
  (∃ cmd, get_cmd observer_class self name true kwargs = Return (Some cmd)
          ∧ TextualDevice_start observer_class class_validate_start_body self name kwargs
            = class_validate_start_body cmd)
  ∧ start class_validate_start_body later o = class_validate_start_body o.
Proof.
  intros Hin Hcls Hget.
  assert (cmds = cmds ∨ cmds = events) as Hty by (by left).
  split.
  - pose proof (TextualDeviceFacts.get_observer_allowed observer_class self name cmds
                  CommandWrongState_cls true kwargs fullname Hty Hin Hcls) as Hcmd.
    eexists. split; [exact Hcmd|].
    unfold TextualDevice_start, get_cmd. rewrite Hcmd.
    unfold Return at 1. cbv iota beta.
    by apply (TextualDeviceFacts.start_in_creation_state observer_class
                class_validate_start_body self name cmds CommandWrongState_cls kwargs).
  - unfold get_cmd in Hget.
    rewrite (TextualDeviceFacts.get_observer_allowed observer_class self name cmds
               CommandWrongState_cls false kwargs fullname Hty Hin Hcls) in Hget.
    unfold Return in Hget. by simplify_eq.
Qed.

End WithObserverClasses.

Lemma start_state_check_scope_witness :
  let body := λ _ : Observer, @Return unit tt in
  ∃ o, get_cmd (λ _ _, None) unix_like "ls" false [] = Return (Some o)
       ∧ TextualDevice_start (λ _ _, None) body unix_like "ls" [] = Return tt
       ∧ start body (on_connection_lost unix_like) o = Return tt.
Proof.
  intros body. eexists. split; [reflexivity|].
  destruct (start_state_check_scope (λ _ _, None) body unix_like "ls" []
              "moler.cmd.unix.ls.Ls"
              {| class_fullname := "moler.cmd.unix.ls.Ls"; observer_kwargs := [];
                 _validate_start := class_validate_start |}
              (on_connection_lost unix_like))
    as [(cmd & _ & Hstart) Hfree]; [by vm_compute|reflexivity|by vm_compute|].
  split; [by rewrite Hstart|exact Hfree].
Defined.

End TextualDeviceMoreFacts.

(** ** Runner *)

Module RunnerFacts.
Import Runner.

(** Unfold the operations of the monad [M]. *)
Ltac unfold_M :=
  unfold mbind, M_bind, mret, M_ret, get_obs, get_fut, get_in_shutdown, emit,
    modify_obs, modify_fut, set_in_shutdown, raise, lift, pass.

(** *** Writes of other threads *)

Lemma env_act_returns a w : (env_act a w).2 = inr tt.
Proof. by destruct a. Qed.

Lemma env_act_trace a w : trace (env_act a w).1 = trace w.
Proof. by destruct a. Qed.

Lemma set_result_done r o : done o = true → set_result r o = o.
Proof. unfold set_result. by intros ->. Qed.

Lemma set_exception_done e o : done o = true → set_exception e o = o.
Proof. unfold set_exception. by intros ->. Qed.

Lemma cancel_observer_done o : done o = true → cancel_observer o = o.
Proof. unfold cancel_observer. by intros ->. Qed.

Lemma done_set_exception e o : done (set_exception e o) = true.
Proof.
  unfold set_exception. destruct (done o) eqn:Hd; [done|].
  unfold done. cbn. by destruct (is_timeout_exception e).
Qed.

(** No write of another thread runs the [on_timeout] hook or takes a
    terminal status back. *)
Lemma env_act_on_timeout_calls a w :
  on_timeout_calls (obs (env_act a w).1) = on_timeout_calls (obs w).
Proof.
  destruct a; cbn; try done.
  - unfold set_result. by destruct (done (obs w)).
  - unfold set_exception. by destruct (done (obs w)).
  - unfold cancel_observer. by destruct (done (obs w)).
Qed.

Lemma env_act_done a w : done (obs w) = true → done (obs (env_act a w).1) = true.
Proof.
  intros Hd. destruct a; cbn; try done.
  - by rewrite set_result_done.
  - by rewrite set_exception_done.
  - by rewrite cancel_observer_done.
Qed.

Lemma interfere_cons a acts w :
  interfere (a :: acts) w = interfere acts (env_act a w).1.
Proof.
  cbn. unfold mbind, M_bind.
  pose proof (env_act_returns a w) as Hr.
  destruct (env_act a w) as [w' r]. cbn in Hr. by subst r.
Qed.

Lemma interfere_returns acts w : (interfere acts w).2 = inr tt.
Proof.
  revert w. induction acts as [|a acts IH]; intros w; [done|].
  by rewrite interfere_cons.
Qed.

Lemma interfere_trace acts w : trace (interfere acts w).1 = trace w.
Proof.
  revert w. induction acts as [|a acts IH]; intros w; [done|].
  by rewrite interfere_cons, IH, env_act_trace.
Qed.

(** *** time_out_observer *)

Lemma time_out_observer_done timeout_arg passed kind w :
  done (obs w) = true →
  time_out_observer timeout_arg passed kind w = (w, inr tt).
Proof.
  intros Hd. unfold time_out_observer. unfold_M. by rewrite Hd.
Qed.

Lemma time_out_observer_not_done timeout_arg passed kind w :
  done (obs w) = false →
  time_out_observer timeout_arg passed kind w =
  ({| obs := on_timeout
               (set_exception (timeout_exception (obs w) timeout_arg kind passed) (obs w));
      fut := fut w; _in_shutdown := _in_shutdown w;
      trace := (trace w ++
                [Call_set_exception (timeout_exception (obs w) timeout_arg kind passed)])
               ++ [Call_on_timeout] |}, inr tt).
Proof.
  intros Hd. unfold time_out_observer, call_set_exception, call_on_timeout.
  unfold_M. rewrite Hd. cbn.
  unfold timeout_exception, has_command_string. by destruct (command_string (obs w)).
Qed.

Lemma is_timeout_exception_timeout_exception o t k p :
  is_timeout_exception (timeout_exception o t k p) = true.
Proof. unfold timeout_exception. by destruct (command_string o). Qed.

(** What a timeout written into a not yet done observer looks like. *)
Lemma timed_out_observer o e :
  done o = false → is_timeout_exception e = true →
  status (on_timeout (set_exception e o)) = timed_out
  ∧ _exception (on_timeout (set_exception e o)) = Some e
  ∧ on_timeout_calls (on_timeout (set_exception e o)) = S (on_timeout_calls o)
  ∧ done (on_timeout (set_exception e o)) = true.
Proof.
  intros Hd He. unfold set_exception. rewrite Hd. unfold done. cbn.
  by rewrite He.
Qed.

Lemma race_step_done st w :
  done (obs w) = true →
  done (obs (race_step st w)) = true
  ∧ on_timeout_calls (obs (race_step st w)) = on_timeout_calls (obs w).
Proof.
  intros Hd. destruct st as [t p k|a]; cbn.
  - by rewrite time_out_observer_done.
  - split; [by apply env_act_done|apply env_act_on_timeout_calls].
Qed.

(** Once the observer is done, no later step of the race runs the hook. *)
Lemma race_done steps w :
  done (obs w) = true →
  done (obs (race steps w)) = true
  ∧ on_timeout_calls (obs (race steps w)) = on_timeout_calls (obs w).
Proof.
  revert w. induction steps as [|st steps IH]; intros w Hd; [done|].
  destruct (race_step_done st w Hd) as [Hd1 Hc1].
  destruct (IH _ Hd1) as [Hd2 Hc2]. cbn. split; [done|]. by rewrite <- Hc1.
Qed.

Lemma race_at_most_once steps w :
  on_timeout_calls (obs (race steps w)) ≤ S (on_timeout_calls (obs w)).
Proof.
  revert w. induction steps as [|st steps IH]; intros w; [cbn; lia|].
  change (race (st :: steps) w) with (race steps (race_step st w)).
  destruct (done (obs w)) eqn:Hd.
  - destruct (race_done (st :: steps) w Hd) as [_ Hc].
    change (race (st :: steps) w) with (race steps (race_step st w)) in Hc. lia.
  - destruct st as [t p k|a].
    + cbn [race_step]. rewrite time_out_observer_not_done by done. cbn [fst].
      destruct (timed_out_observer (obs w) (timeout_exception (obs w) t k p) Hd)
        as (_ & _ & Hc & Hd'); [apply is_timeout_exception_timeout_exception|].
      match goal with |- context [race steps ?w1] =>
        destruct (race_done steps w1) as [_ Hc']; [exact Hd'|] end.
      cbn [obs] in Hc'. lia.
    + specialize (IH (race_step (Other_thread a) w)).
      cbn [race_step] in *. rewrite env_act_on_timeout_calls in IH. lia.
Qed.

(** C4.  An observer that the runner forces into timed-out gets an exception
    of kind [CommandTimeout] when it is a command (it has a
    [command_string]) and of kind [ConnectionObserverTimeout], the
    ObserverTimeout of the error taxonomy, when it is an event. *)
Theorem time_out_observer_exception_kind w timeout_arg passed kind :
  done (obs w) = false →
  let o' := obs (time_out_observer timeout_arg passed kind w).1 in
  status o' = timed_out
  ∧ (is_command (obs w) = true →
     _exception o' = Some (CommandTimeout timeout_arg kind passed))
  ∧ (is_command (obs w) = false →
     _exception o' = Some (ConnectionObserverTimeout timeout_arg kind passed)).
Proof.
  intros Hd. rewrite time_out_observer_not_done by done. cbn [fst obs].
  destruct (timed_out_observer (obs w) (timeout_exception (obs w) timeout_arg kind passed) Hd)
    as (Hs & He & _); [apply is_timeout_exception_timeout_exception|].
  split; [done|]. rewrite He. unfold timeout_exception, is_command, has_command_string.
  by destruct (command_string (obs w)).
Qed.

Lemma time_out_observer_exception_kind_witness :
  done running_command = false
  ∧ _exception (obs (time_out_observer (Some 1%Q) (3 # 2) background_run
                       (world_of running_command RUNNING)).1)
    = Some (CommandTimeout (Some 1%Q) background_run (3 # 2))
  ∧ _exception (obs (time_out_observer (Some 1%Q) (3 # 2) await_done
                       (world_of running_event RUNNING)).1)
    = Some (ConnectionObserverTimeout (Some 1%Q) await_done (3 # 2)).
Proof.
  split; [reflexivity|]. split.
  - apply (time_out_observer_exception_kind (world_of running_command RUNNING));
      reflexivity.
  - apply (time_out_observer_exception_kind (world_of running_event RUNNING));
      reflexivity.
Defined.

(** C5.  The runner's timeout write fires at most once: on an observer that
    is already done, [time_out_observer] changes nothing, writes no exception
    and does not run [on_timeout]; and whatever the interleaving of calls of
    [time_out_observer] with writes of other threads, [on_timeout] runs at
    most once, and not at all once the observer is done. *)
Theorem time_out_observer_fires_at_most_once w timeout_arg passed kind steps w0 steps0 :
  done (obs w) = true →
  time_out_observer timeout_arg passed kind w = (w, inr tt)
  ∧ on_timeout_calls (obs (race steps w)) = on_timeout_calls (obs w)
  ∧ on_timeout_calls (obs (race steps0 w0)) ≤ S (on_timeout_calls (obs w0)).
Proof.
  intros Hd. split; [by apply time_out_observer_done|].
  split; [by apply race_done|apply race_at_most_once].
Qed.

Lemma time_out_observer_fires_at_most_once_witness :
  let w0 := world_of running_command RUNNING in
  let w := race [Other_thread (Env_set_result "pong")] w0 in
  let steps := [Runner_times_out (Some 1%Q) (3 # 2) background_run;
                Runner_times_out (Some 1%Q) 2 await_done] in
  done (obs w) = true
  ∧ status (obs (race steps w)) = done_ok
  ∧ on_timeout_calls (obs (race steps w0)) = 1
  ∧ time_out_observer (Some 1%Q) (3 # 2) background_run w = (w, inr tt)
  ∧ on_timeout_calls (obs (race steps w)) = on_timeout_calls (obs w)
  ∧ on_timeout_calls (obs (race steps w0)) ≤ S (on_timeout_calls (obs w0)).
Proof.
  intros w0 w steps.
  split; [reflexivity|]. split; [reflexivity|]. split; [reflexivity|].
  apply (time_out_observer_fires_at_most_once w (Some 1%Q) (3 # 2) background_run
           steps w0 steps).
  reflexivity.
Defined.

(** *** The guarded receiver *)

Section WithParser.

Variable data_received : ConnectionObserver → Data → ConnectionObserver * option exn.

Lemma secure_data_received_dropped data w :
  done (obs w) || _in_shutdown w = true →
  secure_data_received data_received data w = (w, inr tt).
Proof.
  intros Hdrop.
  unfold secure_data_received, try_except. unfold_M. by rewrite Hdrop.
Qed.

Lemma secure_data_received_passed data w :
  done (obs w) || _in_shutdown w = false →
  secure_data_received data_received data w =
  match (data_received (obs w) data).2 with
  | None =>
      ({| obs := (data_received (obs w) data).1; fut := fut w;
          _in_shutdown := _in_shutdown w;
          trace := trace w ++ [Acquire; Call_data_received data; Release] |}, inr tt)
  | Some exc =>
      ({| obs := set_exception exc (data_received (obs w) data).1; fut := fut w;
          _in_shutdown := _in_shutdown w;
          trace := trace w ++ [Acquire; Call_data_received data; Release;
                               Acquire; Call_set_exception exc; Release] |}, inr tt)
  end.
Proof.
  intros Hpass.
  unfold secure_data_received, try_except, mbind, M_bind, get_obs, get_in_shutdown.
  rewrite Hpass.
  unfold with_lock, call_data_received, call_set_exception, mbind, M_bind, get_obs,
    emit, modify_obs, raise, pass. cbn.
  destruct (data_received (obs w) data) as [o' [exc|]]; cbn;
    by rewrite <- !app_assoc.
Qed.

(** C7.  For every chunk delivered to the guarded receiver
    [secure_data_received]: the call never raises; when the observer is
    already done or the runner is shutting down the chunk is dropped and
    [data_received] is not invoked; otherwise [data_received] runs under the
    observer lock, and an exception it raises is handed, under the lock, to
    the observer's [set_exception], which makes it the terminal exception of
    an observer that is not yet done. *)
Theorem secure_data_received_captures data w :
  let r := secure_data_received data_received data w in
  r.2 = inr tt
  ∧ (done (obs w) || _in_shutdown w = true → r.1 = w)
  ∧ (done (obs w) || _in_shutdown w = false →
     let o' := (data_received (obs w) data).1 in
     match (data_received (obs w) data).2 with
     | None =>
         obs r.1 = o'
         ∧ trace r.1 = trace w ++ [Acquire; Call_data_received data; Release]
     | Some exc =>
         obs r.1 = set_exception exc o'
         ∧ trace r.1 = trace w ++ [Acquire; Call_data_received data; Release;
                                   Acquire; Call_set_exception exc; Release]
         ∧ (done o' = false →
            _exception (obs r.1) = Some exc ∧ done (obs r.1) = true)
     end).
Proof.
  intros r. subst r.
  destruct (done (obs w) || _in_shutdown w) eqn:Hdrop.
  - rewrite secure_data_received_dropped by done. by repeat split.
  - rewrite secure_data_received_passed by done.
    split; [by destruct ((data_received (obs w) data).2)|].
    split; [done|]. intros _ o'.
    destruct ((data_received (obs w) data).2) as [exc|]; cbn; [|done].
    split; [done|]. split; [done|]. intros Hd.
    split; [|apply done_set_exception].
    unfold set_exception. fold o'. by rewrite Hd.
Qed.

End WithParser.

Lemma secure_data_received_captures_witness :
  let w := world_of running_command RUNNING in
  let w_done := race [Other_thread Env_cancel] w in
  (done (obs w_done) || _in_shutdown w_done = true)
  ∧ (secure_data_received failing_parser "x" w_done).1 = w_done
  ∧ (done (obs w) || _in_shutdown w = false)
  ∧ (secure_data_received failing_parser "x" w).2 = inr tt
  ∧ _exception (obs (secure_data_received failing_parser "x" w).1)
    = Some (UserException 1).
Proof.
  intros w w_done.
  destruct (secure_data_received_captures failing_parser "x" w_done) as (_ & Hdrop & _).
  destruct (secure_data_received_captures failing_parser "x" w) as (Hret & _ & Hpass).
  split; [reflexivity|]. split; [apply Hdrop; reflexivity|].
  split; [reflexivity|]. split; [exact Hret|].
  apply Hpass; reflexivity.
Defined.

(** *** CancellableFuture *)

Lemma cancel_not_running no_wait stops_after w :
  future_running (fut w) = false →
  cancel no_wait stops_after w = Future_cancel w.
Proof.
  intros Hr. unfold cancel. unfold_M. by rewrite Hr.
Qed.

(** On a handle whose future is not running, [cancel] leaves the stop flag
    alone. *)
Lemma cancel_not_running_stop_flag no_wait stops_after w :
  future_running (fut w) = false →
  _stop_running (fut (cancel no_wait stops_after w).1) = _stop_running (fut w)
  ∧ trace (cancel no_wait stops_after w).1 = trace w.
Proof.
  intros Hr. rewrite cancel_not_running by done.
  unfold Future_cancel. unfold_M. by destruct (_state (fut w)).
Qed.

Lemma submit_handle now early early_exception w f :
  (submit now early early_exception w).2 = inr f →
  f = CancellableFuture_init early false false default_stop_timeout.
Proof.
  unfold submit, mbind, M_bind, get_obs, get_fut, raise, lift, pass.
  destruct (Qlt_bool 0 (start_time (obs w))); [|done].
  destruct (his_remaining_time now (obs w) (timeout (obs w))) as [e|rt]; [done|].
  unfold _start_feeding, is_command, has_command_string, mbind, M_bind, get_obs,
    emit, pass. cbn.
  destruct (command_string (obs w)); cbn.
  - destruct (future_done _); [destruct early_exception|]; cbn; congruence.
  - destruct (future_done _); [destruct early_exception|]; cbn; congruence.
Qed.

(** C6 as it is stated does not hold for every handle.  [submit] returns
    before a worker has picked the future up, so the future is still pending.
    On such a handle [cancel(no_wait=True)] goes straight to [Future.cancel()]
    and never sets the stop flag; and [cancel(no_wait=False)] returns [True]
    without waiting and without raising, although the feed loop, which never
    runs, does not set the done flag within [stop_timeout]. *)
Lemma cancel_no_wait_on_pending_handle_sets_no_stop_flag :
  let w := (submit 100 PENDING None (world_of running_command PENDING)).1 in
  (submit 100 PENDING None (world_of running_command PENDING)).2 = inr (fut w)
  ∧ (cancel true None w).2 = inr true
  ∧ _stop_running (fut (cancel true None w).1) = false
  ∧ feed_stops_within (fut w) None = false
  ∧ (cancel false None w).2 = inr true
  ∧ trace (cancel false None w).1 = trace w.
Proof. by vm_compute. Qed.

(** C6, amended.  For every submission handle whose future is running:
    [cancel(no_wait=True)] sets the stop flag and returns at once, without
    waiting; [cancel(no_wait=False)] sets the stop flag and waits for the
    feed loop's done flag with the handle's [stop_timeout] as bound; if the
    done flag is not set within that bound it raises [MolerException] (the
    InternalError of the error taxonomy), otherwise the future ends up
    cancelled.  The [stop_timeout] of a handle returned by [submit] is the
    default of 0.5 seconds. *)
Theorem cancel_running_handle w stops_after now early early_exception w0 f :
  future_running (fut w) = true →
  (submit now early early_exception w0).2 = inr f →
  cancel true stops_after w =
    ({| obs := obs w; fut := set_stop_running (fut w);
        _in_shutdown := _in_shutdown w;
        trace := trace w ++ [Set_stop_running] |}, inr true)
  ∧ (let r := cancel false stops_after w in
     _stop_running (fut r.1) = true
     ∧ trace r.1 = trace w ++ [Set_stop_running; Wait_is_done (_stop_timeout (fut w))]
     ∧ (feed_stops_within (fut w) stops_after = false →
        r.2 = inl (MolerException (_stop_timeout (fut w))))
     ∧ (feed_stops_within (fut w) stops_after = true →
        r.2 = inr true ∧ _state (fut r.1) = CANCELLED))
  ∧ (_stop_timeout f == 1 # 2)%Q.
Proof.
  intros Hrun Hsub. split; [|split].
  - unfold cancel, mbind, M_bind, get_fut. rewrite Hrun.
    unfold _stop, mbind, M_bind, emit, modify_fut, pass. by cbn.
  - unfold cancel, mbind, M_bind, get_fut. rewrite Hrun.
    unfold _stop, wait_is_done, mbind, M_bind, emit, modify_fut, get_fut, raise, pass,
      feed_stops_within.
    cbn. destruct (_is_done (fut w)) eqn:Hdone; cbn.
    + rewrite <- app_assoc. by repeat split.
    + destruct stops_after as [d|]; cbn.
      * destruct (Qle_bool d (_stop_timeout (fut w))) eqn:Hle; cbn;
          rewrite <- app_assoc; by repeat split.
      * rewrite <- app_assoc. by repeat split.
  - apply submit_handle in Hsub. by subst f.
Qed.

Lemma cancel_running_handle_witness :
  let w0 := world_of running_command PENDING in
  let w := (submit 100 RUNNING None w0).1 in
  future_running (fut w) = true
  ∧ (submit 100 RUNNING None w0).2 = inr (fut w)
  ∧ feed_stops_within (fut w) (Some (3 # 4)%Q) = false
  ∧ (cancel true (Some (3 # 4)%Q) w).2 = inr true
  ∧ (cancel false (Some (3 # 4)%Q) w).2 = inl (MolerException (1 # 2)%Q)
  ∧ (cancel false (Some (1 # 4)%Q) w).2 = inr true.
Proof.
  intros w0 w.
  destruct (cancel_running_handle w (Some (3 # 4)%Q) 100 RUNNING None w0 (fut w))
    as (Hnw & (_ & _ & Hlate & _) & _); [reflexivity..|].
  destruct (cancel_running_handle w (Some (1 # 4)%Q) 100 RUNNING None w0 (fut w))
    as (_ & (_ & _ & _ & Hintime) & _); [reflexivity..|].
  split; [reflexivity|]. split; [reflexivity|]. split; [reflexivity|].
  split; [by rewrite Hnw|]. split; [by apply Hlate|].
  by apply Hintime.
Defined.

(** *** The feed loop *)

Lemma Qle_bool_deadline (t now st : Q) :
  Qle_bool t (now - st) = true ↔ (st + t <= now)%Q.
Proof. rewrite Qle_bool_iff. split; intros H; lra. Qed.

Lemma Qle_bool_before_deadline (t now st : Q) :
  Qle_bool t (now - st) = false ↔ (now < st + t)%Q.
Proof.
  rewrite <- not_true_iff_false, Qle_bool_iff. split; intros H; lra.
Qed.

Lemma time_out_observer_returns timeout_arg passed kind w :
  (time_out_observer timeout_arg passed kind w).2 = inr tt.
Proof.
  destruct (done (obs w)) eqn:Hd.
  - by rewrite time_out_observer_done.
  - by rewrite time_out_observer_not_done.
Qed.

Lemma locked_time_out_done run_duration w :
  done (obs w) = true →
  locked_time_out run_duration w =
  ({| obs := obs w; fut := fut w; _in_shutdown := _in_shutdown w;
      trace := trace w ++ [Acquire; Release] |}, inr tt).
Proof.
  intros Hd. unfold locked_time_out, with_lock, mbind, M_bind, get_obs, emit. cbn.
  rewrite time_out_observer_done by done. cbn. by rewrite <- app_assoc.
Qed.

Lemma locked_time_out_not_done run_duration w :
  done (obs w) = false →
  locked_time_out run_duration w =
  let e := timeout_exception (obs w) (timeout (obs w)) background_run run_duration in
  ({| obs := on_timeout (set_exception e (obs w)); fut := fut w;
      _in_shutdown := _in_shutdown w;
      trace := trace w ++ [Acquire; Call_set_exception e; Call_on_timeout; Release] |},
   inr tt).
Proof.
  intros Hd. unfold locked_time_out, with_lock, mbind, M_bind, get_obs, emit. cbn.
  rewrite time_out_observer_not_done by done. cbn. by rewrite <- !app_assoc.
Qed.

(** One round of the loop. *)
Lemma _feed_loop_from_cons st tk ticks w :
  _feed_loop_from st (tk :: ticks) w =
  let w1 := (interfere (tick_before tk) w).1 in
  if _stop_running (fut w1) then (w1, inr (Some tt))
  else if done (obs w1) then (w1, inr (Some tt))
  else if match timeout (obs w1) with
          | Some t => Qle_bool t (tick_now tk - st)
          | None => false
          end
  then ((locked_time_out (tick_now tk - st) (interfere (tick_race tk) w1).1).1,
        inr (Some tt))
  else _feed_loop_from st ticks
         {| obs := if _in_shutdown w1 then cancel_observer (obs w1) else obs w1;
            fut := fut w1; _in_shutdown := _in_shutdown w1;
            trace := trace w1 ++ (if _in_shutdown w1 then [Call_cancel] else [])
                     ++ [Sleep feed_tick] |}.
Proof.
  remember (locked_time_out (tick_now tk - st)) as L eqn:HL.
  cbn [_feed_loop_from]. unfold mbind at 1, M_bind at 1.
  pose proof (interfere_returns (tick_before tk) w) as Hr.
  destruct (interfere (tick_before tk) w) as [w1 r1]. cbn in Hr. subst r1. cbn [fst].
  unfold mbind at 1, M_bind at 1, get_fut at 1. cbn.
  destruct (_stop_running (fut w1)); [done|].
  unfold mbind at 1, M_bind at 1, get_obs at 1. cbn.
  destruct (done (obs w1)); [done|].
  destruct (match timeout (obs w1) with
            | Some t => Qle_bool t (tick_now tk - st)
            | None => false
            end).
  - unfold mbind at 1, M_bind at 1.
    pose proof (interfere_returns (tick_race tk) w1) as Hr.
    destruct (interfere (tick_race tk) w1) as [w2 r2]. cbn in Hr. subst r2. cbn [fst].
    unfold mbind at 1, M_bind at 1. fold (locked_time_out (tick_now tk - st)).
    subst L.
    destruct (done (obs w2)) eqn:Hd.
    + by rewrite locked_time_out_done.
    + by rewrite locked_time_out_not_done.
  - unfold mbind at 1, M_bind at 1, get_in_shutdown at 1. cbn.
    destruct (_in_shutdown w1) eqn:Hsh.
    + unfold call_cancel, mbind, M_bind, emit, modify_obs. cbn.
      rewrite Hsh. by rewrite <- app_assoc.
    + unfold pass, mbind, M_bind, emit. cbn. by rewrite Hsh.
Qed.

Lemma _feed_loop_unfold ticks w :
  _feed_loop ticks w = _feed_loop_from (start_time (obs w)) ticks w.
Proof. done. Qed.

(** A run of [feed]: the parser completes the command during the second
    round, the loop is left on the third, the receiver is unsubscribed and
    [feed_done] is set. *)
Example feed_until_done :
  let w := world_of running_command RUNNING in
  let ticks := [ {| tick_before := []; tick_now := 1001 # 10; tick_race := [] |};
                 {| tick_before := []; tick_now := 1002 # 10; tick_race := [] |};
                 {| tick_before := [Env_set_result "pong"]; tick_now := 1003 # 10;
                    tick_race := [] |} ] in
  let r := feed true 100 ticks (1003 # 10) w in
  r.2 = inr (Some tt)
  ∧ trace r.1 = [Sleep feed_tick; Sleep feed_tick; Sleep feed_tick; Unsubscribe]
  ∧ _is_done (fut r.1) = true
  ∧ status (obs r.1) = done_ok.
Proof. cbv zeta. by repeat split. Qed.

(** With the runner in shutdown the loop cancels the observer and is left on
    the next round. *)
Example feed_loop_in_shutdown :
  let w := world_of running_command RUNNING in
  let ticks := [ {| tick_before := [Env_shutdown]; tick_now := 1001 # 10; tick_race := [] |};
                 {| tick_before := []; tick_now := 1002 # 10; tick_race := [] |} ] in
  let r := _feed_loop ticks w in
  r.2 = inr (Some tt)
  ∧ trace r.1 = [Call_cancel; Sleep feed_tick]
  ∧ status (obs r.1) = cancelled.
Proof. cbv zeta. by repeat split. Qed.

(** C8.  On every round the feed loop reads the observer's timeout afresh,
    so the deadline in force is [start_time] plus the current value [t] of
    the timeout, whatever it was before.  For a running observer whose feed
    loop has not been told to stop: if [start_time + t <= now], because the
    timeout was lowered below the run duration or because time went by, the
    loop ends on this round and times the observer out under the observer
    lock; if [now < start_time + t], for instance because the timeout was
    raised, the round writes no timeout and the loop goes on. *)
Theorem feed_loop_rereads_timeout tk ticks w t :
  let st := start_time (obs w) in
  let w1 := (interfere (tick_before tk) w).1 in
  let w2 := (interfere (tick_race tk) w1).1 in
  _stop_running (fut w1) = false →
  done (obs w1) = false →
  timeout (obs w1) = Some t →
  ((st + t <= tick_now tk)%Q →
     let r := _feed_loop (tk :: ticks) w in
     let e := timeout_exception (obs w2) (timeout (obs w2)) background_run
                (tick_now tk - st)%Q in
     r.2 = inr (Some tt)
     ∧ (done (obs w2) = false →
        obs r.1 = on_timeout (set_exception e (obs w2))
        ∧ status (obs r.1) = timed_out
        ∧ _exception (obs r.1) = Some e
        ∧ trace r.1 = trace w ++ [Acquire; Call_set_exception e; Call_on_timeout; Release])
     ∧ (done (obs w2) = true →
        obs r.1 = obs w2 ∧ trace r.1 = trace w ++ [Acquire; Release]))
  ∧ ((tick_now tk < st + t)%Q →
     ∃ w', _feed_loop (tk :: ticks) w = _feed_loop_from st ticks w'
           ∧ obs w' = (if _in_shutdown w1 then cancel_observer (obs w1) else obs w1)
           ∧ fut w' = fut w1
           ∧ trace w' = trace w ++ (if _in_shutdown w1 then [Call_cancel] else [])
                        ++ [Sleep feed_tick]).
Proof.
  intros st w1 w2 Hstop Hd Ht.
  rewrite _feed_loop_unfold, _feed_loop_from_cons. fold st. cbv zeta. fold w1.
  rewrite Hstop, Hd, Ht. split.
  - intros Hexp. apply Qle_bool_deadline in Hexp. rewrite Hexp. fold w2.
    assert (trace w2 = trace w) as Htr.
    { subst w2 w1. by rewrite !interfere_trace. }
    split; [done|]. split.
    + intros Hd2. rewrite locked_time_out_not_done by done. cbn. rewrite Htr.
      destruct (timed_out_observer (obs w2)
                  (timeout_exception (obs w2) (timeout (obs w2)) background_run
                     (tick_now tk - st)) Hd2)
        as (Hs & He & _); [apply is_timeout_exception_timeout_exception|].
      done.
    + intros Hd2. rewrite locked_time_out_done by done. cbn. by rewrite Htr.
  - intros Hlt. apply Qle_bool_before_deadline in Hlt. rewrite Hlt.
    eexists. split; [reflexivity|]. cbn.
    split; [done|]. split; [done|].
    subst w1. by rewrite interfere_trace.
Qed.

Lemma feed_loop_rereads_timeout_witness :
  let w := world_of running_command RUNNING in
  let lowered := {| tick_before := [Env_set_timeout (Some (1 # 2)%Q)];
                    tick_now := 403 # 4; tick_race := [] |} in
  let raised := {| tick_before := [Env_set_timeout (Some 5%Q)];
                   tick_now := 102; tick_race := [] |} in
  timeout (obs w) = Some 1%Q
  ∧ (_feed_loop [lowered] w).2 = inr (Some tt)
  ∧ _exception (obs (_feed_loop [lowered] w).1)
    = Some (CommandTimeout (Some (1 # 2)%Q) background_run ((403 # 4) - 100)%Q)
  ∧ (∃ w', _feed_loop [raised; lowered] w = _feed_loop_from 100 [lowered] w'
           ∧ status (obs w') = running).
Proof.
  intros w lowered raised.
  destruct (feed_loop_rereads_timeout lowered [] w (1 # 2)%Q)
    as [Hlow _]; [reflexivity..|].
  destruct Hlow as (Hret & Hto & _); [cbn; lra|].
  destruct Hto as (_ & _ & Hexc & _); [reflexivity|].
  destruct (feed_loop_rereads_timeout raised [lowered] w 5%Q)
    as [_ Hhigh]; [reflexivity..|].
  destruct Hhigh as (w' & Hgo & Hobs & _); [cbn; lra|].
  split; [reflexivity|]. split; [exact Hret|].
  split; [exact Hexc|].
  exists w'. split; [exact Hgo|]. by rewrite Hobs.
Defined.

(** *** wait_for *)

Lemma his_remaining_time_max now he t :
  ∃ remain, his_remaining_time now he (Some t) = Return remain
            ∧ (remain == Qmax 0 (t - (now - start_time he)))%Q.
Proof.
  unfold his_remaining_time, Qlt_bool. eexists. split; [reflexivity|].
  destruct (Qle_bool 0 (t - (now - start_time he))) eqn:Hle; cbn.
  - apply Qle_bool_iff in Hle. symmetry. by apply Q.max_r.
  - apply not_true_iff_false in Hle. rewrite Qle_bool_iff in Hle.
    symmetry. apply Q.max_l. lra.
Qed.

Lemma cancel_no_wait stops_after w :
  ∃ b, cancel true stops_after w = (after_cancel_no_wait w, inr b).
Proof.
  unfold cancel, after_cancel_no_wait, cancelled_no_wait, mbind, M_bind, get_fut.
  destruct (future_running (fut w)) eqn:Hr.
  - exists true. unfold _stop, mbind, M_bind, emit, modify_fut, pass. by cbn.
  - unfold Future_cancel, mbind, M_bind, get_fut, modify_fut. rewrite app_nil_r.
    destruct w as [o f sh tr]. cbn in *.
    destruct (_state f) eqn:Hs; by eexists.
Qed.

Lemma with_lock_time_out_done timeout_arg passed kind w :
  done (obs w) = true →
  with_lock (time_out_observer timeout_arg passed kind) w =
  (with_trace (trace w ++ [Acquire; Release]) w, inr tt).
Proof.
  intros Hd. unfold with_lock, emit. cbn.
  rewrite time_out_observer_done by done. cbn. unfold with_trace.
  by rewrite <- app_assoc.
Qed.

Lemma with_lock_time_out_not_done timeout_arg passed kind w :
  done (obs w) = false →
  with_lock (time_out_observer timeout_arg passed kind) w =
  let e := timeout_exception (obs w) timeout_arg kind passed in
  ({| obs := on_timeout (set_exception e (obs w)); fut := fut w;
      _in_shutdown := _in_shutdown w;
      trace := trace w ++ [Acquire; Call_set_exception e; Call_on_timeout; Release] |},
   inr tt).
Proof.
  intros Hd. unfold with_lock, emit. cbn.
  rewrite time_out_observer_not_done by done. cbn. by rewrite <- !app_assoc.
Qed.

(** The part of [wait_for] that follows an expired explicit timeout. *)
Lemma wait_for_expired t passed w :
  truthy (Some t) = true →
  (cancel true None
   ≫= λ _ : bool,
     get_obs
     ≫= λ o : ConnectionObserver,
       with_lock (time_out_observer (if truthy (Some t) then Some t else timeout o)
                    passed await_done)
       ≫= λ _ : (), mret (Some ())) w
  = ((with_lock (time_out_observer (Some t) passed await_done)
        (after_cancel_no_wait w)).1, inr (Some tt)).
Proof.
  intros Htr. unfold mbind at 1, M_bind at 1.
  destruct (cancel_no_wait None w) as [b ->].
  unfold mbind at 1, M_bind at 1, get_obs at 1. cbv iota. rewrite Htr.
  unfold mbind at 1, M_bind at 1.
  destruct (done (obs (after_cancel_no_wait w))) eqn:Hd.
  - by rewrite with_lock_time_out_done.
  - by rewrite with_lock_time_out_not_done.
Qed.

(** The writes of other threads do not depend on the trace and leave it
    alone. *)
Lemma env_act_with_trace a tr w :
  env_act a (with_trace tr w) = (with_trace tr (env_act a w).1, inr tt).
Proof. by destruct a. Qed.

Lemma interfere_with_trace acts tr w :
  interfere acts (with_trace tr w) = (with_trace tr (interfere acts w).1, inr tt).
Proof.
  revert w. induction acts as [|a acts IH]; intros w; [done|].
  rewrite !interfere_cons, env_act_with_trace. cbn [fst]. by rewrite IH.
Qed.

(** [wait_for] with an explicit timeout, by cases. *)
Lemma wait_for_explicit w t now0 p polls now_end remain :
  done (obs w) = false → truthy (Some t) = true →
  his_remaining_time now0 (obs w) (Some t) = Return remain →
  wait_for (Some t) now0 (p :: polls) now_end w =
  let passed := (now_end - start_time (obs w))%Q in
  if Qlt_bool 0 remain then
    let w1 := with_trace (trace w ++ [Wait_future remain]) (interfere (poll_env p) w).1 in
    if in_wait_done_set (fut w) then (w1, inr (Some tt))
    else ((with_lock (time_out_observer (Some t) passed await_done)
             (after_cancel_no_wait w1)).1, inr (Some tt))
  else ((with_lock (time_out_observer (Some t) passed await_done)
           (after_cancel_no_wait w)).1, inr (Some tt)).
Proof.
  intros Hd Htr Hrem.
  unfold wait_for, mbind at 1, M_bind at 1, get_obs at 1. rewrite Hd. cbv iota.
  rewrite Htr, Hrem.
  unfold mbind at 1, M_bind at 1, lift at 1. cbv iota beta. unfold Return.
  destruct (Qlt_bool 0 remain) eqn:Hb.
  - unfold mbind at 1, M_bind at 1.
    unfold mbind at 1, M_bind at 1.
    unfold wait_future, mbind at 1, M_bind at 1, emit at 1. cbv iota beta.
    unfold mbind at 1, M_bind at 1, get_fut at 1. cbv iota beta.
    unfold mbind at 1, M_bind at 1. cbn [fut].
    change {| obs := obs w; fut := fut w; _in_shutdown := _in_shutdown w;
              trace := trace w ++ [Wait_future remain] |}
      with (with_trace (trace w ++ [Wait_future remain]) w).
    rewrite interfere_with_trace. cbv zeta. cbv iota beta.
    destruct (in_wait_done_set (fut w)) eqn:Hfd.
    + done.
    + cbn [mret M_ret]. cbv iota beta. by rewrite wait_for_expired.
  - unfold mbind at 1, M_bind at 1. cbn [mret M_ret]. cbv iota beta.
    by rewrite wait_for_expired.
Qed.

Lemma waits_on_future_app tr1 tr2 :
  waits_on_future (tr1 ++ tr2) = waits_on_future tr1 ++ waits_on_future tr2.
Proof. apply omap_app. Qed.

Lemma waits_on_future_after_cancel w :
  waits_on_future (trace (after_cancel_no_wait w)) = waits_on_future (trace w).
Proof.
  unfold after_cancel_no_wait. cbn. rewrite waits_on_future_app.
  destruct (future_running (fut w)); cbn; by rewrite app_nil_r.
Qed.

(** What the timeout write of [wait_for] leaves of the blocking waits. *)
Lemma waits_on_future_with_lock_time_out timeout_arg passed kind w :
  waits_on_future (trace (with_lock (time_out_observer timeout_arg passed kind) w).1)
  = waits_on_future (trace w).
Proof.
  destruct (done (obs w)) eqn:Hd.
  - rewrite with_lock_time_out_done by done. cbn.
    rewrite waits_on_future_app. cbn. by rewrite app_nil_r.
  - rewrite with_lock_time_out_not_done by done. cbn.
    rewrite waits_on_future_app. cbn. by rewrite app_nil_r.
Qed.

(** Without an explicit timeout [wait_for] polls in ticks of 0.1 s against the
    observer's own timeout, and times the observer out once the deadline is
    behind. *)
Example wait_for_polling :
  let w := world_of running_command RUNNING in
  let polls := [ {| poll_env := []; poll_now := 1005 # 10 |};
                 {| poll_env := []; poll_now := 1011 # 10 |} ] in
  let r := wait_for None 100 polls (1012 # 10) w in
  r.2 = inr (Some tt)
  ∧ trace r.1
    = [Wait_future wait_tick; Wait_future wait_tick; Set_stop_running; Acquire;
       Call_set_exception (CommandTimeout (Some 1%Q) await_done ((1012 # 10) - 100)%Q);
       Call_on_timeout; Release]
  ∧ status (obs r.1) = timed_out.
Proof. cbv zeta. by repeat split. Qed.

(** A future that was finished before [wait_for] comes to wait: [wait]
    returns the handle as done, and nothing is written into the observer. *)
Example wait_for_future_done :
  let w := race [Other_thread (Env_future FINISHED)] (world_of slow_command RUNNING) in
  let p := {| poll_env := [Env_set_result "pong"]; poll_now := 103 |} in
  let r := wait_for (Some 10%Q) 100 [p] 103 w in
  r.2 = inr (Some tt)
  ∧ status (obs r.1) = done_ok
  ∧ _result (obs r.1) = Some "pong"
  ∧ trace r.1 = [Wait_future (10 - (100 - 100))%Q].
Proof. cbv zeta. by repeat split. Qed.

(** C3 as it is stated does not hold.  A command with 1 s of its own timeout
    is awaited with an explicit timeout of 10 s while its future is still
    pending (no worker has started the feed loop): [wait_for] waits with a
    bound of 10 s, not of min(10, 1) = 1 s, and it is after those 10 s that it
    cancels the future and writes the timeout.  Nor is the time of the claim
    always waited for before a timeout is declared: a command with 30 s of
    its own is awaited with 10 s and another thread stops its running feed
    loop 2 s into the wait; [wait] returns, the handle is not in [done], and
    [wait_for] writes the timeout of 10 s at 2 s. *)
Lemma wait_for_blocks_for_the_explicit_timeout_only :
  (let w := world_of running_command PENDING in
   let p := {| poll_env := []; poll_now := 110 |} in
   let r := wait_for (Some 10%Q) 100 [p] 110 w in
   done (obs w) = false ∧ truthy (Some 10%Q) = true
   ∧ (∃ blocks described,
       waits_on_future (trace r.1) = [blocks]
       ∧ described_block_time (obs w) 10 100 = Some described
       ∧ (blocks == 10)%Q ∧ (described == 1)%Q ∧ ¬ (blocks == described)%Q)
   ∧ _state (fut r.1) = CANCELLED
   ∧ ∃ passed, _exception (obs r.1) = Some (CommandTimeout (Some 10%Q) await_done passed)
               ∧ (passed == 10)%Q)
  ∧
  (let w := world_of slow_command RUNNING in
   let p := {| poll_env := [Env_stop_feeding; Env_feed_done; Env_future FINISHED];
               poll_now := 102 |} in
   let r := wait_for (Some 10%Q) 100 [p] 102 w in
   done (obs w) = false ∧ truthy (Some 10%Q) = true
   ∧ (∃ described, described_block_time (obs w) 10 100 = Some described
                   ∧ (described == 10)%Q)
   ∧ status (obs r.1) = timed_out
   ∧ ∃ passed, _exception (obs r.1) = Some (CommandTimeout (Some 10%Q) await_done passed)
               ∧ (passed == 2)%Q).
Proof.
  split.
  - cbv zeta. split; [reflexivity|]. split; [reflexivity|]. split; [|split].
    + eexists _, _. split; [vm_compute; reflexivity|].
      split; [vm_compute; reflexivity|].
      split; [reflexivity|]. split; [reflexivity|]. discriminate.
    + reflexivity.
    + eexists. split; [vm_compute; reflexivity|]. reflexivity.
  - cbv zeta. split; [reflexivity|]. split; [reflexivity|]. split; [|split].
    + eexists. split; [vm_compute; reflexivity|]. reflexivity.
    + reflexivity.
    + eexists. split; [vm_compute; reflexivity|]. reflexivity.
Qed.

(** C3, amended.  For every observer that is not yet done, [wait_for] called
    with an explicit timeout [t] makes one wait on the future, bounded by
    what is left of the explicit timeout, [max(0, t - (now - start_time))],
    whatever the observer's own timeout is (and does not wait at all when
    nothing is left).  A handle that [wait] returns as done ends the call
    with nothing written.  Otherwise, and so whenever the time expires with
    the future still not done, the future is cancelled without waiting; a
    timeout is then written into a still not done observer under the
    observer lock, with the explicit timeout and the time passed since the
    start, and an observer that got done in the meantime is left as it
    is. *)
Theorem wait_for_explicit_timeout w t now0 p polls now_end :
  done (obs w) = false →
  truthy (Some t) = true →
  ∃ remain,
    his_remaining_time now0 (obs w) (Some t) = Return remain
    ∧ (remain == Qmax 0 (t - (now0 - start_time (obs w))))%Q
    ∧ let r := wait_for (Some t) now0 (p :: polls) now_end w in
      let blocked := Qlt_bool 0 remain in
      let w1 := if blocked then (interfere (poll_env p) w).1 else w in
      r.2 = inr (Some tt)
      ∧ waits_on_future (trace r.1)
        = waits_on_future (trace w) ++ (if blocked then [remain] else [])
      ∧ (blocked && in_wait_done_set (fut w) = true →
         obs r.1 = obs w1 ∧ fut r.1 = fut w1)
      ∧ (blocked && in_wait_done_set (fut w) = false →
         fut r.1 = cancelled_no_wait (fut w1)
         ∧ (done (obs w1) = true → obs r.1 = obs w1)
         ∧ (done (obs w1) = false →
            let e := timeout_exception (obs w1) (Some t) await_done
                       (now_end - start_time (obs w))%Q in
            status (obs r.1) = timed_out
            ∧ _exception (obs r.1) = Some e
            ∧ ∃ pre, trace r.1
                     = pre ++ [Acquire; Call_set_exception e; Call_on_timeout; Release])).
Proof.
  intros Hd Htr.
  destruct (his_remaining_time_max now0 (obs w) t) as (remain & Hrem & Hmax).
  exists remain. split; [done|]. split; [done|]. cbv zeta.
  rewrite (wait_for_explicit w t now0 p polls now_end remain) by done. cbv zeta.
  destruct (Qlt_bool 0 remain) eqn:Hb; cbn [andb].
  - set (w1 := (interfere (poll_env p) w).1).
    destruct (in_wait_done_set (fut w)) eqn:Hfd; cbn [fst snd].
    + split; [done|]. split.
      { cbn. by rewrite waits_on_future_app. }
      split; [done|]. intros [=].
    + split; [done|]. split.
      { rewrite waits_on_future_with_lock_time_out, waits_on_future_after_cancel.
        cbn. by rewrite waits_on_future_app. }
      split; [intros [=]|]. intros _.
      set (w1' := after_cancel_no_wait (with_trace (trace w ++ [Wait_future remain]) w1)).
      destruct (done (obs w1)) eqn:Hd1.
      * rewrite with_lock_time_out_done by done. split; [done|].
        split; [done|]. intros [=].
      * rewrite with_lock_time_out_not_done by done. split; [done|].
        split; [intros [=]|]. intros _.
        cbn [fst obs trace].
        destruct (timed_out_observer (obs w1)
                    (timeout_exception (obs w1) (Some t) await_done
                       (now_end - start_time (obs w))) Hd1)
          as (Hs & He & _); [apply is_timeout_exception_timeout_exception|].
        split; [done|]. split; [done|]. by eexists.
  - cbn [fst snd]. split; [done|]. split.
    { rewrite waits_on_future_with_lock_time_out, waits_on_future_after_cancel.
      by rewrite app_nil_r. }
    split; [intros [=]|]. intros _.
    rewrite with_lock_time_out_not_done by done. split; [done|].
    split; [by rewrite Hd|]. intros _.
    cbn [fst obs trace].
    destruct (timed_out_observer (obs w)
                (timeout_exception (obs w) (Some t) await_done
                   (now_end - start_time (obs w))) Hd)
      as (Hs & He & _); [apply is_timeout_exception_timeout_exception|].
    split; [done|]. split; [done|]. by eexists.
Qed.

Lemma wait_for_explicit_timeout_witness :
  let w := world_of slow_command RUNNING in
  let p := {| poll_env := []; poll_now := 110 |} in
  done (obs w) = false ∧ truthy (Some 10%Q) = true
  ∧ (wait_for (Some 10%Q) 100 [p] 110 w).2 = inr (Some tt)
  ∧ waits_on_future (trace (wait_for (Some 10%Q) 100 [p] 110 w).1) = [10%Q]
  ∧ _stop_running (fut (wait_for (Some 10%Q) 100 [p] 110 w).1) = true
  ∧ _exception (obs (wait_for (Some 10%Q) 100 [p] 110 w).1)
    = Some (CommandTimeout (Some 10%Q) await_done (110 - 100)%Q).
Proof.
  intros w p.
  destruct (wait_for_explicit_timeout w 10 100 p [] 110)
    as (remain & Hrem & Hmax & Hret & Hwaits & _ & Hexp); [reflexivity..|].
  split; [reflexivity|]. split; [reflexivity|]. split; [exact Hret|].
  injection Hrem as <-.
  split; [exact Hwaits|].
  destruct Hexp as (Hfut & _ & Hto); [reflexivity|].
  destruct Hto as (_ & Hexc & _); [reflexivity|].
  split; [by rewrite Hfut|exact Hexc].
Defined.

End RunnerFacts.

(** ** Runner: further properties *)

Module RunnerMoreFacts.
Import Runner.
Import RunnerFacts.

(** *** his_remaining_time *)

(** With exact arithmetic for the rounding, [his_remaining_time] is the one
    the runner is modelled with. *)
Lemma his_remaining_time_exact now he timeout_arg :
  RunnerFloat.his_remaining_time (λ q, q) now he timeout_arg
  = his_remaining_time now he timeout_arg.
Proof. done. Qed.

Lemma to_multiple_of_4_monotone (x y : Q) :
  (x <= y)%Q → (RunnerFloat.to_multiple_of_4 x <= RunnerFloat.to_multiple_of_4 y)%Q.
Proof.
  intros Hxy. unfold RunnerFloat.to_multiple_of_4.
  assert (Qfloor (x * (1 # 4) + (1 # 2)) <= Qfloor (y * (1 # 4) + (1 # 2)))%Z as Hfl.
  { apply Qfloor_resp_le. lra. }
  rewrite Zle_Qle in Hfl. lra.
Qed.

(** What is left of a lifetime, as the floats give it, rounding included.
    For every rounding that is monotone and keeps 0 and the timeout (as the
    rounding to the nearest double does for a timeout that is a double): the
    value is never negative; it is 0 from the deadline on; it is not above
    a timeout that is not negative once the start is behind; and before the
    deadline it is the
    rounded difference itself, which need not be
    [start_time + timeout - now].  Without a timeout the subtraction raises
    [TypeError]. *)
Theorem his_remaining_time_not_negative (fl : Q → Q) now he t :
  (∀ x y, (x <= y)%Q → (fl x <= fl y)%Q) →
  (fl 0 == 0)%Q →
  (fl t == t)%Q →
  RunnerFloat.his_remaining_time fl now he None = Raise TypeError
  ∧ ∃ remain, RunnerFloat.his_remaining_time fl now he (Some t) = Return remain
              ∧ (0 <= remain)%Q
              ∧ ((start_time he + t <= now)%Q → (remain == 0)%Q)
              ∧ ((start_time he <= now)%Q → (0 <= t)%Q → (remain <= t)%Q)
              ∧ ((now < start_time he + t)%Q →
                 (remain == fl (t - fl (now - start_time he)))%Q).
Proof.
  intros Hmono H0 Ht. split; [done|].
  unfold RunnerFloat.his_remaining_time, Qlt_bool. eexists. split; [reflexivity|].
  set (passed := fl (now - start_time he)%Q).
  set (remain_time := fl (t - passed)%Q).
  assert ((start_time he + t <= now)%Q → (remain_time <= 0)%Q) as Hlate.
  { intros Hdl. assert (t <= passed)%Q as Hp.
    { rewrite <- Ht. apply Hmono. lra. }
    rewrite <- H0. apply Hmono. lra. }
  assert ((start_time he <= now)%Q → (remain_time <= t)%Q) as Hstarted.
  { intros Hst. assert (0 <= passed)%Q as Hp.
    { rewrite <- H0. apply Hmono. lra. }
    rewrite <- Ht. apply Hmono. lra. }
  assert ((now < start_time he + t)%Q → (0 <= remain_time)%Q) as Hearly.
  { intros Hdl. assert (passed <= t)%Q as Hp.
    { rewrite <- Ht. apply Hmono. lra. }
    rewrite <- H0. apply Hmono. lra. }
  destruct (Qle_bool 0 remain_time) eqn:Hle; cbn [negb].
  - apply Qle_bool_iff in Hle. split; [done|]. split; [|split].
    + intros Hdl. specialize (Hlate Hdl). lra.
    + intros Hst _. by apply Hstarted.
    + done.
  - apply not_true_iff_false in Hle. rewrite Qle_bool_iff in Hle.
    split; [lra|]. split; [done|]. split.
    + intros Hst Hpos. lra.
    + intros Hdl. specialize (Hearly Hdl). lra.
Qed.

Lemma his_remaining_time_not_negative_witness :
  let he := running_command in
  (RunnerFloat.to_multiple_of_4 0 == 0)%Q
  ∧ (RunnerFloat.to_multiple_of_4 8 == 8)%Q
  ∧ (∃ remain, RunnerFloat.his_remaining_time RunnerFloat.to_multiple_of_4
                 101 he (Some 8%Q) = Return remain
               ∧ (remain == 8)%Q ∧ ¬ (remain == start_time he + 8 - 101)%Q)
  ∧ ∃ remain, RunnerFloat.his_remaining_time RunnerFloat.to_multiple_of_4
                108 he (Some 8%Q) = Return remain
              ∧ (remain == 0)%Q.
Proof.
  intros he.
  destruct (his_remaining_time_not_negative RunnerFloat.to_multiple_of_4 101 he 8)
    as (_ & r1 & Hr1 & _ & _ & _ & Hearly);
    [apply to_multiple_of_4_monotone|reflexivity|reflexivity|].
  destruct (his_remaining_time_not_negative RunnerFloat.to_multiple_of_4 108 he 8)
    as (_ & r2 & Hr2 & _ & Hlate & _);
    [apply to_multiple_of_4_monotone|reflexivity|reflexivity|].
  split; [reflexivity|]. split; [reflexivity|]. split.
  - exists r1. split; [exact Hr1|]. split.
    + rewrite Hearly by (by vm_compute). reflexivity.
    + rewrite Hearly by (by vm_compute). by vm_compute.
  - exists r2. split; [exact Hr2|]. apply Hlate. vm_compute. discriminate.
Defined.

(** *** wait_for on an observer that is done *)

Lemma wait_for_done_eq w max_timeout now0 polls now_end :
  done (obs w) = true →
  wait_for max_timeout now0 polls now_end w
  = (if future_done (fut w) then w else after_cancel_no_wait w, inr (Some tt)).
Proof.
  intros Hd.
  unfold wait_for, mbind at 1, M_bind at 1, get_obs at 1. rewrite Hd. cbv iota.
  unfold mbind at 1, M_bind at 1, get_fut at 1. cbv iota beta.
  destruct (future_done (fut w)) eqn:Hfd; cbn [negb].
  - done.
  - unfold mbind at 1, M_bind at 1. unfold mbind at 1, M_bind at 1.
    destruct (cancel_no_wait None w) as [b ->]. by cbn.
Qed.

(** Called on an observer that is already done, [wait_for] returns at once:
    it does not block, takes no lock and writes nothing into the observer;
    all it does is to cancel, without waiting, a future that is not done. *)
Theorem wait_for_done_observer w max_timeout now0 polls now_end :
  done (obs w) = true →
  let r := wait_for max_timeout now0 polls now_end w in
  r.2 = inr (Some tt)
  ∧ obs r.1 = obs w
  ∧ fut r.1 = (if future_done (fut w) then fut w else cancelled_no_wait (fut w))
  ∧ trace r.1 = trace w ++ (if future_running (fut w) then [Set_stop_running] else []).
Proof.
  intros Hd r. subst r. rewrite wait_for_done_eq by done. cbn [fst snd].
  destruct (future_done (fut w)) eqn:Hfd.
  - assert (future_running (fut w) = false) as ->.
    { unfold future_running, future_done in *. by destruct (_state (fut w)). }
    by rewrite app_nil_r.
  - done.
Qed.

Lemma wait_for_done_observer_witness :
  let w := race [Other_thread (Env_set_result "pong")] (world_of running_command RUNNING) in
  done (obs w) = true
  ∧ (wait_for (Some 10%Q) 100 [] 110 w).2 = inr (Some tt)
  ∧ status (obs (wait_for (Some 10%Q) 100 [] 110 w).1) = done_ok
  ∧ trace (wait_for (Some 10%Q) 100 [] 110 w).1 = [Set_stop_running].
Proof.
  intros w.
  destruct (wait_for_done_observer w (Some 10%Q) 100 [] 110)
    as (Hret & Hobs & _ & Htr); [reflexivity|].
  split; [reflexivity|]. split; [exact Hret|]. split; [by rewrite Hobs|exact Htr].
Defined.

(** *** submit *)

Lemma Qlt_bool_pos (x : Q) : Qlt_bool 0 x = true ↔ (0 < x)%Q.
Proof.
  unfold Qlt_bool. rewrite negb_true_iff, <- not_true_iff_false, Qle_bool_iff.
  split; intros H; lra.
Qed.






(** *** cancel, twice *)



(** *** The guarded receiver over a stream of chunks *)

Section WithParser.

Variable data_received : ConnectionObserver → Data → ConnectionObserver * option exn.

Lemma deliver_dropped chunks w :
  done (obs w) || _in_shutdown w = true → deliver data_received chunks w = w.
Proof.
  intros Hdrop. unfold deliver. induction chunks as [|d ds IH]; [done|].
  cbn [fold_left]. by rewrite secure_data_received_dropped.
Qed.

Lemma chunks_received_app tr1 tr2 :
  chunks_received (tr1 ++ tr2) = chunks_received tr1 ++ chunks_received tr2.
Proof. apply omap_app. Qed.

Lemma exceptions_set_app tr1 tr2 :
  exceptions_set (tr1 ++ tr2) = exceptions_set tr1 ++ exceptions_set tr2.
Proof. apply omap_app. Qed.

(** Of the chunks of a connection the parser of an observer gets a first part,
    each chunk once and in the order of arrival, and nothing after the
    observer is done or the runner shuts down; in particular at most one
    exception of the parser is ever captured per observer. *)
Theorem deliver_in_order_until_done chunks w :
  (done (obs w) || _in_shutdown w = true → deliver data_received chunks w = w)
  ∧ ∃ n, chunks_received (trace (deliver data_received chunks w))
         = chunks_received (trace w) ++ take n chunks
         ∧ (n < length chunks →
            done (obs (deliver data_received chunks w)) || _in_shutdown w = true)
         ∧ length (exceptions_set (trace (deliver data_received chunks w)))
           ≤ length (exceptions_set (trace w)) + (if done (obs w) then 0 else 1).
Proof.
  split; [apply deliver_dropped|].
  revert w. induction chunks as [|d ds IH]; intros w.
  - exists 0. cbn. rewrite app_nil_r. split; [done|]. split; lia.
  - destruct (done (obs w) || _in_shutdown w) eqn:Hdrop.
    + rewrite deliver_dropped by done. exists 0. cbn. rewrite app_nil_r.
      split; [done|]. split; [done|]. lia.
    + apply orb_false_iff in Hdrop as Hdrop'. destruct Hdrop' as [Hd Hsh].
      rewrite Hd.
      change (deliver data_received (d :: ds) w)
        with (deliver data_received ds (secure_data_received data_received d w).1).
      rewrite secure_data_received_passed by done.
      destruct (data_received (obs w) d) as [o' [exc|]] eqn:Hdr; cbn [fst snd].
      * rewrite deliver_dropped by (cbn; by rewrite done_set_exception).
        exists 1. cbn [trace obs]. rewrite chunks_received_app, exceptions_set_app.
        cbn. rewrite take_0. split; [done|]. split.
        -- intros _. by rewrite done_set_exception.
        -- rewrite length_app. cbn. lia.
      * match goal with |- context [deliver data_received ds ?w1] =>
          destruct (IH w1) as (n & Hrec & Hend & Hexc) end.
        exists (S n). cbn [trace obs _in_shutdown] in *.
        rewrite Hrec, chunks_received_app. cbn. rewrite <- app_assoc. cbn.
        split; [done|]. split.
        -- intros Hlt. apply Hend. lia.
        -- rewrite exceptions_set_app in Hexc. cbn in Hexc. rewrite app_nil_r in Hexc.
           destruct (done o'); lia.
Qed.

End WithParser.

Lemma deliver_in_order_until_done_witness :
  let w := world_of running_command RUNNING in
  let w_done := race [Other_thread Env_cancel] w in
  (done (obs w_done) || _in_shutdown w_done = true)
  ∧ deliver failing_parser ["a"; "b"; "c"] w_done = w_done
  ∧ chunks_received (trace (deliver failing_parser ["a"; "b"; "c"] w)) = ["a"]
  ∧ exceptions_set (trace (deliver failing_parser ["a"; "b"; "c"] w)) = [UserException 1].
Proof.
  intros w w_done.
  destruct (deliver_in_order_until_done failing_parser ["a"; "b"; "c"] w_done) as [Hdrop _].
  split; [reflexivity|]. split; [by apply Hdrop|]. by split.
Defined.

(** *** The feed loop: leaving it *)

Lemma interfere_stop_running acts w :
  _stop_running (fut w) = true → _stop_running (fut (interfere acts w).1) = true.
Proof.
  revert w. induction acts as [|a acts IH]; intros w Hs; [done|].
  rewrite interfere_cons. apply IH. by destruct a.
Qed.

Lemma interfere_done acts w :
  done (obs w) = true →
  done (obs (interfere acts w).1) = true
  ∧ status (obs (interfere acts w).1) = status (obs w).
Proof.
  revert w. induction acts as [|a acts IH]; intros w Hd; [done|].
  rewrite interfere_cons.
  destruct (IH (env_act a w).1) as [Hd' Hs']; [by apply env_act_done|].
  split; [done|]. rewrite Hs'.
  destruct a; cbn; try done.
  - by rewrite set_result_done.
  - by rewrite set_exception_done.
  - by rewrite cancel_observer_done.
Qed.

Lemma interfere_on_timeout_calls acts w :
  on_timeout_calls (obs (interfere acts w).1) = on_timeout_calls (obs w).
Proof.
  revert w. induction acts as [|a acts IH]; intros w; [done|].
  by rewrite interfere_cons, IH, env_act_on_timeout_calls.
Qed.

(** Cancelling is cooperative and takes one round: after
    [cancel(no_wait=True)] on a running handle, whatever other threads write
    in between, the next round of the feed loop leaves the loop, and the loop
    writes nothing into the observer on the way out, not even when the
    deadline is behind or the runner is in shutdown. *)
Theorem feed_loop_after_cancel st tk ticks w stops_after :
  future_running (fut w) = true →
  let wc := (cancel true stops_after w).1 in
  let r := _feed_loop_from st (tk :: ticks) wc in
  r = ((interfere (tick_before tk) wc).1, inr (Some tt))
  ∧ trace r.1 = trace w ++ [Set_stop_running]
  ∧ on_timeout_calls (obs r.1) = on_timeout_calls (obs w).
Proof.
  intros Hrun wc r.
  assert (wc = after_cancel_no_wait w) as Hwc.
  { subst wc. by destruct (cancel_no_wait stops_after w) as [b ->]. }
  assert (_stop_running (fut wc) = true) as Hstop.
  { rewrite Hwc. unfold after_cancel_no_wait, cancelled_no_wait. cbn. by rewrite Hrun. }
  assert (r = ((interfere (tick_before tk) wc).1, inr (Some tt))) as Hr.
  { subst r. rewrite _feed_loop_from_cons. cbv zeta.
    by rewrite interfere_stop_running. }
  split; [done|]. rewrite Hr. cbn [fst].
  rewrite interfere_trace, interfere_on_timeout_calls, Hwc.
  unfold after_cancel_no_wait. cbn. by rewrite Hrun.
Qed.

Lemma feed_loop_after_cancel_witness :
  let w := world_of running_command RUNNING in
  let late := {| tick_before := [Env_shutdown]; tick_now := 200; tick_race := [] |} in
  future_running (fut w) = true
  ∧ (_feed_loop_from 100 [late] (cancel true None w).1).2 = inr (Some tt)
  ∧ status (obs (_feed_loop_from 100 [late] (cancel true None w).1).1) = running
  ∧ trace (_feed_loop_from 100 [late] (cancel true None w).1).1 = [Set_stop_running].
Proof.
  intros w late.
  destruct (feed_loop_after_cancel 100 late [] w None) as (Hr & Htr & _); [reflexivity|].
  split; [reflexivity|]. split; [by rewrite Hr|]. split; [by rewrite Hr|exact Htr].
Defined.

(** In shutdown the loop cancels instead of timing out: a round that finds
    the runner in shutdown, with the observer neither done nor past its
    deadline, cancels the observer, and the loop is left on the round after;
    [on_timeout] is not run. *)
Theorem feed_loop_in_shutdown_cancels st tk tk2 ticks w :
  let w1 := (interfere (tick_before tk) w).1 in
  _stop_running (fut w1) = false →
  done (obs w1) = false →
  match timeout (obs w1) with
  | Some t => (tick_now tk < st + t)%Q
  | None => True
  end →
  _in_shutdown w1 = true →
  let r := _feed_loop_from st (tk :: tk2 :: ticks) w in
  r.2 = inr (Some tt)
  ∧ status (obs r.1) = cancelled
  ∧ on_timeout_calls (obs r.1) = on_timeout_calls (obs w)
  ∧ trace r.1 = trace w ++ [Call_cancel; Sleep feed_tick].
Proof.
  intros w1 Hstop Hd Hfresh Hsh r.
  assert (match timeout (obs w1) with
          | Some t => Qle_bool t (tick_now tk - st)
          | None => false
          end = false) as Hexp.
  { destruct (timeout (obs w1)); [|done]. by apply Qle_bool_before_deadline. }
  set (w' := {| obs := cancel_observer (obs w1); fut := fut w1; _in_shutdown := true;
                trace := trace w1 ++ [Call_cancel] ++ [Sleep feed_tick] |}).
  assert (_feed_loop_from st (tk :: tk2 :: ticks) w = _feed_loop_from st (tk2 :: ticks) w')
    as Hround.
  { rewrite _feed_loop_from_cons. cbv zeta. fold w1. by rewrite Hstop, Hd, Hexp, Hsh. }
  assert (done (obs w') = true ∧ status (obs w') = cancelled) as [Hd' Hs'].
  { unfold w', cancel_observer, done in *. cbn. rewrite Hd. by cbn. }
  destruct (interfere_done (tick_before tk2) w' Hd') as [Hd2 Hs2].
  assert (r = ((interfere (tick_before tk2) w').1, inr (Some tt))) as Hr.
  { subst r. rewrite Hround, _feed_loop_from_cons. cbv zeta. rewrite Hd2.
    by destruct (_stop_running (fut (interfere (tick_before tk2) w').1)). }
  rewrite Hr. cbn [fst snd]. split; [done|]. split; [by rewrite Hs2|].
  rewrite interfere_on_timeout_calls, interfere_trace. subst w' w1. cbn.
  rewrite interfere_trace. split; [|done].
  unfold cancel_observer. destruct (done _); cbn; apply interfere_on_timeout_calls.
Qed.

Lemma feed_loop_in_shutdown_cancels_witness :
  let w := world_of slow_command RUNNING in
  let tk := {| tick_before := [Env_shutdown]; tick_now := 101; tick_race := [] |} in
  let r := _feed_loop_from 100 [tk; quiet_tick 102; quiet_tick 103] w in
  r.2 = inr (Some tt) ∧ status (obs r.1) = cancelled
  ∧ trace r.1 = [Call_cancel; Sleep feed_tick].
Proof.
  intros w tk r.
  destruct (feed_loop_in_shutdown_cancels 100 tk (quiet_tick 102) [quiet_tick 103] w)
    as (Hret & Hst & _ & Htr); [reflexivity|reflexivity|by vm_compute|reflexivity|].
  split; [exact Hret|]. split; [exact Hst|exact Htr].
Defined.

(** An observer without timeout is never timed out by the feed loop: as long
    as nobody completes it, asks the loop to stop or shuts the runner down,
    the loop goes round and round, whatever the clock says. *)
Theorem feed_loop_without_timeout st nows w :
  timeout (obs w) = None →
  done (obs w) = false →
  _stop_running (fut w) = false →
  _in_shutdown w = false →
  _feed_loop_from st (map quiet_tick nows) w
  = (with_trace (trace w ++ repeat (Sleep feed_tick) (length nows)) w, inr None).
Proof.
  revert w. induction nows as [|now nows IH]; intros w Hnone Hd Hstop Hsh.
  - cbn. rewrite app_nil_r. by destruct w.
  - cbn [map]. rewrite _feed_loop_from_cons. cbn [quiet_tick tick_before interfere].
    cbv zeta. cbn [pass mret M_ret fst]. rewrite Hstop, Hd, Hnone, Hsh.
    rewrite IH by done. cbn. unfold with_trace. cbn.
    by rewrite Hsh, <- app_assoc.
Qed.

Lemma feed_loop_without_timeout_witness :
  let w := world_of (set_timeout None running_command) RUNNING in
  timeout (obs w) = None
  ∧ _feed_loop_from 100 (map quiet_tick [101; 1000; 1000000]%Q) w
    = (with_trace [Sleep feed_tick; Sleep feed_tick; Sleep feed_tick] w, inr None).
Proof.
  intros w. split; [reflexivity|].
  by apply (feed_loop_without_timeout 100 [101; 1000; 1000000]%Q w).
Defined.

(** *** wait_for without an explicit timeout *)

Lemma wait_future_eq secs p w :
  wait_future secs p w =
  (with_trace (trace w ++ [Wait_future secs]) (interfere (poll_env p) w).1,
   inr (in_wait_done_set (fut w))).
Proof.
  unfold wait_future, mbind at 1, M_bind at 1, emit at 1. cbv iota beta.
  unfold mbind at 1, M_bind at 1, get_fut at 1. cbv iota beta.
  unfold mbind at 1, M_bind at 1. cbn [fut].
  change {| obs := obs w; fut := fut w; _in_shutdown := _in_shutdown w;
            trace := trace w ++ [Wait_future secs] |}
    with (with_trace (trace w ++ [Wait_future secs]) w).
  by rewrite interfere_with_trace.
Qed.

(** The part of [wait_for] that follows the waiting when the time ran out. *)
Lemma wait_for_tail tv passed w :
  (cancel true None
   ≫= λ _ : bool,
     get_obs
     ≫= λ o : ConnectionObserver,
       with_lock (time_out_observer (if truthy tv then tv else timeout o)
                    passed await_done)
       ≫= λ _ : (), mret (Some ())) w
  = ((with_lock (time_out_observer (if truthy tv then tv else timeout (obs w))
                   passed await_done)
        (after_cancel_no_wait w)).1, inr (Some tt)).
Proof.
  unfold mbind at 1, M_bind at 1.
  destruct (cancel_no_wait None w) as [b ->].
  unfold mbind at 1, M_bind at 1, get_obs at 1. cbv iota.
  unfold mbind at 1, M_bind at 1.
  change (obs (after_cancel_no_wait w)) with (obs w).
  destruct (done (obs (after_cancel_no_wait w))) eqn:Hd.
  - by rewrite with_lock_time_out_done.
  - by rewrite with_lock_time_out_not_done.
Qed.

(** [wait_for] on the polling branch, by cases. *)
Lemma wait_for_polling_eq mt now0 polls now_end w :
  done (obs w) = false → truthy mt = false →
  wait_for mt now0 polls now_end w =
  match his_remaining_time now0 (obs w) (timeout (obs w)) with
  | inl e => (w, inl e)
  | inr remain =>
      match poll_loop (start_time (obs w)) mt remain polls w with
      | (w1, inl e) => (w1, inl e)
      | (w1, inr Script_ended) => (w1, inr None)
      | (w1, inr Future_done) => (w1, inr (Some tt))
      | (w1, inr (Expired tv)) =>
          ((with_lock (time_out_observer (if truthy tv then tv else timeout (obs w1))
                         (now_end - start_time (obs w)) await_done)
              (after_cancel_no_wait w1)).1, inr (Some tt))
      end
  end.
Proof.
  intros Hd Htr.
  unfold wait_for, mbind at 1, M_bind at 1, get_obs at 1. rewrite Hd. cbv iota.
  rewrite Htr.
  unfold mbind at 1, M_bind at 1, lift at 1. cbv iota beta.
  destruct (his_remaining_time now0 (obs w) (timeout (obs w))) as [e|remain]; [done|].
  unfold mbind at 1, M_bind at 1.
  destruct (poll_loop (start_time (obs w)) mt remain polls w) as [w1 [e|[|tv|]]];
    [done|done| |done].
  cbv iota beta. by rewrite wait_for_tail.
Qed.

Lemma poll_loop_falsy st tv remain polls w :
  poll_loop st tv remain polls w = poll_loop st None remain polls w
  ∨ (poll_loop st tv remain polls w = (w, inr (Expired tv))
     ∧ poll_loop st None remain polls w = (w, inr (Expired None))).
Proof.
  destruct polls as [|p polls]; cbn [poll_loop]; destruct (Qlt_bool 0 remain);
    (by left) || (by right).
Qed.

(** An explicit timeout that is false as a truth value, [0.0] above all, is
    no timeout of zero seconds: [wait_for] treats it as no explicit timeout
    at all, waits in ticks for the observer's own timeout and reports that
    one when it fires. *)
Theorem wait_for_falsy_timeout mt now0 polls now_end w :
  truthy mt = false →
  wait_for mt now0 polls now_end w = wait_for None now0 polls now_end w.
Proof.
  intros Htr. destruct (done (obs w)) eqn:Hd.
  - by rewrite !wait_for_done_eq.
  - rewrite (wait_for_polling_eq mt), (wait_for_polling_eq None) by done.
    destruct (his_remaining_time now0 (obs w) (timeout (obs w))) as [e|remain]; [done|].
    destruct (poll_loop_falsy (start_time (obs w)) mt remain polls w) as [-> | [-> ->]];
      [done|].
    by rewrite Htr.
Qed.

Lemma wait_for_falsy_timeout_witness :
  let w := world_of running_command RUNNING in
  let polls := [ {| poll_env := []; poll_now := 1005 # 10 |};
                 {| poll_env := []; poll_now := 1011 # 10 |} ] in
  truthy (Some 0%Q) = false
  ∧ wait_for (Some 0%Q) 100 polls 102 w = wait_for None 100 polls 102 w
  ∧ _exception (obs (wait_for (Some 0%Q) 100 polls 102 w).1)
    = Some (CommandTimeout (Some 1%Q) await_done 2).
Proof.
  intros w polls. split; [reflexivity|].
  split; [by apply (wait_for_falsy_timeout (Some 0%Q) 100 polls 102 w)|].
  by vm_compute.
Defined.

Lemma poll_loop_waits polls st tv remain w :
  ∃ n, n ≤ length polls
       ∧ waits_on_future (trace (poll_loop st tv remain polls w).1)
         = waits_on_future (trace w) ++ repeat wait_tick n.
Proof.
  revert tv remain w. induction polls as [|p polls IH]; intros tv remain w.
  - exists 0. split; [done|]. cbn. by rewrite app_nil_r.
  - cbn [poll_loop]. destruct (Qlt_bool 0 remain).
    + unfold mbind at 1, M_bind at 1. rewrite wait_future_eq.
      set (w1 := with_trace _ _).
      assert (waits_on_future (trace w1) = waits_on_future (trace w) ++ [wait_tick])
        as Hw1.
      { subst w1. cbn. by rewrite waits_on_future_app. }
      destruct (in_wait_done_set (fut w)).
      * exists 1. cbn [length]. split; [lia|].
        cbn [mret M_ret fst]. by rewrite Hw1.
      * unfold mbind at 1, M_bind at 1, get_obs at 1. cbv iota beta.
        destruct (timeout (obs w1)) as [t|].
        -- destruct (IH (Some t) (t - (poll_now p - st))%Q w1) as (n & Hn & Hwaits).
           exists (S n). cbn [length]. split; [lia|].
           rewrite Hwaits, Hw1, <- app_assoc. done.
        -- exists 1. cbn [length]. split; [lia|].
           unfold raise. cbn [fst]. by rewrite Hw1.
    + exists 0. split; [cbn; lia|]. cbn. by rewrite app_nil_r.
Qed.

(** Without an explicit timeout [wait_for] never blocks for longer than a
    tick at a time: every wait on the future is bounded by [wait_tick], 0.1 s,
    and there is at most one per return of [wait]. *)
Theorem wait_for_polls_in_ticks mt now0 polls now_end w :
  truthy mt = false →
  ∃ n, n ≤ length polls
       ∧ waits_on_future (trace (wait_for mt now0 polls now_end w).1)
         = waits_on_future (trace w) ++ repeat wait_tick n.
Proof.
  intros Htr. destruct (done (obs w)) eqn:Hd.
  - exists 0. split; [lia|]. rewrite wait_for_done_eq by done. cbn [fst repeat].
    rewrite app_nil_r.
    destruct (future_done (fut w)); [done|apply waits_on_future_after_cancel].
  - rewrite wait_for_polling_eq by done.
    destruct (his_remaining_time now0 (obs w) (timeout (obs w))) as [e|remain].
    { exists 0. split; [lia|]. cbn. by rewrite app_nil_r. }
    destruct (poll_loop_waits polls (start_time (obs w)) mt remain w) as (n & Hn & Hwaits).
    exists n. split; [done|].
    destruct (poll_loop (start_time (obs w)) mt remain polls w) as [w1 [e|[|tv|]]];
      cbn [fst] in *; try done.
    by rewrite waits_on_future_with_lock_time_out, waits_on_future_after_cancel.
Qed.

Lemma wait_for_polls_in_ticks_witness :
  let w := world_of running_command RUNNING in
  let polls := [ {| poll_env := []; poll_now := 1005 # 10 |};
                 {| poll_env := []; poll_now := 1011 # 10 |};
                 {| poll_env := []; poll_now := 1020 # 10 |} ] in
  truthy None = false
  ∧ waits_on_future (trace (wait_for None 100 polls 102 w).1) = [wait_tick; wait_tick].
Proof.
  intros w polls. split; [reflexivity|].
  destruct (wait_for_polls_in_ticks None 100 polls 102 w) as (n & _ & Hwaits);
    [reflexivity|].
  by vm_compute.
Defined.

(** *** wait_for and the feed loop *)

Lemma his_remaining_time_positive now he t :
  (now < start_time he + t)%Q →
  ∃ remain, his_remaining_time now he (Some t) = Return remain
            ∧ Qlt_bool 0 remain = true.
Proof.
  intros Hlt. unfold his_remaining_time. eexists. split; [reflexivity|].
  assert (Qlt_bool (t - (now - start_time he)) 0 = false) as ->.
  { unfold Qlt_bool. apply negb_false_iff, Qle_bool_iff. lra. }
  apply Qlt_bool_pos. lra.
Qed.

(** A timeout written by [wait_for] is not written again by the feed loop:
    when the wait of [wait_for] with an explicit timeout ends on a future
    that had not finished when it began (as one that is still not done has
    not) and on an observer that is not done, the observer gets the timeout
    exception and [on_timeout] runs once; the feed loop then leaves on its
    next round and touches neither the observer nor the lock, however late
    the clock. *)
Theorem wait_for_timeout_not_repeated w t now0 p polls now_end tk ticks :
  done (obs w) = false → truthy (Some t) = true →
  (now0 < start_time (obs w) + t)%Q →
  let wi := (interfere (poll_env p) w).1 in
  in_wait_done_set (fut w) = false → done (obs wi) = false →
  let wa := (wait_for (Some t) now0 (p :: polls) now_end w).1 in
  let r := _feed_loop (tk :: ticks) wa in
  r.2 = inr (Some tt)
  ∧ status (obs r.1) = timed_out
  ∧ on_timeout_calls (obs r.1) = S (on_timeout_calls (obs w))
  ∧ exceptions_set (trace r.1)
    = exceptions_set (trace w)
      ++ [timeout_exception (obs wi) (Some t) await_done (now_end - start_time (obs w))]
  ∧ trace r.1 = trace wa.
Proof.
  intros Hd Htr Hlt wi Hfd Hdi wa r.
  destruct (his_remaining_time_positive now0 (obs w) t Hlt) as (remain & Hrem & Hpos).
  set (e := timeout_exception (obs wi) (Some t) await_done (now_end - start_time (obs w))).
  destruct (timed_out_observer (obs wi) e Hdi) as (Hst & _ & Hcalls & Hdone).
  { apply is_timeout_exception_timeout_exception. }
  assert (wa = {| obs := on_timeout (set_exception e (obs wi));
                  fut := cancelled_no_wait (fut wi);
                  _in_shutdown := _in_shutdown wi;
                  trace := ((trace w ++ [Wait_future remain])
                            ++ (if future_running (fut wi) then [Set_stop_running] else []))
                           ++ [Acquire; Call_set_exception e; Call_on_timeout; Release] |})
    as Hwa.
  { subst wa. rewrite (wait_for_explicit w t now0 p polls now_end remain) by done.
    cbv zeta. rewrite Hpos. fold wi. rewrite Hfd.
    by rewrite with_lock_time_out_not_done. }
  assert (done (obs wa) = true) as Hda by (by rewrite Hwa).
  destruct (interfere_done (tick_before tk) wa Hda) as [Hd2 Hs2].
  assert (r = ((interfere (tick_before tk) wa).1, inr (Some tt))) as Hr.
  { subst r. rewrite _feed_loop_unfold, _feed_loop_from_cons. cbv zeta. rewrite Hd2.
    by destruct (_stop_running (fut (interfere (tick_before tk) wa).1)). }
  rewrite Hr. cbn [fst snd]. split; [done|].
  rewrite Hs2, interfere_on_timeout_calls, interfere_trace.
  split; [by rewrite Hwa|]. split.
  { rewrite Hwa. cbn [obs]. rewrite Hcalls. subst wi.
    by rewrite interfere_on_timeout_calls. }
  split; [|done].
  rewrite Hwa. cbn [trace]. rewrite !exceptions_set_app. cbn.
  destruct (future_running (fut wi)); cbn; by rewrite !app_nil_r.
Qed.

Lemma wait_for_timeout_not_repeated_witness :
  let w := world_of slow_command RUNNING in
  let p := {| poll_env := []; poll_now := 103 |} in
  let late := {| tick_before := []; tick_now := 500; tick_race := [] |} in
  let r := _feed_loop [late] (wait_for (Some 2%Q) 101 [p] 103 w).1 in
  r.2 = inr (Some tt)
  ∧ on_timeout_calls (obs r.1) = 1
  ∧ exceptions_set (trace r.1) = [CommandTimeout (Some 2%Q) await_done 3].
Proof.
  intros w p late r.
  destruct (wait_for_timeout_not_repeated w 2 101 p [] 103 late [])
    as (Hret & _ & Hcalls & Hexc & _);
    [reflexivity|reflexivity|by vm_compute|reflexivity|reflexivity|].
  split; [exact Hret|]. split; [exact Hcalls|exact Hexc].
Defined.

(** *** feed *)

Lemma _feed_loop_from_left st ticks w w2 :
  _feed_loop_from st ticks w = (w2, inr (Some tt)) →
  _stop_running (fut w2) = true ∨ done (obs w2) = true.
Proof.
  revert w. induction ticks as [|tk ticks IH]; intros w Hloop; [done|].
  rewrite _feed_loop_from_cons in Hloop. cbv zeta in Hloop.
  destruct (_stop_running (fut (interfere (tick_before tk) w).1)) eqn:Hstop.
  { injection Hloop as <-. by left. }
  destruct (done (obs (interfere (tick_before tk) w).1)) eqn:Hd.
  { injection Hloop as <-. by right. }
  destruct (match timeout (obs (interfere (tick_before tk) w).1) with
            | Some t => Qle_bool t (tick_now tk - st)
            | None => false
            end).
  - injection Hloop as <-. right.
    set (wr := (interfere (tick_race tk) (interfere (tick_before tk) w).1).1).
    destruct (done (obs wr)) eqn:Hdr.
    + by rewrite locked_time_out_done.
    + rewrite locked_time_out_not_done by done. cbn.
      apply timed_out_observer; [done|apply is_timeout_exception_timeout_exception].
  - by apply IH in Hloop.
Qed.

(** [feed] cannot start on an observer without timeout: it raises [TypeError]
    before it subscribes or sends anything.  When [feed] returns, the loop
    was left because the observer is done or the handle was asked to stop,
    and by then the receiver has been unsubscribed, as the last thing done to
    the connection, and [feed_done] is set. *)
Theorem feed_unsubscribes subscribed now0 ticks now1 w :
  (timeout (obs w) = None →
   feed subscribed now0 ticks now1 w = (w, inl TypeError))
  ∧ ∀ w', feed subscribed now0 ticks now1 w = (w', inr (Some tt)) →
          (_stop_running (fut w') = true ∨ done (obs w') = true)
          ∧ _is_done (fut w') = true
          ∧ last (trace w') = Some Unsubscribe.
Proof.
  split.
  { intros Hnone. unfold feed, mbind at 1, M_bind at 1, get_obs at 1. cbv iota.
    by rewrite Hnone. }
  intros w'. unfold feed, mbind at 1, M_bind at 1, get_obs at 1. cbv iota.
  unfold mbind at 1, M_bind at 1, lift at 1. cbv iota beta.
  destruct (his_remaining_time now0 (obs w) (timeout (obs w))) as [e|remain]; [done|].
  unfold mbind at 1, M_bind at 1.
  destruct ((if subscribed then pass else _start_feeding) w) as [w1 [e|[]]]; [done|].
  unfold mbind at 1, M_bind at 1, emit at 1. cbv iota beta.
  unfold mbind at 1, M_bind at 1. rewrite _feed_loop_unfold.
  match goal with |- context [_feed_loop_from ?st ticks ?w0] =>
    destruct (_feed_loop_from st ticks w0) as [w2 [e|[[]|]]] eqn:Hloop end;
    [done| |done].
  apply _feed_loop_from_left in Hloop.
  unfold mbind at 1, M_bind at 1, emit at 1. cbv iota beta.
  unfold mbind at 1, M_bind at 1, modify_fut at 1. cbv iota beta.
  unfold mbind at 1, M_bind at 1, get_obs at 1. cbv iota beta.
  unfold mbind at 1, M_bind at 1, lift at 1. cbn [obs].
  destruct (his_remaining_time now1 (obs w2) (timeout (obs w2))) as [e|remain']; [done|].
  cbn [mret M_ret]. intros [= <-]. cbn. split; [done|]. split; [done|].
  by rewrite last_snoc.
Qed.

Lemma feed_unsubscribes_witness :
  let w := world_of running_command RUNNING in
  let ticks := [ quiet_tick (1001 # 10);
                 {| tick_before := [Env_set_result "pong"]; tick_now := 1002 # 10;
                    tick_race := [] |} ] in
  feed false 100 ticks (1003 # 10) (world_of (set_timeout None running_command) RUNNING)
  = (world_of (set_timeout None running_command) RUNNING, inl TypeError)
  ∧ (feed false 100 ticks (1003 # 10) w).2 = inr (Some tt)
  ∧ _is_done (fut (feed false 100 ticks (1003 # 10) w).1) = true
  ∧ last (trace (feed false 100 ticks (1003 # 10) w).1) = Some Unsubscribe.
Proof.
  intros w ticks.
  destruct (feed_unsubscribes false 100 ticks (1003 # 10)
              (world_of (set_timeout None running_command) RUNNING)) as [Hnone _].
  destruct (feed_unsubscribes false 100 ticks (1003 # 10) w) as [_ Hret].
  destruct (Hret (feed false 100 ticks (1003 # 10) w).1) as (_ & Hdone & Hlast);
    [reflexivity|].
  split; [by apply Hnone|]. split; [reflexivity|]. split; [exact Hdone|exact Hlast].
Defined.

End RunnerMoreFacts.

(** ** Ssh *)

Module SshFacts.
Import Ssh.

Lemma getattr_send self : getattr self "send" = Raise (AttributeError "send").
Proof. by vm_compute. Qed.

(** C9 (the code does not do this).  The claim: the Ssh transport has a
    synchronous [send(bytes)] that raises [RemoteEndpointNotConnected] on a
    closed transport.  Class Ssh defines no [send] at all: on every instance,
    open or closed, the call [connection.send(data)] ends in the
    [AttributeError] of the attribute lookup. *)
Theorem Ssh_send_raises_AttributeError self data :
  call_send self data = Raise (AttributeError "send")
  ∧ call_send (close self) data = Raise (AttributeError "send")
  ∧ call_send (close self) data ≠ Raise RemoteEndpointNotConnected.
Proof.
  assert (∀ s, call_send s data = Raise (AttributeError "send")) as H.
  { intros s. unfold call_send, call_method. by rewrite getattr_send. }
  rewrite !H. by repeat split.
Qed.

(** The connection of the module's last lines, opened and closed again. *)
Example conn1_send :
  ∃ conn, conn1 None = Return conn
          ∧ shell_channel conn = None
          ∧ call_send conn "ls" = Raise (AttributeError "send").
Proof. eexists. by repeat split. Qed.

End SshFacts.

Module SshMoreFacts.
Import Ssh.

Lemma same_timeout_Some (a b : Q) : same_timeout (Some a) (Some b) = true ↔ (a == b)%Q.
Proof. apply Qeq_bool_iff. Qed.

(** [settimeout] remembers the value it handed to the channel in
    [self.timeout] and skips a value it remembers; [close] and [open] replace
    the channel and keep [self.timeout].  So a timeout set on an open
    connection is lost on the channel when the connection is opened again, and
    setting the same value again does not bring it back: the call is skipped
    and the new channel stays as [invoke_shell] returned it.  Only another
    value reaches the channel. *)
Theorem settimeout_lost_on_reopen self (t : Q) :
  shell_channel self ≠ None → timeout self = None →
  let s1 := settimeout (Some t) self in
  shell_channel s1 = Some {| channel_timeout := Some t |}
  ∧ ∃ s2, open None (close s1) = Return s2
          ∧ settimeout (Some t) s2 = s2
          ∧ shell_channel s2 = Some {| channel_timeout := None |}
          ∧ timeout s2 = Some t
          ∧ ∀ t' : Q, ¬ (t' == t)%Q →
              shell_channel (settimeout (Some t') s2)
              = Some {| channel_timeout := Some t' |}.
Proof.
  intros Hopen Hnone s1.
  assert (s1 = {| host := host self; port := port self; username := username self;
                  password := password self;
                  receive_buffer_size := receive_buffer_size self;
                  logger := logger self; client_connected := client_connected self;
                  shell_channel := Some {| channel_timeout := Some t |};
                  timeout := Some t |}) as Hs1.
  { subst s1. unfold settimeout. rewrite Hnone. cbn.
    by destruct (shell_channel self). }
  split; [by rewrite Hs1|].
  eexists. split; [reflexivity|]. rewrite Hs1. cbn.
  assert (same_timeout (Some t) (Some t) = true) as Hsame
    by (by apply same_timeout_Some).
  split; [|split; [done|split; [done|]]].
  - unfold settimeout. cbn [timeout orb]. by rewrite Hsame.
  - intros t' Hne. unfold settimeout. cbn [timeout orb shell_channel].
    destruct (same_timeout (Some t') (Some t)) eqn:Hs; [|done].
    by apply same_timeout_Some in Hs.
Qed.

Lemma settimeout_lost_on_reopen_witness :
  ∃ conn, open None (__init__ "192.168.44.50" 22 (Some "vagrant") (Some "vagrant")
                       default_receive_buffer_size false) = Return conn
          ∧ ∃ s2, open None (close (settimeout (Some 5%Q) conn)) = Return s2
                  ∧ shell_channel (settimeout (Some 5%Q) conn)
                    = Some {| channel_timeout := Some 5%Q |}
                  ∧ shell_channel (settimeout (Some 5%Q) s2)
                    = Some {| channel_timeout := None |}.
Proof.
  eexists. split; [reflexivity|].
  match goal with |- context [settimeout _ ?c] =>
    destruct (settimeout_lost_on_reopen c 5) as (Hset & s2 & Hs2 & Hskip & Hch & _)
  end; [discriminate|reflexivity|].
  exists s2. split; [exact Hs2|]. split; [exact Hset|]. by rewrite Hskip.
Defined.

(** The connection as a context manager: [__enter__] opens a connection that
    has no channel and takes an open one as it is, and it lets the exception
    of a failed connect through; [__exit__] closes and returns [False], so an
    exception of the block is raised again.  After the block the connection
    is closed whether or not it was open before, and closing a closed
    connection changes nothing. *)
Theorem context_manager_closes self connect_raises :
  (∀ e, shell_channel self = None → connect_raises = Some e →
        __enter__ connect_raises self = Raise e)
  ∧ (∀ s1, __enter__ connect_raises self = Return s1 →
           shell_channel s1 ≠ None ∧ __exit__ s1 = (close self, false))
  ∧ shell_channel (close self) = None
  ∧ client_connected (close self) = false
  ∧ close (close self) = close self.
Proof.
  split; [|split; [|done]].
  - intros e Hclosed ->. unfold __enter__. by rewrite Hclosed.
  - intros s1. unfold __enter__, __exit__.
    destruct (shell_channel self) eqn:Hch.
    + intros [= <-]. by rewrite Hch.
    + unfold open. destruct connect_raises; [done|]. by intros [= <-].
Qed.

Lemma context_manager_closes_witness :
  let fresh := __init__ "192.168.44.50" 22 (Some "vagrant") (Some "vagrant")
                 default_receive_buffer_size false in
  __enter__ (Some (RemoteEndpointNotConnected)) fresh = Raise RemoteEndpointNotConnected
  ∧ ∃ s1, __enter__ None fresh = Return s1
          ∧ shell_channel s1 ≠ None
          ∧ __exit__ s1 = (close fresh, false).
Proof.
  intros fresh.
  destruct (context_manager_closes fresh (Some RemoteEndpointNotConnected))
    as (Hraise & _).
  destruct (context_manager_closes fresh None) as (_ & Hret & _).
  split; [by apply (Hraise RemoteEndpointNotConnected)|].
  eexists. split; [reflexivity|]. by apply Hret.
Defined.

End SshMoreFacts.
